(** * specmanager MCP server: a shallow embedding and its verified properties

    The development follows the TypeScript sources:
    - [src/utils/git.ts]    remote-URL parsing ([Regex], [GitUrl], [Git]);
    - [src/config.ts]       the configuration of the environment ([Configuration]);
    - [src/types.ts], [src/api/types.ts]
                            error codes and the records of the API ([Types]);
    - [src/api/client.ts]   the backend proxy [TaskApiClient] ([Api]);
    - [src/tools/*.ts]      input contracts and tool handlers ([Zod], [Tools]);
    - [src/server.ts]       dispatcher, error rendering and the HTTP routes
                            of the multiplexed transport ([Server]).
    Process start-up, signal handling and the stdio transport are not part
    of it.

    Asynchronous functions are programs of a free monad over the calls that
    leave the process ([Effects.Eff]: [fetch], file reads, the MCP SDK); the
    mutable objects they share (the client's [projectId], the session map)
    are threaded as explicit state, and JavaScript exceptions are the
    [Rejected] outcome.  Definitions come first, theorems after. *)

From Stdlib Require Import ZArith String Ascii List Lia Bool.
From stdpp Require Import base strings gmap list pretty.

Open Scope string_scope.
Set Warnings "-register-all".

(** ** JavaScript strings *)

Module Str.

(** The double quote and the line feed, which string literals here avoid. *)
Definition dquote : string := String "034"%char "".
Definition nl : string := String "010"%char "".

(** [s.startsWith(p)] *)
Definition startsWith (s p : string) : bool := String.prefix p s.

(** [s.slice(n)] for [0 <= n] *)
Definition sliceFrom (n : nat) (s : string) : string :=
  String.substring n (String.length s - n) s.

(** [s.slice(0, n)] *)
Definition sliceTo (n : nat) (s : string) : string :=
  String.substring 0 n s.

(** A string is truthy when it is not empty. *)
Definition nonEmpty (s : string) : bool := negb (bool_decide (s = "")).

(** White space and line terminators among the code units below 256. *)
Definition isWhiteSpace (c : ascii) : bool :=
  bool_decide (nat_of_ascii c ∈ [9; 10; 11; 12; 13; 32; 160]).

Fixpoint trimStart (s : string) : string :=
  match s with
  | EmptyString => EmptyString
  | String c s' => if isWhiteSpace c then trimStart s' else s
  end.

Fixpoint trimEnd (s : string) : string :=
  match s with
  | EmptyString => EmptyString
  | String c s' =>
      let t := trimEnd s' in
      if isWhiteSpace c && negb (nonEmpty t) then EmptyString else String c t
  end.

(** [s.trim()] *)
Definition trim (s : string) : string := trimEnd (trimStart s).

(** [s.split(sep)] for a one-character separator *)
Fixpoint split (sep : ascii) (s : string) : list string :=
  match s with
  | EmptyString => [EmptyString]
  | String c s' =>
      match split sep s' with
      | [] => [EmptyString]
      | h :: t => if bool_decide (c = sep) then EmptyString :: h :: t else String c h :: t
      end
  end.

(** [xs.join(sep)] *)
Fixpoint join (sep : string) (xs : list string) : string :=
  match xs with
  | [] => ""
  | [x] => x
  | x :: rest => x +:+ sep +:+ join sep rest
  end.

(** Every character of [w] satisfies [p]. *)
Fixpoint allChars (p : ascii -> bool) (w : string) : bool :=
  match w with
  | EmptyString => true
  | String c w' => p c && allChars p w'
  end.

End Str.

(** ** Regular expressions, as [String.prototype.match] runs them

    The two patterns of [parseGitRemoteUrl] use literals, a negated class,
    [?], greedy [+] and lazy [+?] over a class, one capture group and [$].
    The matcher is the backtracking search of the language: alternatives are
    tried in priority order, the continuation [k] is the rest of the pattern,
    and [exec] tries each start offset from the left. *)

Module Regex.

(** Matchers of one character. *)
Inductive Atom :=
| Chr (c : ascii)              (* a literal or escaped character *)
| NoneOf (cs : list ascii).    (* [^...] *)

Inductive Re :=
| Eps
| One (a : Atom)
| Seq (r1 r2 : Re)
| Opt (r : Re)                 (* r?  *)
| Plus (a : Atom)              (* a+  *)
| PlusLazy (a : Atom)          (* a+? *)
| Group (r : Re)               (* ( r ), the capture group; (?: ) is not a node *)
| EndOfInput.                  (* $ *)

(** A run of literal characters. *)
Fixpoint lit (w : string) : Re :=
  match w with
  | EmptyString => Eps
  | String c w' => Seq (One (Chr c)) (lit w')
  end.

Definition accepts (a : Atom) (c : ascii) : bool :=
  match a with
  | Chr d => bool_decide (c = d)
  | NoneOf cs => negb (bool_decide (c ∈ cs))
  end.

(** What was read between the input [s] and its suffix [rest]. *)
Definition consumed (s rest : string) : string :=
  String.substring 0 (String.length s - String.length rest) s.

Section Backtrack.
Context {R : Type}.

(** The rest of the match: remaining input and the capture so far. *)
Definition Cont : Type := string -> option string -> option R.

(** After the first character of [a+]: as many more as possible. *)
Fixpoint starGreedy (a : Atom) (s : string) (cap : option string) (k : Cont) : option R :=
  match s with
  | String c s' =>
      if accepts a c then
        match starGreedy a s' cap k with
        | Some x => Some x
        | None => k s cap
        end
      else k s cap
  | EmptyString => k s cap
  end.

(** After the first character of [a+?]: as few more as possible. *)
Fixpoint starLazy (a : Atom) (s : string) (cap : option string) (k : Cont) : option R :=
  match k s cap with
  | Some x => Some x
  | None =>
      match s with
      | String c s' => if accepts a c then starLazy a s' cap k else None
      | EmptyString => None
      end
  end.

Fixpoint run (r : Re) (s : string) (cap : option string) (k : Cont) : option R :=
  match r with
  | Eps => k s cap
  | One a =>
      match s with
      | String c s' => if accepts a c then k s' cap else None
      | EmptyString => None
      end
  | Seq r1 r2 => run r1 s cap (fun s1 cap1 => run r2 s1 cap1 k)
  | Opt r1 =>
      match run r1 s cap k with
      | Some x => Some x
      | None => k s cap
      end
  | Plus a =>
      match s with
      | String c s' => if accepts a c then starGreedy a s' cap k else None
      | EmptyString => None
      end
  | PlusLazy a =>
      match s with
      | String c s' => if accepts a c then starLazy a s' cap k else None
      | EmptyString => None
      end
  | Group r1 => run r1 s cap (fun s1 _ => k s1 (Some (consumed s s1)))
  | EndOfInput =>
      match s with
      | EmptyString => k s cap
      | String _ _ => None
      end
  end.
End Backtrack.

(** [s.match(r)] without the g flag: the leftmost match; the result holds
    element 1 of the match array (the capture group), [None] inside when
    the group did not take part. *)
Fixpoint exec (r : Re) (s : string) : option (option string) :=
  match run r s None (fun _ cap => Some cap) with
  | Some cap => Some cap
  | None =>
      match s with
      | String _ s' => exec r s'
      | EmptyString => None
      end
  end.

(** The declarative reading of a pattern: [derives r s cap s' cap'] when
    [r] can read a prefix of [s], leaving [s'] and the capture [cap']. *)
Inductive reps (a : Atom) : string -> string -> Prop :=
| reps_nil s : reps a s s
| reps_cons c s s' : accepts a c = true -> reps a s s' -> reps a (String c s) s'.

Inductive derives : Re -> string -> option string -> string -> option string -> Prop :=
| d_eps s cap : derives Eps s cap s cap
| d_one a c s cap : accepts a c = true -> derives (One a) (String c s) cap s cap
| d_seq r1 r2 s cap s1 cap1 s2 cap2 :
    derives r1 s cap s1 cap1 -> derives r2 s1 cap1 s2 cap2 ->
    derives (Seq r1 r2) s cap s2 cap2
| d_opt_some r s cap s1 cap1 : derives r s cap s1 cap1 -> derives (Opt r) s cap s1 cap1
| d_opt_none r s cap : derives (Opt r) s cap s cap
| d_plus a c s s' cap :
    accepts a c = true -> reps a s s' -> derives (Plus a) (String c s) cap s' cap
| d_pluslazy a c s s' cap :
    accepts a c = true -> reps a s s' -> derives (PlusLazy a) (String c s) cap s' cap
| d_group r s cap s1 cap1 :
    derives r s cap s1 cap1 -> derives (Group r) s cap s1 (Some (consumed s s1))
| d_end cap : derives EndOfInput "" cap "" cap.

End Regex.

(** ** src/utils/git.ts, the pure part *)

Module GitUrl.
Import Regex.

(** [([^/]+\/[^/]+?)] *)
Definition ownerRepo : Re :=
  Group (Seq (Plus (NoneOf ["/"%char]))
          (Seq (One (Chr "/")) (PlusLazy (NoneOf ["/"%char])))).

(** [(?:\.git)?$] *)
Definition gitSuffix : Re := Seq (Opt (lit ".git")) EndOfInput.

(** [/https?:\/\/github\.com\/([^/]+\/[^/]+?)(?:\.git)?$/] *)
Definition httpsRe : Re :=
  Seq (lit "http") (Seq (Opt (One (Chr "s")))
    (Seq (lit "://github.com/") (Seq ownerRepo gitSuffix))).

(** [/git@github\.com:([^/]+\/[^/]+?)(?:\.git)?$/] *)
Definition sshRe : Re :=
  Seq (lit "git@github.com:") (Seq ownerRepo gitSuffix).

Definition parseGitRemoteUrl (url : string) : option string :=
  match exec httpsRe url with
  | Some httpsMatch => httpsMatch
  | None =>
      match exec sshRe url with
      | Some sshMatch => sshMatch
      | None => None
      end
  end.

(** What the two patterns accept, said without the matcher.  [owner] and
    [repo] are non-empty and hold no slash. *)
Definition noSlash (w : string) : bool :=
  Str.allChars (fun c => negb (bool_decide (c = "/"%char))) w.

Definition ownerRepoShape (path : string) : Prop :=
  exists owner repo, path = owner +:+ "/" +:+ repo /\
    owner <> "" /\ repo <> "" /\ noSlash owner = true /\ noSlash repo = true.

(** The two shapes of a GitHub remote URL: the whole URL is
    [https://github.com/owner/repo] or [git@github.com:owner/repo], with an
    optional [.git] at its end. *)
Definition httpsShape (url : string) : Prop :=
  exists path suffix,
    url = "https://github.com/" +:+ path +:+ suffix /\
    (suffix = "" \/ suffix = ".git") /\
    ownerRepoShape path.

Definition sshShape (url : string) : Prop :=
  exists path suffix,
    url = "git@github.com:" +:+ path +:+ suffix /\
    (suffix = "" \/ suffix = ".git") /\
    ownerRepoShape path.

(** The patterns are anchored at the end of the URL only ([$], and no [^]):
    they accept a URL that ends in such a form, after any text [pre], and
    the HTTPS pattern accepts the scheme [http] too.  [path] is the
    [owner/repo] part of that ending. *)
Definition httpsTailOf (url path : string) : Prop :=
  exists pre scheme suffix,
    url = pre +:+ scheme +:+ "://github.com/" +:+ path +:+ suffix /\
    (scheme = "http" \/ scheme = "https") /\
    (suffix = "" \/ suffix = ".git") /\
    ownerRepoShape path.

Definition sshTailOf (url path : string) : Prop :=
  exists pre suffix,
    url = pre +:+ "git@github.com:" +:+ path +:+ suffix /\
    (suffix = "" \/ suffix = ".git") /\
    ownerRepoShape path.

Definition httpsTail (url : string) : Prop := exists path, httpsTailOf url path.
Definition sshTail (url : string) : Prop := exists path, sshTailOf url path.

End GitUrl.

(** ** The JavaScript runtime and the libraries the server is built on

    What the sources take from outside the repository is a parameter of the
    development: the arithmetic and printing of JavaScript numbers, the URL
    encoders, [path.join], and of the zod library the test behind [.uuid()]
    and the wording of its built-in messages. *)

(** The built-in issues of zod that the contracts of the tools can raise. *)
Inductive ZodIssueKind :=
| invalid_type (expected received : string)
| invalid_string_uuid
| invalid_enum_value (options : list string) (received : string)
| too_small_string (minimum : nat)
| too_small_array (minimum : nat)
| too_small_number (minimum : Z)
| too_big_number (maximum : Z).

(** An issue of a [ZodError], with the two fields the server reads. *)
Inductive PathElem := PKey (k : string) | PIndex (i : nat).

Record ZodIssue := {
  issue_path : list PathElem;
  issue_message : string
}.

Class Runtime := {
  number : Type;
  number_of_Z : Z -> number;
  number_leb : number -> number -> bool;         (* x <= y *)
  number_eqb : number -> number -> bool;         (* x === y *)
  number_to_string : number -> string;           (* String(x) *)
  encodeURIComponent : string -> string;
  searchParams_toString : list (string * string) -> string;  (* URLSearchParams#toString *)
  path_join : list string -> string;             (* path.join *)
  isUuid : string -> bool;                       (* the test of z.string().uuid() *)
  zodDefaultMessage : ZodIssueKind -> string;
  zodErrorMessage : list ZodIssue -> string      (* ZodError#message *)
}.

(** ** JavaScript values of type [unknown] *)

Module Js.
Section WithRuntime.
Context {rt : Runtime}.

Inductive JsValue :=
| JUndefined
| JNull
| JBool (b : bool)
| JNum (n : number)
| JStr (s : string)
| JArr (elements : list JsValue)
| JObj (props : list (string * JsValue)).

(** A [Record<string, unknown>]. *)
Definition JsObject : Type := list (string * JsValue).

(** [o[key]] *)
Fixpoint getProp (o : JsObject) (key : string) : JsValue :=
  match o with
  | [] => JUndefined
  | (k, v) :: rest => if bool_decide (k = key) then v else getProp rest key
  end.

Definition truthy (v : JsValue) : bool :=
  match v with
  | JUndefined | JNull => false
  | JBool b => b
  | JNum n => negb (number_eqb n (number_of_Z 0))
  | JStr s => Str.nonEmpty s
  | JArr _ | JObj _ => true
  end.

(** [a || b] *)
Definition or (a b : JsValue) : JsValue := if truthy a then a else b.

(** [a === s] for a string literal [s] *)
Definition isString (a : JsValue) (s : string) : bool :=
  match a with
  | JStr t => bool_decide (t = s)
  | _ => false
  end.

(** [String(v)], as the [Error] constructor applies it to its message. *)
Fixpoint toString (v : JsValue) : string :=
  match v with
  | JUndefined => "undefined"
  | JNull => "null"
  | JBool true => "true"
  | JBool false => "false"
  | JNum n => number_to_string n
  | JStr s => s
  | JArr l =>
      Str.join ","
        (List.map (fun x => match x with
                            | JUndefined | JNull => ""
                            | _ => toString x
                            end) l)
  | JObj _ => "[object Object]"
  end.

(** [v[key]] for a key that no primitive value and no array has: the value
    of the property, or the message of the [TypeError] that reading a
    property of [null] or [undefined] throws. *)
Definition getMember (v : JsValue) (key : string) : string + JsValue :=
  match v with
  | JNull => inl ("Cannot read properties of null (reading '" +:+ key +:+ "')")
  | JUndefined => inl ("Cannot read properties of undefined (reading '" +:+ key +:+ "')")
  | JObj o => inr (getProp o key)
  | JBool _ | JNum _ | JStr _ | JArr _ => inr JUndefined
  end.

(** The name zod gives to the type of a value. *)
Definition parsedType (v : JsValue) : string :=
  match v with
  | JUndefined => "undefined"
  | JNull => "null"
  | JBool _ => "boolean"
  | JNum _ => "number"
  | JStr _ => "string"
  | JArr _ => "array"
  | JObj _ => "object"
  end.

(** Truthiness of [string | undefined] and [string | null]. *)
Definition truthyStr (s : option string) : bool :=
  match s with
  | Some t => Str.nonEmpty t
  | None => false
  end.

End WithRuntime.
End Js.

(** ** src/types.ts and src/api/types.ts *)

Module Types.
Section WithRuntime.
Context {rt : Runtime}.

Inductive TaskStatus := Pending | InProgress | Done.

Definition taskStatusText (s : TaskStatus) : string :=
  match s with
  | Pending => "pending"
  | InProgress => "in-progress"
  | Done => "done"
  end.

Record SpecRef := {
  specRef_id : string;
  specRef_title : string;
  specRef_stage : string
}.

Record Task := {
  task_id : string;
  task_taskNumber : option string;
  task_title : string;
  task_status : TaskStatus;
  task_files : list string;
  task_implementation : option string;
  task_purposes : option string;
  task_sortOrder : number;
  task_specId : string;
  task_createdAt : string;
  task_updatedAt : string;
  task_spec : option SpecRef
}.

Record SpecDetail := {
  specDetail_id : string;
  specDetail_title : string;
  specDetail_stage : string;
  specDetail_requirementsContent : option string;
  specDetail_designContent : option string
}.

(** [TaskDetail extends Task], its [spec] always present and richer. *)
Record TaskDetail := {
  detail_task : Task;
  detail_spec : SpecDetail
}.

Record TaskCompletion := {
  completion_summary : string;
  completion_filesModified : list string;
  completion_implementation : option string
}.

Record ProgressUpdate := {
  progress_message : string;
  progress_percent : option number
}.

(** [status] is the text of a [TaskStatus] or ['all']. *)
Record TaskFilters := {
  filters_status : option string;
  filters_specId : option string
}.

Inductive ErrorCode :=
| NOT_CONFIGURED
| UNAUTHORIZED
| TASK_NOT_FOUND
| PROJECT_NOT_FOUND
| INVALID_STATE_TRANSITION
| API_ERROR
| NETWORK_ERROR.

(** The string value of each member of the enum. *)
Definition errorCodeText (c : ErrorCode) : string :=
  match c with
  | NOT_CONFIGURED => "NOT_CONFIGURED"
  | UNAUTHORIZED => "UNAUTHORIZED"
  | TASK_NOT_FOUND => "TASK_NOT_FOUND"
  | PROJECT_NOT_FOUND => "PROJECT_NOT_FOUND"
  | INVALID_STATE_TRANSITION => "INVALID_STATE_TRANSITION"
  | API_ERROR => "API_ERROR"
  | NETWORK_ERROR => "NETWORK_ERROR"
  end.

Record MCPServerError := {
  message : string;
  code : ErrorCode;
  httpStatus : option Z
}.

(** src/api/types.ts *)
Record Project := {
  project_id : string;
  project_name : string;
  project_githubRepositoryFullName : option string;
  project_githubRepositoryUrl : option string;
  project_githubRepositoryDefaultBranch : option string;
  project_createdAt : string;
  project_updatedAt : string
}.

Inductive SpecStage := Requirements | Design | Tasks.

Definition specStageText (s : SpecStage) : string :=
  match s with
  | Requirements => "requirements"
  | Design => "design"
  | Tasks => "tasks"
  end.

Record TaskCounts := {
  counts_pending : number;
  counts_inProgress : number;
  counts_done : number;
  counts_total : number
}.

Record Spec := {
  spec_id : string;
  spec_title : string;
  spec_stage : SpecStage;
  spec_taskCounts : TaskCounts;
  spec_createdAt : string;
  spec_updatedAt : string
}.

Record User := {
  user_id : string;
  user_email : string;
  user_name : string
}.

(** The type arguments with which [request<T>] is called, and the
    payload each response wraps ([{ tasks }], [{ task }], ...). *)
Inductive ResponseType :=
| MeResponse
| ListTasksResponse
| GetTaskResponse
| StartTaskResponse
| CompleteTaskResponse
| ReportProgressResponse
| ListProjectsResponse
| ListSpecsResponse
| GetProjectByRepoResponse.

Definition payload (T : ResponseType) : Type :=
  match T with
  | MeResponse => User
  | ListTasksResponse => list Task
  | GetTaskResponse => TaskDetail
  | StartTaskResponse => Task
  | CompleteTaskResponse => Task
  | ReportProgressResponse => bool
  | ListProjectsResponse => list Project
  | ListSpecsResponse => list Spec
  | GetProjectByRepoResponse => Project
  end.

(** What the server can find in a [catch]: its own error class, a
    [ZodError], another [Error], or a value that is no [Error]. *)
Inductive Thrown :=
| ThrownMCP (e : MCPServerError)
| ThrownZod (issues : list ZodIssue)
| ThrownError (msg : string)
| ThrownValue.

End WithRuntime.
End Types.

(** ** Calls that leave the process, and programs over them *)

Module Effects.
Import Js Types.
Section WithRuntime.
Context {rt : Runtime}.

(** *** Outbound HTTP: [fetch] *)

(** The [body] arguments of [request]; [JSON.stringify] is the runtime's. *)
Inductive RequestBody :=
| CompletionBody (c : TaskCompletion)
| ProgressBody (p : ProgressUpdate).

Record HttpRequest := {
  req_url : string;
  req_method : string;
  req_headers : list (string * string);
  req_body : option RequestBody
}.

(** What a rejected promise of the runtime carries: an [Error] with its
    message, or a value that is no [Error]. *)
Inductive Rejection :=
| RejectError (msg : string)
| RejectValue.

(** A [Response].  Where [!response.ok] the source casts what
    [response.json()] gives to [Record<string, unknown>] without a test, so
    [jsonAsRecord] is the JSON value of the body, whatever it is ([null]
    included), and [None] when the body is no JSON; otherwise the body is
    read at the type [T] it is cast to. *)
Record Response (T : Type) := {
  status : Z;
  jsonAsRecord : option JsValue;
  jsonAs : Rejection + T
}.
Global Arguments status {T} _.
Global Arguments jsonAsRecord {T} _.
Global Arguments jsonAs {T} _.

(** [response.ok] *)
Definition ok {T} (r : Response T) : bool :=
  (200 <=? status r)%Z && (status r <=? 299)%Z.

(** *** Inbound HTTP and the MCP SDK *)

(** A header of type [string | string[] | undefined]. *)
Inductive HeaderValue :=
| HeaderAbsent
| HeaderOne (v : string)
| HeaderMany (vs : list string).

Record InboundHeaders := {
  authorization : option string;
  x_api_key : HeaderValue;
  mcp_session_id : option string
}.

Record InboundRequest := {
  in_headers : InboundHeaders;
  in_body : JsValue
}.

(** SDK objects ([Server], [StreamableHTTPServerTransport]) and client
    objects are known by their identity. *)
Definition Handle : Type := nat.

(** The callbacks the server registers and the SDK may invoke while it
    serves a call on a session's transport or server instance. *)
Inductive SdkCallback :=
| OnSessionInitialized (newSessionId : string)
| OnClose
| OnListTools
| OnCallTool (name : string) (arguments : option JsObject).

Record SdkReply := {
  callbacks : list SdkCallback;
  headersSent : bool;
  rejection : option Rejection
}.

Record CallToolResult := {
  text : string;
  isError : bool
}.

(** *** The calls *)

Inductive Eff : Type -> Type :=
| Fetch (T : ResponseType) (req : HttpRequest) : Eff (Rejection + Response (payload T))
| ReadFile (path : string) : Eff (Rejection + string)
| ConsoleError (line : string) : Eff unit
| ServerConnect (server transport : Handle) : Eff (option Rejection)
| TransportHandleRequest (transport : Handle) (req : InboundRequest) : Eff SdkReply
| TransportSessionId (transport : Handle) : Eff (option string)
| TransportClose (transport : Handle) : Eff SdkReply
| ServerClose (server : Handle) : Eff SdkReply
| ReplyToolList (names : list string) : Eff unit
| ReplyToolResult (result : CallToolResult) : Eff unit.

(** A program: it returns, or makes a call and goes on with the answer. *)
Inductive IO (A : Type) : Type :=
| Ret (a : A)
| Vis {X : Type} (e : Eff X) (k : X -> IO A).
Global Arguments Ret {A} _.
Global Arguments Vis {A X} _ _.

Fixpoint io_bind {A B} (p : IO A) (f : A -> IO B) : IO B :=
  match p with
  | Ret a => f a
  | Vis e k => Vis e (fun x => io_bind (k x) f)
  end.

(** A call with the answer it got. *)
Inductive Event :=
| Ev {X : Type} (e : Eff X) (answer : X).

(** The world outside: it answers each call, knowing what happened so far. *)
Definition Env : Type := list Event -> forall X, Eff X -> X.

(** Running a program in a world, from a given history. *)
Fixpoint interp {A} (env : Env) (log : list Event) (p : IO A) : A * list Event :=
  match p with
  | Ret a => (a, log)
  | Vis e k =>
      let x := env log _ e in
      interp env (log ++ [Ev e x]) (k x)
  end.

(** *** Promises over shared mutable state *)

Inductive Outcome (A : Type) :=
| Resolved (a : A)
| Rejected (e : Thrown).
Global Arguments Resolved {A} _.
Global Arguments Rejected {A} _.

Definition M (S A : Type) : Type := S -> IO (Outcome A * S).

Definition ret {S A} (a : A) : M S A := fun s => Ret (Resolved a, s).

Definition throw {S A} (e : Thrown) : M S A := fun s => Ret (Rejected e, s).

Definition bind {S A B} (m : M S A) (f : A -> M S B) : M S B :=
  fun s => io_bind (m s) (fun r =>
    match r with
    | (Resolved a, s') => f a s'
    | (Rejected e, s') => Ret (Rejected e, s')
    end).

(** [try { m } catch (error) { h error }] *)
Definition try_catch {S A} (m : M S A) (h : Thrown -> M S A) : M S A :=
  fun s => io_bind (m s) (fun r =>
    match r with
    | (Resolved a, s') => Ret (Resolved a, s')
    | (Rejected e, s') => h e s'
    end).

(** [try { m } finally { fin }]: [fin] runs on both paths and the
    outcome of [m] stands unless [fin] itself throws. *)
Definition try_finally {S A} (m : M S A) (fin : M S unit) : M S A :=
  fun s => io_bind (m s) (fun r =>
    io_bind (fin (snd r)) (fun r' =>
      match r' with
      | (Resolved _, s'') => Ret (fst r, s'')
      | (Rejected e, s'') => Ret (Rejected e, s'')
      end)).

Definition get {S} : M S S := fun s => Ret (Resolved s, s).
Definition modify {S} (f : S -> S) : M S unit := fun s => Ret (Resolved tt, f s).

(** Make a call. *)
Definition perform {S X} (e : Eff X) : M S X :=
  fun s => Vis e (fun x => Ret (Resolved x, s)).

(** Await a promise of the runtime. *)
Definition await {S X} (e : Eff (Rejection + X)) : M S X :=
  bind (perform e) (fun r =>
    match r with
    | inl (RejectError msg) => throw (ThrownError msg)
    | inl RejectValue => throw ThrownValue
    | inr x => ret x
    end).

Definition thrownOf (r : Rejection) : Thrown :=
  match r with
  | RejectError msg => ThrownError msg
  | RejectValue => ThrownValue
  end.

End WithRuntime.

Declare Scope io_scope.
Delimit Scope io_scope with io.
Notation "'let!' x ':=' m 'in' k" := (bind m (fun x => k))
  (at level 10, x name, m at level 100, k at level 200) : io_scope.
Notation "m ';;;' k" := (bind m (fun _ => k))
  (at level 100, k at level 200, right associativity) : io_scope.

End Effects.

(** ** src/utils/git.ts, the part that reads the file system *)

Module Git.
Import Js Types Effects.
Export GitUrl.
Local Open Scope io_scope.
Section WithRuntime.
Context {rt : Runtime} {S : Type}.

Definition originHeader : string :=
  "[remote " +:+ Str.dquote +:+ "origin" +:+ Str.dquote +:+ "]".

(** The [for] loop over the lines of the config file. *)
Fixpoint scanLines (lines : list string) (inOriginSection : bool) : option string :=
  match lines with
  | [] => None
  | line :: rest =>
      let trimmed := Str.trim line in
      if Str.startsWith trimmed "[" then
        scanLines rest (bool_decide (trimmed = originHeader))
      else if inOriginSection && Str.startsWith trimmed "url = " then
        Some (Str.trim (Str.sliceFrom 6 trimmed))
      else scanLines rest inOriginSection
  end.

Definition getGitRemoteUrl (workingDir : string) : M S (option string) :=
  try_catch
    (let gitConfigPath := path_join [workingDir; ".git"; "config"] in
     let! configContent := await (ReadFile gitConfigPath) in
     let lines := Str.split "010"%char configContent in
     ret (scanLines lines false))
    (fun _ => ret None).

Definition getGitHubRepoFromWorkingDir (workingDir : string) : M S (option string) :=
  let! remoteUrl := getGitRemoteUrl workingDir in
  match remoteUrl with
  | Some url => if Str.nonEmpty url then ret (parseGitRemoteUrl url) else ret None
  | None => ret None
  end.

End WithRuntime.
End Git.

(** ** src/api/client.ts *)

Module Api.
Import Js Types Effects.
Local Open Scope io_scope.
Section WithRuntime.
Context {rt : Runtime}.

(** src/config.ts *)
Record Config := {
  config_apiUrl : string;
  config_apiKey : string;
  config_projectId : option string
}.

Record TaskApiClient := {
  apiUrl : string;
  apiKey : string;
  projectId : option string
}.

(** [new TaskApiClient(config)] *)
Definition newTaskApiClient (config : Config) : TaskApiClient :=
  {| apiUrl := config_apiUrl config;
     apiKey := config_apiKey config;
     projectId := config_projectId config |}.

Definition setProjectId (p : string) : M TaskApiClient unit :=
  modify (fun this =>
    {| apiUrl := apiUrl this; apiKey := apiKey this; projectId := Some p |}).

Definition getProjectId : M TaskApiClient (option string) :=
  let! this := get in ret (projectId this).

Definition mapErrorCode (apiCode : JsValue) (status : Z) : ErrorCode :=
  if bool_decide (status = 401%Z) || bool_decide (status = 403%Z) then UNAUTHORIZED
  else if isString apiCode "TASK_NOT_FOUND" then TASK_NOT_FOUND
  else if isString apiCode "PROJECT_NOT_FOUND" then PROJECT_NOT_FOUND
  else if isString apiCode "INVALID_STATE_TRANSITION"
          || isString apiCode "TASK_ALREADY_IN_PROGRESS"
          || isString apiCode "TASK_NOT_STARTED"
          || isString apiCode "TASK_ALREADY_COMPLETED" then INVALID_STATE_TRANSITION
  else API_ERROR.

(** [error instanceof Error ? error.message : 'Unknown error'] *)
Definition messageOrUnknown (error : Thrown) : string :=
  match error with
  | ThrownMCP e => message e
  | ThrownZod issues => zodErrorMessage issues
  | ThrownError msg => msg
  | ThrownValue => "Unknown error"
  end.

(** [errorData.key], which throws on [null]. *)
Definition member (v : JsValue) (key : string) : M TaskApiClient JsValue :=
  match getMember v key with
  | inl typeError => throw (ThrownError typeError)
  | inr x => ret x
  end.

Definition request (T : ResponseType) (method path : string)
    (body : option RequestBody) : M TaskApiClient (payload T) :=
  let! this := get in
  let url := apiUrl this +:+ "/api/v1" +:+ path in
  let headers := [("Content-Type", "application/json"); ("X-API-Key", apiKey this)] in
  try_catch
    (let! response := await (Fetch T {| req_url := url; req_method := method;
                                       req_headers := headers; req_body := body |}) in
     if negb (ok response) then
       (* response.json().catch(() => ({})) *)
       let errorData := default (JObj []) (jsonAsRecord response) in
       let! message :=
         (let! m := member errorData "message" in
          if truthy m then ret m
          else
            let! e := member errorData "error" in
            ret (Js.or e (JStr ("HTTP " +:+ pretty (status response))))) in
       let! c := member errorData "code" in
       let code := Js.or c (JStr "API_ERROR") in
       throw (ThrownMCP {| message := Js.toString message;
                           code := mapErrorCode code (status response);
                           httpStatus := Some (status response) |})
     else
       match jsonAs response with
       | inl r => throw (thrownOf r)
       | inr data => ret data
       end)
    (fun error =>
       match error with
       | ThrownMCP _ => throw error
       | _ => throw (ThrownMCP {| message := "Network error: " +:+ messageOrUnknown error;
                                  code := NETWORK_ERROR;
                                  httpStatus := None |})
       end).

Definition getMe : M TaskApiClient User :=
  request MeResponse "GET" "/me" None.

Definition projectIdRequired : Thrown :=
  ThrownMCP {| message := "Project ID is required. Set SPECMANAGER_PROJECT_ID or call setProjectId()";
               code := NOT_CONFIGURED;
               httpStatus := None |}.

(** A [string | undefined] where the source reads it as a string: inside a
    template literal, or once a test has shown that it is there. *)
Definition interpolate (s : option string) : string := default "undefined" s.

Definition listTasks (filters : option TaskFilters) : M TaskApiClient (list Task) :=
  let! this := get in
  if negb (truthyStr (projectId this)) then throw projectIdRequired
  else
    let status :=
      match filters ≫= filters_status with
      | Some s => if Str.nonEmpty s then s else "all"
      | None => "all"
      end in
    let params :=
      ([("status", status)] ++
       match filters ≫= filters_specId with
       | Some specId => if Str.nonEmpty specId then [("specId", specId)] else []
       | None => []
       end)%list in
    request ListTasksResponse "GET"
      ("/projects/" +:+ interpolate (projectId this) +:+ "/tasks?"
         +:+ searchParams_toString params) None.

Definition getTask (taskId : string) : M TaskApiClient TaskDetail :=
  request GetTaskResponse "GET" ("/tasks/" +:+ taskId) None.

Definition startTask (taskId : string) : M TaskApiClient Task :=
  request StartTaskResponse "PATCH" ("/tasks/" +:+ taskId +:+ "/start") None.

Definition completeTask (taskId : string) (completion : TaskCompletion) : M TaskApiClient Task :=
  request CompleteTaskResponse "PATCH" ("/tasks/" +:+ taskId +:+ "/complete")
    (Some (CompletionBody completion)).

Definition reportProgress (taskId : string) (progress : ProgressUpdate) : M TaskApiClient unit :=
  let! _ := request ReportProgressResponse "POST" ("/tasks/" +:+ taskId +:+ "/progress")
              (Some (ProgressBody progress)) in
  ret tt.

Definition listProjects : M TaskApiClient (list Project) :=
  request ListProjectsResponse "GET" "/projects" None.

Definition listSpecs : M TaskApiClient (list Spec) :=
  let! this := get in
  if negb (truthyStr (projectId this)) then throw projectIdRequired
  else
    request ListSpecsResponse "GET"
      ("/projects/" +:+ interpolate (projectId this) +:+ "/specs") None.

Definition getProjectByRepo (repoFullName : string) : M TaskApiClient (option Project) :=
  try_catch
    (let! project := request GetProjectByRepoResponse "GET"
                       ("/projects/by-repo?repo=" +:+ encodeURIComponent repoFullName) None in
     ret (Some project))
    (fun error =>
       match error with
       | ThrownMCP e =>
           match code e with
           | PROJECT_NOT_FOUND => ret None
           | _ => throw error
           end
       | _ => throw error
       end).

End WithRuntime.
End Api.

(** ** Input contracts: the part of zod the tools use

    A contract is the [z.object({...})] of the source, written with the
    same combinators.  Parsing checks every field, gathers the issues of
    all of them and fails when there is any; otherwise it yields the object
    with its defaults filled in. *)

Module Zod.
Import Js Types.
Section WithRuntime.
Context {rt : Runtime}.

Inductive StringCheck :=
| Uuid (message : option string)                  (* .uuid(message?) *)
| MinLength (n : nat) (message : option string).  (* .min(n, message?) *)

Inductive NumberCheck :=
| Min (bound : Z)      (* .min(bound) *)
| Max (bound : Z).     (* .max(bound) *)

Inductive ZodType :=
| ZString (checks : list StringCheck)
| ZNumber (checks : list NumberCheck)
| ZBoolean
| ZEnum (options : list string)
| ZArray (element : ZodType) (minLength : option (nat * option string))
| ZOptional (inner : ZodType)
| ZDefault (inner : ZodType) (value : JsValue).

Definition ZodObject : Type := list (string * ZodType).

Definition issue (path : list PathElem) (custom : option string) (kind : ZodIssueKind) : ZodIssue :=
  {| issue_path := path; issue_message := default (zodDefaultMessage kind) custom |}.

Definition checkString (path : list PathElem) (s : string) (c : StringCheck) : list ZodIssue :=
  match c with
  | Uuid msg => if isUuid s then [] else [issue path msg invalid_string_uuid]
  | MinLength n msg =>
      if (String.length s <? n)%nat then [issue path msg (too_small_string n)] else []
  end.

Definition checkNumber (path : list PathElem) (x : number) (c : NumberCheck) : list ZodIssue :=
  match c with
  | Min b => if number_leb (number_of_Z b) x then [] else [issue path None (too_small_number b)]
  | Max b => if number_leb x (number_of_Z b) then [] else [issue path None (too_big_number b)]
  end.

(** ['a' | 'b' | ...], the expected type zod reports for an enum. *)
Definition joinValues (options : list string) : string :=
  Str.join " | " (List.map (fun o => "'" +:+ o +:+ "'") options).

(** The elements of an array, each under its index. *)
Fixpoint parseElements (parse : list PathElem -> JsValue -> list ZodIssue * JsValue)
    (path : list PathElem) (i : nat) (l : list JsValue) : list ZodIssue * list JsValue :=
  match l with
  | [] => ([], [])
  | x :: rest =>
      let (issues, y) := parse (path ++ [PIndex i])%list x in
      let (issues', ys) := parseElements parse path (Datatypes.S i) rest in
      ((issues ++ issues')%list, y :: ys)
  end.

(** The issues a value raises against a type, and the parsed value. *)
Fixpoint parseType (t : ZodType) (path : list PathElem) (v : JsValue) : list ZodIssue * JsValue :=
  match t with
  | ZString checks =>
      match v with
      | JStr s => (List.concat (List.map (checkString path s) checks), v)
      | _ => ([issue path None (invalid_type "string" (parsedType v))], v)
      end
  | ZNumber checks =>
      match v with
      | JNum x => (List.concat (List.map (checkNumber path x) checks), v)
      | _ => ([issue path None (invalid_type "number" (parsedType v))], v)
      end
  | ZBoolean =>
      match v with
      | JBool _ => ([], v)
      | _ => ([issue path None (invalid_type "boolean" (parsedType v))], v)
      end
  | ZEnum options =>
      match v with
      | JStr s =>
          if bool_decide (s ∈ options) then ([], v)
          else ([issue path None (invalid_enum_value options s)], v)
      | _ => ([issue path None (invalid_type (joinValues options) (parsedType v))], v)
      end
  | ZArray element minLength =>
      match v with
      | JArr l =>
          let tooShort :=
            match minLength with
            | Some (n, msg) =>
                if (List.length l <? n)%nat then [issue path msg (too_small_array n)] else []
            | None => []
            end in
          let (issues, ys) := parseElements (parseType element) path 0 l in
          ((tooShort ++ issues)%list, JArr ys)
      | _ => ([issue path None (invalid_type "array" (parsedType v))], v)
      end
  | ZOptional inner =>
      match v with
      | JUndefined => ([], JUndefined)
      | _ => parseType inner path v
      end
  | ZDefault inner value =>
      match v with
      | JUndefined => parseType inner path value
      | _ => parseType inner path v
      end
  end.

(** The issues of one field of a contract, read from the arguments. *)
Definition fieldIssues (args : JsObject) (field : string * ZodType) : list ZodIssue :=
  fst (parseType (snd field) [PKey (fst field)] (getProp args (fst field))).

Definition fieldValue (args : JsObject) (field : string * ZodType) : string * JsValue :=
  (fst field, snd (parseType (snd field) [PKey (fst field)] (getProp args (fst field)))).

(** [schema.parse(args)]: the issues when there are any (the [ZodError]
    thrown), the parsed object otherwise. *)
Definition parse (schema : ZodObject) (args : JsObject) : list ZodIssue + JsObject :=
  match List.concat (List.map (fieldIssues args) schema) with
  | [] => inr (List.map (fieldValue args) schema)
  | issues => inl issues
  end.

(** Reading a parsed object at its inferred type. *)
Definition asString (v : JsValue) : string :=
  match v with JStr s => s | _ => "" end.

Definition asOptString (v : JsValue) : option string :=
  match v with JStr s => Some s | _ => None end.

Definition asBool (v : JsValue) : bool :=
  match v with JBool b => b | _ => false end.

Definition asOptNumber (v : JsValue) : option number :=
  match v with JNum x => Some x | _ => None end.

Definition asStrings (v : JsValue) : list string :=
  match v with JArr l => List.map asString l | _ => [] end.

End WithRuntime.
End Zod.

(** ** src/tools/*.ts *)

Module Tools.
Import Js Types Effects Zod.
Local Open Scope io_scope.

Section Shared.
Context {rt : Runtime}.

(** How the auto-detection block that opens [handleListTasks] and
    [handleListSpecs] ends: with a [return] of the handler, or with the
    three variables it assigns. *)
Inductive Detection :=
| Return (text : string)
| Detected (projectId projectName : option string) (detectedFromRepo : bool).

Definition noProjectForRepo (repoFullName : string) : string :=
  "No project found linked to repository: " +:+ repoFullName +:+ Str.nl +:+ Str.nl +:+
  "Use 'list-projects' to see your available projects, or link this repository" +:+ Str.nl +:+
  "to a project at specmanager.ai.".

Definition noRepoDetected (workingDir : string) : string :=
  "Could not detect git repository from: " +:+ workingDir +:+ Str.nl +:+ Str.nl +:+
  "Make sure the directory contains a .git folder with a remote origin configured." +:+ Str.nl +:+
  "Alternatively, provide a projectId directly.".

Definition noProjectSpecified : string :=
  "No project specified. Please provide either:" +:+ Str.nl +:+
  "- projectId: The project UUID" +:+ Str.nl +:+
  "- workingDir: Path to a git repository linked to your project" +:+ Str.nl +:+ Str.nl +:+
  "Use 'list-projects' to see your available projects.".

(** [if (!projectId && input.workingDir) { ... }] *)
Definition detectFromWorkingDir (projectId workingDir : option string)
    : M Api.TaskApiClient Detection :=
  if negb (truthyStr projectId) && truthyStr workingDir then
    let! repoFullName := Git.getGitHubRepoFromWorkingDir (Api.interpolate workingDir) in
    if truthyStr repoFullName then
      let! project := Api.getProjectByRepo (Api.interpolate repoFullName) in
      match project with
      | Some p => ret (Detected (Some (project_id p)) (Some (project_name p)) true)
      | None => ret (Return (noProjectForRepo (Api.interpolate repoFullName)))
      end
    else ret (Return (noRepoDetected (Api.interpolate workingDir)))
  else ret (Detected projectId None false).

(** [task.taskNumber ? `[${task.taskNumber}] ` : ''] *)
Definition numberPrefix (taskNumber : option string) : string :=
  if truthyStr taskNumber then "[" +:+ Api.interpolate taskNumber +:+ "] " else "".

(** [projectName ? ` for project "${projectName}"` : ''] *)
Definition projectText (projectName : option string) : string :=
  if truthyStr projectName
  then " for project " +:+ Str.dquote +:+ Api.interpolate projectName +:+ Str.dquote
  else "".

Definition detectedHeader (detectedFromRepo : bool) (projectName : option string) : list string :=
  if detectedFromRepo && truthyStr projectName
  then ["**Project:** " +:+ Api.interpolate projectName +:+ " (auto-detected from git)"; ""]
  else [].

End Shared.

Module ListTasks.
Section WithRuntime.
Context {rt : Runtime}.

Definition listTasksSchema : ZodObject :=
  [ ("projectId", ZOptional (ZString [Uuid None]));
    ("workingDir", ZOptional (ZString []));
    ("status", ZDefault (ZOptional (ZEnum ["pending"; "in-progress"; "done"; "all"]))
                 (JStr "pending"));
    ("specId", ZOptional (ZString [Uuid None])) ].

Record ListTasksInput := {
  projectId : option string;
  workingDir : option string;
  status : string;
  specId : option string
}.

Definition asInput (o : JsObject) : ListTasksInput :=
  {| projectId := asOptString (getProp o "projectId");
     workingDir := asOptString (getProp o "workingDir");
     status := asString (getProp o "status");
     specId := asOptString (getProp o "specId") |}.

Definition taskLines (task : Task) : list string :=
  let number := numberPrefix (task_taskNumber task) in
  let specTitle :=
    match task_spec task with
    | Some sp =>
        if Str.nonEmpty (specRef_title sp) then " (" +:+ specRef_title sp +:+ ")" else ""
    | None => ""
    end in
  let files :=
    if (0 <? List.length (task_files task))%nat
    then Str.nl +:+ "   Files: " +:+ Str.join ", " (task_files task)
    else "" in
  [ "- " +:+ number +:+ task_title task +:+ specTitle;
    "   ID: " +:+ task_id task;
    "   Status: " +:+ taskStatusText (task_status task) +:+ files;
    "" ].

(** What the handler returns once the tasks are there. *)
Definition render (input : ListTasksInput) (projectName : option string)
    (detectedFromRepo : bool) (tasks : list Task) : string :=
  if (List.length tasks =? 0)%nat then
    let statusText :=
      if bool_decide (status input = "all") then "" else status input +:+ " " in
    "No " +:+ statusText +:+ "tasks found" +:+ projectText projectName +:+ "."
  else
    Str.join Str.nl
      (detectedHeader detectedFromRepo projectName ++
       ["Found " +:+ pretty (List.length tasks) +:+ " task(s):"; ""] ++
       List.concat (List.map taskLines tasks))%list.

Definition handleListTasks (input : ListTasksInput) : M Api.TaskApiClient string :=
  let! detection := detectFromWorkingDir (projectId input) (workingDir input) in
  match detection with
  | Return text => ret text
  | Detected projectId projectName detectedFromRepo =>
      let! projectId :=
        (if negb (truthyStr projectId) then Api.getProjectId else ret projectId) in
      if negb (truthyStr projectId) then ret noProjectSpecified
      else
        let! originalProjectId := Api.getProjectId in
        Api.setProjectId (Api.interpolate projectId) ;;;
        try_finally
          (let! tasks := Api.listTasks (Some {| filters_status := Some (status input);
                                                filters_specId := specId input |}) in
           Api.setProjectId (default "" originalProjectId) ;;;
           ret (render input projectName detectedFromRepo tasks))
          (if truthyStr originalProjectId
           then Api.setProjectId (Api.interpolate originalProjectId)
           else ret tt)
  end.

End WithRuntime.
End ListTasks.

Module ListSpecs.
Section WithRuntime.
Context {rt : Runtime}.

Definition listSpecsSchema : ZodObject :=
  [ ("projectId", ZOptional (ZString [Uuid None]));
    ("workingDir", ZOptional (ZString []));
    ("includeCompleted", ZDefault (ZOptional ZBoolean) (JBool false)) ].

Record ListSpecsInput := {
  projectId : option string;
  workingDir : option string;
  includeCompleted : bool
}.

Definition asInput (o : JsObject) : ListSpecsInput :=
  {| projectId := asOptString (getProp o "projectId");
     workingDir := asOptString (getProp o "workingDir");
     includeCompleted := asBool (getProp o "includeCompleted") |}.

(** [x > 0] and [x === 0] *)
Definition positive (x : number) : bool := negb (number_leb x (number_of_Z 0)).
Definition isZero (x : number) : bool := number_eqb x (number_of_Z 0).

Definition hasOpenTasks (s : Spec) : bool :=
  positive (counts_pending (spec_taskCounts s))
  || positive (counts_inProgress (spec_taskCounts s)).

Definition specLines (spec : Spec) : list string :=
  let taskCounts := spec_taskCounts spec in
  let isComplete := isZero (counts_pending taskCounts) && isZero (counts_inProgress taskCounts) in
  let statusIcon := if isComplete then "[DONE]" else "" in
  [ "- " +:+ spec_title spec +:+ " " +:+ statusIcon;
    "   ID: " +:+ spec_id spec;
    "   Stage: " +:+ specStageText (spec_stage spec);
    "   Tasks: " +:+ number_to_string (counts_pending taskCounts) +:+ " pending, "
      +:+ number_to_string (counts_inProgress taskCounts) +:+ " in-progress, "
      +:+ number_to_string (counts_done taskCounts) +:+ " done ("
      +:+ number_to_string (counts_total taskCounts) +:+ " total)";
    "" ].

Definition render (input : ListSpecsInput) (projectName : option string)
    (detectedFromRepo : bool) (specs : list Spec) : string :=
  let filteredSpecs :=
    if includeCompleted input then specs else List.filter hasOpenTasks specs in
  if (List.length filteredSpecs =? 0)%nat then
    if (0 <? List.length specs)%nat && negb (includeCompleted input) then
      "All specs" +:+ projectText projectName
        +:+ " are completed! Use includeCompleted=true to see them."
    else "No specs found" +:+ projectText projectName +:+ "."
  else
    Str.join Str.nl
      (detectedHeader detectedFromRepo projectName ++
       ["Found " +:+ pretty (List.length filteredSpecs) +:+ " spec(s):"; ""] ++
       List.concat (List.map specLines filteredSpecs))%list.

Definition handleListSpecs (input : ListSpecsInput) : M Api.TaskApiClient string :=
  let! detection := detectFromWorkingDir (projectId input) (workingDir input) in
  match detection with
  | Return text => ret text
  | Detected projectId projectName detectedFromRepo =>
      let! projectId :=
        (if negb (truthyStr projectId) then Api.getProjectId else ret projectId) in
      if negb (truthyStr projectId) then ret noProjectSpecified
      else
        let! originalProjectId := Api.getProjectId in
        Api.setProjectId (Api.interpolate projectId) ;;;
        try_finally
          (let! specs := Api.listSpecs in
           Api.setProjectId (default "" originalProjectId) ;;;
           ret (render input projectName detectedFromRepo specs))
          (if truthyStr originalProjectId
           then Api.setProjectId (Api.interpolate originalProjectId)
           else ret tt)
  end.

End WithRuntime.
End ListSpecs.

Module ListProjects.
Section WithRuntime.
Context {rt : Runtime}.

Definition listProjectsSchema : ZodObject :=
  [ ("workingDir", ZOptional (ZString [])) ].

Record ListProjectsInput := {
  workingDir : option string
}.

Definition asInput (o : JsObject) : ListProjectsInput :=
  {| workingDir := asOptString (getProp o "workingDir") |}.

Definition projectLines (detectedProject : option Project) (project : Project) : list string :=
  let isCurrent :=
    match detectedProject with
    | Some d => bool_decide (project_id project = project_id d)
    | None => false
    end in
  let marker := if isCurrent then " (current)" else "" in
  let repo :=
    if truthyStr (project_githubRepositoryFullName project)
    then Api.interpolate (project_githubRepositoryFullName project)
    else "No repo linked" in
  [ "- **" +:+ project_name project +:+ "**" +:+ marker;
    "  ID: " +:+ project_id project;
    "  Repository: " +:+ repo;
    "" ].

Definition render (detectedRepo : option string) (projects : list Project) : string :=
  let detectedProject :=
    if truthyStr detectedRepo
    then List.find (fun p => bool_decide (project_githubRepositoryFullName p = detectedRepo))
           projects
    else None in
  let header :=
    match detectedProject with
    | Some d =>
        [ "**Detected Project:** " +:+ project_name d;
          "  ID: " +:+ project_id d;
          "  Repository: " +:+ Api.interpolate detectedRepo;
          "";
          "This project matches your current workspace.";
          "" ]
    | None =>
        if truthyStr detectedRepo then
          [ "**Detected Repository:** " +:+ Api.interpolate detectedRepo;
            "No project is linked to this repository.";
            "" ]
        else []
    end in
  Str.join Str.nl
    (header ++
     ["**Your Projects (" +:+ pretty (List.length projects) +:+ "):**"; ""] ++
     List.concat (List.map (projectLines detectedProject) projects))%list.

Definition handleListProjects (input : ListProjectsInput) : M Api.TaskApiClient string :=
  let! detectedRepo :=
    (if truthyStr (workingDir input)
     then Git.getGitHubRepoFromWorkingDir (Api.interpolate (workingDir input))
     else ret None) in
  let! projects := Api.listProjects in
  if (List.length projects =? 0)%nat
  then ret "No projects found. Create a project at specmanager.ai first."
  else ret (render detectedRepo projects).

End WithRuntime.
End ListProjects.

Module GetTask.
Section WithRuntime.
Context {rt : Runtime}.

Definition getTaskSchema : ZodObject :=
  [ ("taskId", ZString [Uuid (Some "Task ID must be a valid UUID")]) ].

Record GetTaskInput := {
  taskId : string
}.

Definition asInput (o : JsObject) : GetTaskInput :=
  {| taskId := asString (getProp o "taskId") |}.

(** An excerpt of at most 2000 characters under its heading. *)
Definition excerpt (heading content : string) : string :=
  let truncated :=
    if (2000 <? String.length content)%nat then Str.nl +:+ "...(truncated)" else "" in
  Str.nl +:+ heading +:+ Str.nl +:+ Str.sliceTo 2000 content +:+ truncated.

Definition render (detail : TaskDetail) : string :=
  let task := detail_task detail in
  let spec := detail_spec detail in
  let number := numberPrefix (task_taskNumber task) in
  let files :=
    if (0 <? List.length (task_files task))%nat
    then [ Str.nl +:+ "## Files to Modify" +:+ Str.nl +:+
           Str.join Str.nl (List.map (fun f => "- " +:+ f) (task_files task)) ]
    else [] in
  let implementation :=
    if truthyStr (task_implementation task)
    then [ Str.nl +:+ "## Implementation Details" +:+ Str.nl +:+
           Api.interpolate (task_implementation task) ]
    else [] in
  let purpose :=
    if truthyStr (task_purposes task)
    then [ Str.nl +:+ "## Purpose" +:+ Str.nl +:+ Api.interpolate (task_purposes task) ]
    else [] in
  let context :=
    if truthyStr (specDetail_requirementsContent spec)
       || truthyStr (specDetail_designContent spec)
    then
      ([ Str.nl +:+ "## Spec Context" ] ++
       (if truthyStr (specDetail_requirementsContent spec)
        then [ excerpt "### Requirements Excerpt"
                 (Api.interpolate (specDetail_requirementsContent spec)) ]
        else []) ++
       (if truthyStr (specDetail_designContent spec)
        then [ excerpt "### Design Excerpt"
                 (Api.interpolate (specDetail_designContent spec)) ]
        else []))%list
    else [] in
  Str.join Str.nl
    ([ "# " +:+ number +:+ task_title task;
       "**Status:** " +:+ taskStatusText (task_status task);
       "**Task ID:** " +:+ task_id task;
       "**Spec:** " +:+ specDetail_title spec +:+ " (" +:+ specDetail_stage spec +:+ " stage)" ]
     ++ files ++ implementation ++ purpose ++ context)%list.

Definition handleGetTask (input : GetTaskInput) : M Api.TaskApiClient string :=
  let! task := Api.getTask (taskId input) in
  ret (render task).

End WithRuntime.
End GetTask.

Module StartTask.
Section WithRuntime.
Context {rt : Runtime}.

Definition startTaskSchema : ZodObject :=
  [ ("taskId", ZString [Uuid (Some "Task ID must be a valid UUID")]) ].

Record StartTaskInput := {
  taskId : string
}.

Definition asInput (o : JsObject) : StartTaskInput :=
  {| taskId := asString (getProp o "taskId") |}.

Definition render (task : Task) : string :=
  "Task started: " +:+ numberPrefix (task_taskNumber task) +:+ task_title task
    +:+ Str.nl +:+ Str.nl +:+
  "Task ID: " +:+ task_id task +:+ Str.nl +:+
  "Status: " +:+ taskStatusText (task_status task) +:+ Str.nl +:+ Str.nl +:+
  "You can now begin implementing this task." +:+ Str.nl +:+
  "Use 'report-progress' to send status updates." +:+ Str.nl +:+
  "Use 'complete-task' when finished.".

Definition handleStartTask (input : StartTaskInput) : M Api.TaskApiClient string :=
  let! task := Api.startTask (taskId input) in
  ret (render task).

End WithRuntime.
End StartTask.

Module CompleteTask.
Section WithRuntime.
Context {rt : Runtime}.

Definition completeTaskSchema : ZodObject :=
  [ ("taskId", ZString [Uuid (Some "Task ID must be a valid UUID")]);
    ("summary", ZString [MinLength 1 (Some "Summary is required")]);
    ("filesModified",
       ZArray (ZString []) (Some (1, Some "At least one file must be listed")));
    ("implementation", ZOptional (ZString [])) ].

Record CompleteTaskInput := {
  taskId : string;
  summary : string;
  filesModified : list string;
  implementation : option string
}.

Definition asInput (o : JsObject) : CompleteTaskInput :=
  {| taskId := asString (getProp o "taskId");
     summary := asString (getProp o "summary");
     filesModified := asStrings (getProp o "filesModified");
     implementation := asOptString (getProp o "implementation") |}.

Definition render (input : CompleteTaskInput) (task : Task) : string :=
  "Task completed: " +:+ numberPrefix (task_taskNumber task) +:+ task_title task
    +:+ Str.nl +:+ Str.nl +:+
  "Task ID: " +:+ task_id task +:+ Str.nl +:+
  "Status: " +:+ taskStatusText (task_status task) +:+ Str.nl +:+ Str.nl +:+
  "Summary: " +:+ summary input +:+ Str.nl +:+ Str.nl +:+
  "Files Modified:" +:+ Str.nl +:+
  Str.join Str.nl (List.map (fun f => "- " +:+ f) (filesModified input))
    +:+ Str.nl +:+ Str.nl +:+
  "The task has been marked as done and users have been notified.".

Definition handleCompleteTask (input : CompleteTaskInput) : M Api.TaskApiClient string :=
  let! task := Api.completeTask (taskId input)
                 {| completion_summary := summary input;
                    completion_filesModified := filesModified input;
                    completion_implementation := implementation input |} in
  ret (render input task).

End WithRuntime.
End CompleteTask.

Module ReportProgress.
Section WithRuntime.
Context {rt : Runtime}.

Definition reportProgressSchema : ZodObject :=
  [ ("taskId", ZString [Uuid (Some "Task ID must be a valid UUID")]);
    ("message", ZString [MinLength 1 (Some "Progress message is required")]);
    ("percent", ZOptional (ZNumber [Min 0; Max 100])) ].

Record ReportProgressInput := {
  taskId : string;
  message : string;
  percent : option number
}.

Definition asInput (o : JsObject) : ReportProgressInput :=
  {| taskId := asString (getProp o "taskId");
     message := asString (getProp o "message");
     percent := asOptNumber (getProp o "percent") |}.

Definition render (input : ReportProgressInput) : string :=
  let percentStr :=
    match percent input with
    | Some p => " (" +:+ number_to_string p +:+ "%)"
    | None => ""
    end in
  "Progress reported" +:+ percentStr +:+ ": " +:+ message input.

Definition handleReportProgress (input : ReportProgressInput) : M Api.TaskApiClient string :=
  Api.reportProgress (taskId input)
    {| progress_message := message input; progress_percent := percent input |} ;;;
  ret (render input).

End WithRuntime.
End ReportProgress.

(** [toolDefinitions], by name. *)
Definition toolNames : list string :=
  [ "list-projects"; "list-specs"; "list-tasks"; "get-task";
    "start-task"; "complete-task"; "report-progress" ].

End Tools.

(** ** src/server.ts: dispatcher, error rendering, HTTP routes *)

Module Server.
Import Js Types Effects Zod Tools.
Local Open Scope io_scope.
Section WithRuntime.
Context {rt : Runtime}.

(** *** The dispatcher *)

(** [schema.parse(args)] followed by the handler on the parsed input. *)
Definition parseThen {I : Type} (schema : ZodObject) (asInput : JsObject -> I)
    (handler : I -> M Api.TaskApiClient string) (args : JsObject)
    : M Api.TaskApiClient string :=
  match Zod.parse schema args with
  | inl issues => throw (ThrownZod issues)
  | inr input => handler (asInput input)
  end.

Definition handleToolCall (name : string) (args : JsObject) : M Api.TaskApiClient string :=
  if bool_decide (name = "list-projects") then
    parseThen ListProjects.listProjectsSchema ListProjects.asInput
      ListProjects.handleListProjects args
  else if bool_decide (name = "list-specs") then
    parseThen ListSpecs.listSpecsSchema ListSpecs.asInput ListSpecs.handleListSpecs args
  else if bool_decide (name = "list-tasks") then
    parseThen ListTasks.listTasksSchema ListTasks.asInput ListTasks.handleListTasks args
  else if bool_decide (name = "get-task") then
    parseThen GetTask.getTaskSchema GetTask.asInput GetTask.handleGetTask args
  else if bool_decide (name = "start-task") then
    parseThen StartTask.startTaskSchema StartTask.asInput StartTask.handleStartTask args
  else if bool_decide (name = "complete-task") then
    parseThen CompleteTask.completeTaskSchema CompleteTask.asInput
      CompleteTask.handleCompleteTask args
  else if bool_decide (name = "report-progress") then
    parseThen ReportProgress.reportProgressSchema ReportProgress.asInput
      ReportProgress.handleReportProgress args
  else throw (ThrownError ("Unknown tool: " +:+ name)).

Definition pathElemText (p : PathElem) : string :=
  match p with
  | PKey k => k
  | PIndex i => pretty i
  end.

(** [`- ${i.path.join('.')}: ${i.message}`] *)
Definition issueLine (i : ZodIssue) : string :=
  "- " +:+ Str.join "." (List.map pathElemText (issue_path i)) +:+ ": " +:+ issue_message i.

Definition formatError (error : Thrown) : string :=
  match error with
  | ThrownMCP e => "Error [" +:+ errorCodeText (code e) +:+ "]: " +:+ Types.message e
  | ThrownZod issues =>
      "Validation error:" +:+ Str.nl +:+ Str.join Str.nl (List.map issueLine issues)
  | ThrownError msg => "Error: " +:+ msg
  | ThrownValue => "An unknown error occurred"
  end.

(** The handler [createServerInstance] registers for [CallToolRequestSchema],
    bound to the client of its session. *)
Definition callToolHandler (name : string) (arguments : option JsObject)
    : M Api.TaskApiClient CallToolResult :=
  try_catch
    (let! result := handleToolCall name (default [] arguments) in
     ret {| text := result; isError := false |})
    (fun error => ret {| text := formatError error; isError := true |}).

(** *** The multiplexed transport *)

Record SessionData := {
  transport : Handle;
  apiClient : Handle;
  server : Handle
}.

(** The fields of [MCPServer] the HTTP routes use, and the client objects
    the sessions point to. *)
Record MCPServer := {
  sessions : gmap string SessionData;
  defaultApiUrl : string;
  clients : gmap Handle Api.TaskApiClient;
  nextHandle : Handle
}.

(** The Express response of the request being served. *)
Inductive Res :=
| NotSent
| SentJson (status : Z) (body : list (string * string))   (* res.status(n).json({...}) *)
| SentEmpty (status : Z)                                   (* res.status(n).send() *)
| SentByTransport.                                         (* written by the SDK *)

Definition resHeadersSent (r : Res) : bool :=
  match r with
  | NotSent => false
  | _ => true
  end.

Definition Route : Type := M (MCPServer * Res) unit.

Definition getServer : M (MCPServer * Res) MCPServer :=
  let! s := get in ret (fst s).

Definition modifyServer (f : MCPServer -> MCPServer) : M (MCPServer * Res) unit :=
  modify (fun s => (f (fst s), snd s)).

Definition setSessions (f : gmap string SessionData -> gmap string SessionData)
    : M (MCPServer * Res) unit :=
  modifyServer (fun this =>
    {| sessions := f (sessions this); defaultApiUrl := defaultApiUrl this;
       clients := clients this; nextHandle := nextHandle this |}).

Definition respondJson (status : Z) (body : list (string * string)) : Route :=
  modify (fun s => (fst s, SentJson status body)).

Definition respondEmpty (status : Z) : Route :=
  modify (fun s => (fst s, SentEmpty status)).

(** [new ...]: a fresh identity. *)
Definition newObject : M (MCPServer * Res) Handle :=
  let! this := getServer in
  modifyServer (fun this =>
    {| sessions := sessions this; defaultApiUrl := defaultApiUrl this;
       clients := clients this; nextHandle := Datatypes.S (nextHandle this) |}) ;;;
  ret (nextHandle this).

(** [new TaskApiClient(config)] *)
Definition newClient (config : Api.Config) : M (MCPServer * Res) Handle :=
  let! h := newObject in
  modifyServer (fun this =>
    {| sessions := sessions this; defaultApiUrl := defaultApiUrl this;
       clients := <[h := Api.newTaskApiClient config]> (clients this);
       nextHandle := nextHandle this |}) ;;;
  ret h.

(** A program of the client object [h], run on the server's state.  The
    client of a session is created with it and never freed, so the
    missing case is only there to make the definition total. *)
Definition withClient {A} (h : Handle) (m : M Api.TaskApiClient A) : M (MCPServer * Res) A :=
  fun s =>
    match clients (fst s) !! h with
    | Some c =>
        io_bind (m c) (fun r =>
          Ret (fst r,
               ({| sessions := sessions (fst s); defaultApiUrl := defaultApiUrl (fst s);
                   clients := <[h := snd r]> (clients (fst s));
                   nextHandle := nextHandle (fst s) |}, snd s)))
    | None => Ret (Rejected ThrownValue, s)
    end.

Definition extractApiKey (req : InboundRequest) : option string :=
  let authHeader := authorization (in_headers req) in
  if match authHeader with
     | Some h => Str.startsWith h "Bearer "
     | None => false
     end
  then Some (Str.sliceFrom 7 (Api.interpolate authHeader))
  else
    match x_api_key (in_headers req) with
    | HeaderOne apiKey => Some apiKey
    | _ => None
    end.

(** One callback of the session [sessionData], as the server wrote it. *)
Definition runCallback (sessionData : SessionData) (cb : SdkCallback) : M (MCPServer * Res) unit :=
  match cb with
  | OnSessionInitialized newSessionId =>
      setSessions (fun m => <[newSessionId := sessionData]> m)
  | OnClose =>
      let! sessionId := perform (TransportSessionId (transport sessionData)) in
      if truthyStr sessionId
      then setSessions (fun m => delete (Api.interpolate sessionId) m)
      else ret tt
  | OnListTools => perform (ReplyToolList toolNames)
  | OnCallTool name arguments =>
      let! result := withClient (apiClient sessionData) (callToolHandler name arguments) in
      perform (ReplyToolResult result)
  end.

Fixpoint runCallbacks (sessionData : SessionData) (cbs : list SdkCallback)
    : M (MCPServer * Res) unit :=
  match cbs with
  | [] => ret tt
  | cb :: rest => runCallback sessionData cb ;;; runCallbacks sessionData rest
  end.

(** A call into the SDK on an object of the session: the callbacks it
    invokes run, then the call resolves or rejects. *)
Definition sdkCall (sessionData : SessionData) (e : Eff SdkReply) : M (MCPServer * Res) unit :=
  let! reply := perform e in
  (if headersSent reply then modify (fun s => (fst s, SentByTransport)) else ret tt) ;;;
  runCallbacks sessionData (callbacks reply) ;;;
  match rejection reply with
  | Some r => throw (thrownOf r)
  | None => ret tt
  end.

Definition unauthorizedBody : list (string * string) :=
  [ ("error", "Unauthorized");
    ("message", "API key required. Provide via Authorization: Bearer <key> or X-API-Key header.") ].

(** [this.sessions.get(sessionId)] for a header that may be missing. *)
Definition lookupSession (this : MCPServer) (sessionId : option string) : option SessionData :=
  sessionId ≫= (fun id => sessions this !! id).

(** [app.post('/mcp', ...)] *)
Definition postMcp (req : InboundRequest) : Route :=
  try_catch
    (let apiKey := extractApiKey req in
     if negb (truthyStr apiKey) then respondJson 401 unauthorizedBody
     else
       let sessionId := mcp_session_id (in_headers req) in
       let! this := getServer in
       let! sessionData :=
         match (if truthyStr sessionId then lookupSession this sessionId else None) with
         | Some existing => ret existing
         | None =>
             let! apiClient := newClient {| Api.config_apiUrl := defaultApiUrl this;
                                            Api.config_apiKey := Api.interpolate apiKey;
                                            Api.config_projectId := None |} in
             let! server := newObject in
             let! transport := newObject in
             let sessionData := {| transport := transport; apiClient := apiClient;
                                   server := server |} in
             let! connected := perform (ServerConnect server transport) in
             match connected with
             | Some r => throw (thrownOf r)
             | None => ret sessionData
             end
         end in
       sdkCall sessionData (TransportHandleRequest (transport sessionData) req))
    (fun error =>
       perform (ConsoleError "[HTTP Transport Error]") ;;;
       let! s := get in
       if negb (resHeadersSent (snd s))
       then respondJson 500 [("error", "Internal server error")]
       else ret tt).

(** [app.get('/mcp', ...)] *)
Definition getMcp (req : InboundRequest) : Route :=
  let! this := getServer in
  match lookupSession this (mcp_session_id (in_headers req)) with
  | None => respondJson 400 [("error", "No active session")]
  | Some sessionData =>
      sdkCall sessionData (TransportHandleRequest (transport sessionData) req)
  end.

(** [app.delete('/mcp', ...)] *)
Definition deleteMcp (req : InboundRequest) : Route :=
  let sessionId := mcp_session_id (in_headers req) in
  let! this := getServer in
  match lookupSession this sessionId with
  | Some sessionData =>
      sdkCall sessionData (TransportClose (transport sessionData)) ;;;
      sdkCall sessionData (ServerClose (server sessionData)) ;;;
      setSessions (fun m => delete (Api.interpolate sessionId) m)
  | None => ret tt
  end ;;;
  respondEmpty 204.

End WithRuntime.
End Server.


(** ** Observing a run *)

Module Observe.
Import Js Types Effects.
Section WithRuntime.
Context {rt : Runtime}.

(** Running a stateful program: its outcome, the state it leaves, and the
    history extended with the calls it made. *)
Definition runM {S A} (env : Env) (log : list Event) (m : M S A) (s : S)
    : (Outcome A * S) * list Event :=
  interp env log (m s).

Definition outcomeOf {S A} (r : (Outcome A * S) * list Event) : Outcome A := fst (fst r).
Definition stateOf {S A} (r : (Outcome A * S) * list Event) : S := snd (fst r).
Definition logOf {S A} (r : (Outcome A * S) * list Event) : list Event := snd r.

(** The failure kind of an outcome: the code of the [MCPServerError] it
    rejects with, if it does. *)
Definition failureKind {A} (o : Outcome A) : option ErrorCode :=
  match o with
  | Rejected (ThrownMCP e) => Some (code e)
  | _ => None
  end.

(** The request [TaskApiClient.request] hands to [fetch]. *)
Definition sentRequest (this : Api.TaskApiClient) (method path : string)
    (body : option RequestBody) : HttpRequest :=
  {| req_url := Api.apiUrl this +:+ "/api/v1" +:+ path;
     req_method := method;
     req_headers := [("Content-Type", "application/json"); ("X-API-Key", Api.apiKey this)];
     req_body := body |}.

(** The body of an error response as [request] reads it: [{}] when it is no
    JSON. *)
Definition errorData {T} (response : Response T) : JsValue :=
  default (JObj []) (jsonAsRecord response).

(** A property of the body of an error response, where reading it does not
    throw. *)
Definition errorField {T} (response : Response T) (key : string) : JsValue :=
  match getMember (errorData response) key with
  | inl _ => JUndefined
  | inr v => v
  end.


(** The [code] field of the body of an error response. *)
Definition backendCode {T} (response : Response T) : JsValue :=
  errorField response "code".


(** The error [request] throws when [fetch] or [response.json()] rejects. *)
Definition networkError (r : Rejection) : MCPServerError :=
  {| message := "Network error: " +:+ Api.messageOrUnknown (thrownOf r);
     code := NETWORK_ERROR;
     httpStatus := None |}.

(** The error [request] throws for a response that is not ok. *)
Definition responseError {T} (response : Response T) : MCPServerError :=
  {| message := Js.toString
                  (Js.or (Js.or (errorField response "message") (errorField response "error"))
                         (JStr ("HTTP " +:+ pretty (status response))));
     code := Api.mapErrorCode (Js.or (backendCode response) (JStr "API_ERROR"))
               (status response);
     httpStatus := Some (status response) |}.

(** How a round trip ends, given what [fetch] answered. *)
Definition roundTrip {T} (answer : Rejection + Response T) : Outcome T :=
  match answer with
  | inl r => Rejected (ThrownMCP (networkError r))
  | inr response =>
      if ok response then
        match jsonAs response with
        | inl r => Rejected (ThrownMCP (networkError r))
        | inr data => Resolved data
        end
      else
        match getMember (errorData response) "message" with
        | inl typeError => Rejected (ThrownMCP (networkError (RejectError typeError)))
        | inr _ => Rejected (ThrownMCP (responseError response))
        end
  end.

(** The client with its scope overwritten. *)
Definition scoped (this : Api.TaskApiClient) (scope : option string) : Api.TaskApiClient :=
  {| Api.apiUrl := Api.apiUrl this; Api.apiKey := Api.apiKey this; Api.projectId := scope |}.

(** The path [listTasks] asks for. *)
Definition tasksPath (projectId status : string) (specId : option string) : string :=
  "/projects/" +:+ projectId +:+ "/tasks?" +:+
  searchParams_toString
    ([("status", if Str.nonEmpty status then status else "all")] ++
     match specId with
     | Some specId => if Str.nonEmpty specId then [("specId", specId)] else []
     | None => []
     end)%list.

(** The path [listSpecs] asks for. *)
Definition specsPath (projectId : string) : string :=
  "/projects/" +:+ projectId +:+ "/specs".

(** The input contract the dispatcher parses the arguments of a tool with. *)
Definition contractOf (name : string) : option Zod.ZodObject :=
  if bool_decide (name = "list-projects") then Some Tools.ListProjects.listProjectsSchema
  else if bool_decide (name = "list-specs") then Some Tools.ListSpecs.listSpecsSchema
  else if bool_decide (name = "list-tasks") then Some Tools.ListTasks.listTasksSchema
  else if bool_decide (name = "get-task") then Some Tools.GetTask.getTaskSchema
  else if bool_decide (name = "start-task") then Some Tools.StartTask.startTaskSchema
  else if bool_decide (name = "complete-task") then Some Tools.CompleteTask.completeTaskSchema
  else if bool_decide (name = "report-progress")
       then Some Tools.ReportProgress.reportProgressSchema
  else None.

(** An error text tagged with a failure kind, as [formatError] renders an
    [MCPServerError]. *)
Definition taggedWith (kind text : string) : Prop :=
  exists msg, text = "Error [" +:+ kind +:+ "]: " +:+ msg.

(** A text that contains the given line. *)
Definition hasLine (text line : string) : Prop :=
  exists before after, text = before +:+ line +:+ after.

End WithRuntime.
End Observe.

(** ** Scenarios

    A runtime and worlds to run the programs in: numbers are integers, the
    encoders leave the characters of the examples alone, and a world is
    given by what the backend and the SDK answer. *)

Module Scenario.
Import Js Types Effects.

Definition isHex (c : ascii) : bool :=
  let n := nat_of_ascii c in
  ((48 <=? n) && (n <=? 57) || (65 <=? n) && (n <=? 70) || (97 <=? n) && (n <=? 102))%nat.

(** Five groups of 8, 4, 4, 4 and 12 hexadecimal digits. *)
Definition looksLikeUuid (s : string) : bool :=
  match Str.split "-"%char s with
  | [a; b; c; d; e] =>
      (String.length a =? 8)%nat && (String.length b =? 4)%nat
      && (String.length c =? 4)%nat && (String.length d =? 4)%nat
      && (String.length e =? 12)%nat
      && Str.allChars isHex a && Str.allChars isHex b && Str.allChars isHex c
      && Str.allChars isHex d && Str.allChars isHex e
  | _ => false
  end.

Definition defaultMessage (kind : ZodIssueKind) : string :=
  match kind with
  | invalid_type _ "undefined" => "Required"
  | invalid_type expected received => "Expected " +:+ expected +:+ ", received " +:+ received
  | invalid_string_uuid => "Invalid uuid"
  | invalid_enum_value options received =>
      "Invalid enum value. Expected " +:+ Str.join " | " (List.map (fun o => "'" +:+ o +:+ "'") options)
        +:+ ", received '" +:+ received +:+ "'"
  | too_small_string n => "String must contain at least " +:+ pretty n +:+ " character(s)"
  | too_small_array n => "Array must contain at least " +:+ pretty n +:+ " element(s)"
  | too_small_number b => "Number must be greater than or equal to " +:+ pretty b
  | too_big_number b => "Number must be less than or equal to " +:+ pretty b
  end.

Definition runtime : Runtime :=
  {| number := Z;
     number_of_Z := fun z => z;
     number_leb := Z.leb;
     number_eqb := Z.eqb;
     number_to_string := pretty;
     encodeURIComponent := fun s => s;
     searchParams_toString :=
       fun ps => Str.join "&" (List.map (fun kv => fst kv +:+ "=" +:+ snd kv) ps);
     path_join := Str.join "/";
     isUuid := looksLikeUuid;
     zodDefaultMessage := defaultMessage;
     zodErrorMessage := fun issues => Str.join "; " (List.map issue_message issues) |}.

#[local] Existing Instance runtime.

(** A response with no readable payload: enough for an error response. *)
Definition errorResponse (T : ResponseType) (status : Z) (body : option JsObject)
    : Rejection + Response (payload T) :=
  inr {| status := status; jsonAsRecord := JObj <$> body;
         jsonAs := inl (RejectError "Unexpected end of JSON input") |}.


(** A 200 response: empty lists for the list endpoints, no payload elsewhere. *)
Definition emptyResponse (T : ResponseType) : Rejection + Response (payload T) :=
  inr {| status := 200; jsonAsRecord := None;
         jsonAs :=
           match T return Rejection + payload T with
           | ListTasksResponse => inr []
           | ListProjectsResponse => inr []
           | ListSpecsResponse => inr []
           | _ => inl (RejectError "Unexpected end of JSON input")
           end |}.

Definition quiet : SdkReply :=
  {| callbacks := []; headersSent := true; rejection := None |}.

(** The world in which the backend answers [backend] to every request, the
    SDK answers [onRequest] to every inbound message, and closing a
    transport fires its [onclose]. *)
Definition world (backend : forall T, Rejection + Response (payload T))
    (onRequest : SdkReply) : Env :=
  fun _ X e =>
    match e in Eff X return X with
    | Fetch T _ => backend T
    | ReadFile _ => inl (RejectError "ENOENT")
    | ConsoleError _ => tt
    | ServerConnect _ _ => None
    | TransportHandleRequest _ _ => onRequest
    | TransportSessionId _ => None
    | TransportClose _ => {| callbacks := [OnClose]; headersSent := false; rejection := None |}
    | ServerClose _ => {| callbacks := []; headersSent := false; rejection := None |}
    | ReplyToolList _ => tt
    | ReplyToolResult _ => tt
    end.

Definition client (scope : option string) : Api.TaskApiClient :=
  {| Api.apiUrl := "https://api.specmanager.ai"; Api.apiKey := "key-1"; Api.projectId := scope |}.

(** A server with no session yet. *)
Definition emptyServer : Server.MCPServer :=
  {| Server.sessions := ∅; Server.defaultApiUrl := "https://api.specmanager.ai";
     Server.clients := ∅; Server.nextHandle := 0 |}.

(** An inbound message with the given headers. *)
Definition inbound (authorization : option string) (key : HeaderValue)
    (sessionId : option string) : InboundRequest :=
  {| in_headers := {| authorization := authorization; x_api_key := key;
                      mcp_session_id := sessionId |};
     in_body := JNull |}.

(** The SDK initializes the session under the identifier [session-1]. *)
Definition initializing : SdkReply :=
  {| callbacks := [OnSessionInitialized "session-1"]; headersSent := true; rejection := None |}.

Definition projectA : string := "11111111-1111-1111-1111-111111111111".
Definition projectB : string := "22222222-2222-2222-2222-222222222222".

End Scenario.

(** ** src/config.ts *)

Module Configuration.
Import Js Types.

(** [process.env], by the name of the variable. *)
Definition Environment : Type := string -> option string.

(** [s.replace(/\/$/, '')]: the pattern can match the last character only. *)
Fixpoint stripTrailingSlash (s : string) : string :=
  match s with
  | EmptyString => EmptyString
  | String c EmptyString => if bool_decide (c = "/"%char) then EmptyString else s
  | String c s' => String c (stripTrailingSlash s')
  end.

(** [new MCPServerError(message, ErrorCode.NOT_CONFIGURED)] *)
Definition notConfigured (message : string) : Thrown :=
  ThrownMCP {| message := message; code := NOT_CONFIGURED; httpStatus := None |}.

Definition loadConfig (env : Environment) : Thrown + Api.Config :=
  let apiUrl :=
    if truthyStr (env "SPECMANAGER_API_URL")
    then Api.interpolate (env "SPECMANAGER_API_URL")
    else "https://api.specmanager.ai/" in
  let apiKey := env "SPECMANAGER_API_KEY" in
  let projectId := env "SPECMANAGER_PROJECT_ID" in
  if negb (Str.nonEmpty apiUrl) then
    inl (notConfigured "SPECMANAGER_API_URL environment variable is required")
  else if negb (truthyStr apiKey) then
    inl (notConfigured "SPECMANAGER_API_KEY environment variable is required")
  else
    inr {| Api.config_apiUrl := stripTrailingSlash apiUrl;
           Api.config_apiKey := Api.interpolate apiKey;
           Api.config_projectId := projectId |}.

(** A [Partial<Config>]. *)
Record PartialConfig := {
  partial_apiUrl : option string;
  partial_apiKey : option string;
  partial_projectId : option string
}.

(** A [Config] where a [Partial<Config>] is expected. *)
Definition asPartial (config : Api.Config) : PartialConfig :=
  {| partial_apiUrl := Some (Api.config_apiUrl config);
     partial_apiKey := Some (Api.config_apiKey config);
     partial_projectId := Api.config_projectId config |}.

Definition validateConfig (config : PartialConfig) : bool :=
  truthyStr (partial_apiUrl config) && truthyStr (partial_apiKey config).

End Configuration.

(** ** What the properties are stated with *)

Module Props.
Import Js Types Effects Observe.

(** How often a character occurs. *)
Fixpoint count (c : ascii) (s : string) : nat :=
  match s with
  | EmptyString => 0
  | String d s' => (if bool_decide (d = c) then 1 else 0) + count c s'
  end.

(** [s.endsWith(p)] *)
Definition endsWith (s p : string) : Prop := exists stem, s = stem +:+ p.

(** The last character of a string, if it has one. *)
Fixpoint lastChar (s : string) : option ascii :=
  match s with
  | EmptyString => None
  | String c EmptyString => Some c
  | String _ s' => lastChar s'
  end.

Section WithRuntime.
Context {rt : Runtime}.

(** Two states of a client that carry the same credential. *)
Definition sameCredential (a b : Api.TaskApiClient) : Prop :=
  Api.apiUrl a = Api.apiUrl b /\ Api.apiKey a = Api.apiKey b.

(** The requests made to the backend in a history. *)
Definition fetches (log : list Event) : list HttpRequest :=
  List.flat_map
    (fun ev => match ev with
               | Ev e _ => match e with
                           | Fetch _ req => [req]
                           | _ => []
                           end
               end) log.

(** A program that keeps the relation [R] between the state it starts
    from and the state it leaves, in every world and on both outcomes. *)
Definition preserves {S A} (R : S -> S -> Prop) (m : M S A) : Prop :=
  forall (env : Env) log s, R s (stateOf (runM env log m s)).

(** A program whose calls all satisfy [P], in every world: the history it
    leaves is the one it started from and then calls that satisfy [P]. *)
Definition emits {S A} (P : Event -> Prop) (m : M S A) : Prop :=
  forall (env : Env) log s,
    exists added, logOf (runM env log m s) = (log ++ added)%list /\ Forall P added.

(** The calls by which the routes enter the SDK for a message: connecting
    a new server instance and handing the message to a transport. *)
Definition entersSdk (ev : Event) : bool :=
  match ev with
  | Ev e _ =>
      match e with
      | ServerConnect _ _ | TransportHandleRequest _ _ => true
      | _ => false
      end
  end.

(** Between two states of the server no object was made: the next fresh
    handle is the same and the same handles name a client. *)
Definition nothingMade (before after : Server.MCPServer * Server.Res) : Prop :=
  Server.nextHandle (fst before) = Server.nextHandle (fst after) /\
  forall h, is_Some (Server.clients (fst after) !! h)
            <-> is_Some (Server.clients (fst before) !! h).

(** A callback other than the handler of a tool call. *)
Definition noToolCall (cb : SdkCallback) : bool :=
  match cb with
  | OnCallTool _ _ => false
  | _ => true
  end.

(** A world in which closing a transport or a server instance does not
    fail and runs no tool. *)
Definition closesCleanly (env : Env) : Prop :=
  forall log h,
    rejection (env log _ (TransportClose h)) = None /\
    forallb noToolCall (callbacks (env log _ (TransportClose h))) = true /\
    rejection (env log _ (ServerClose h)) = None /\
    forallb noToolCall (callbacks (env log _ (ServerClose h))) = true.

End WithRuntime.
End Props.

(** ** Scenarios with a working directory *)

Module Cases.
Import Js Types Effects.

#[local] Existing Instance Scenario.runtime.

(** A git config whose origin is the repository [acme/widgets]. *)
Definition originConfig : string :=
  "[core]" +:+ Str.nl +:+
  "  bare = false" +:+ Str.nl +:+
  "[remote " +:+ Str.dquote +:+ "origin" +:+ Str.dquote +:+ "]" +:+ Str.nl +:+
  "  url = git@github.com:acme/widgets.git" +:+ Str.nl +:+
  "  fetch = +refs/heads/*:refs/remotes/origin/*" +:+ Str.nl.

Definition widgets : Project :=
  {| project_id := Scenario.projectA;
     project_name := "Widgets";
     project_githubRepositoryFullName := Some "acme/widgets";
     project_githubRepositoryUrl := Some "https://github.com/acme/widgets";
     project_githubRepositoryDefaultBranch := Some "main";
     project_createdAt := "2025-01-01T00:00:00Z";
     project_updatedAt := "2025-01-01T00:00:00Z" |}.

(** A backend that finds the project of every repository and has no task
    and no spec. *)
Definition linkedBackend (T : ResponseType) : Rejection + Response (payload T) :=
  match T return Rejection + Response (payload T) with
  | GetProjectByRepoResponse =>
      inr {| status := 200; jsonAsRecord := None; jsonAs := inr widgets |}
  | T => Scenario.emptyResponse T
  end.

(** The world of [Scenario.world] in which every file reads as [content]
    and the SDK does what [onClose] says when a transport is closed. *)
Definition worldWith (content : string) (backend : forall T, Rejection + Response (payload T))
    (onRequest onClose : SdkReply) : Env :=
  fun _ X e =>
    match e in Eff X return X with
    | Fetch T _ => backend T
    | ReadFile _ => inr content
    | ConsoleError _ => tt
    | ServerConnect _ _ => None
    | TransportHandleRequest _ _ => onRequest
    | TransportSessionId _ => None
    | TransportClose _ => onClose
    | ServerClose _ => {| callbacks := []; headersSent := false; rejection := None |}
    | ReplyToolList _ => tt
    | ReplyToolResult _ => tt
    end.

(** An SDK whose [connect] and [close] reject, and that runs no callback. *)
Definition brokenSdk : Env :=
  fun _ X e =>
    match e in Eff X return X with
    | Fetch T _ => Scenario.emptyResponse T
    | ReadFile _ => inl (RejectError "ENOENT")
    | ConsoleError _ => tt
    | ServerConnect _ _ => Some (RejectError "connect failed")
    | TransportHandleRequest _ _ => Scenario.quiet
    | TransportSessionId _ => None
    | TransportClose _ =>
        {| callbacks := []; headersSent := false;
           rejection := Some (RejectError "close failed") |}
    | ServerClose _ => {| callbacks := []; headersSent := false; rejection := None |}
    | ReplyToolList _ => tt
    | ReplyToolResult _ => tt
    end.

(** The one session of [oneSession], and a server on which it is
    registered under [session-1]. *)
Definition session1 : Server.SessionData :=
  {| Server.transport := 2; Server.apiClient := 0; Server.server := 1 |}.

Definition oneSession : Server.MCPServer :=
  {| Server.sessions := {[ "session-1" := session1 ]};
     Server.defaultApiUrl := "https://api.specmanager.ai";
     Server.clients := {[ 0 := Scenario.client None ]};
     Server.nextHandle := 3 |}.

(** The SDK runs the handler of the tool [list-projects] on the message. *)
Definition callingTool : SdkReply :=
  {| callbacks := [OnCallTool "list-projects" None]; headersSent := true;
     rejection := None |}.

Definition listTasksInput (projectId workingDir : option string) : Tools.ListTasks.ListTasksInput :=
  {| Tools.ListTasks.projectId := projectId; Tools.ListTasks.workingDir := workingDir;
     Tools.ListTasks.status := "pending"; Tools.ListTasks.specId := None |}.

Definition listSpecsInput (projectId workingDir : option string) : Tools.ListSpecs.ListSpecsInput :=
  {| Tools.ListSpecs.projectId := projectId; Tools.ListSpecs.workingDir := workingDir;
     Tools.ListSpecs.includeCompleted := false |}.

End Cases.

(** * Theorems *)

(** ** Strings *)

Lemma append_nil_l (s : string) : "" +:+ s = s.
Proof. reflexivity. Qed.

Lemma append_cons (c : ascii) (s t : string) : String c s +:+ t = String c (s +:+ t).
Proof. reflexivity. Qed.

Lemma append_assoc (a b c : string) : (a +:+ b) +:+ c = a +:+ (b +:+ c).
Proof. induction a as [|x a IH]; [done|]. rewrite !append_cons. by rewrite IH. Qed.

Lemma append_nil_r (a : string) : a +:+ "" = a.
Proof. induction a as [|x a IH]; [done|]. rewrite append_cons. by rewrite IH. Qed.

Lemma length_append (a b : string) :
  String.length (a +:+ b) = String.length a + String.length b.
Proof. induction a as [|x a IH]; [done|]. rewrite append_cons. simpl. by rewrite IH. Qed.

Lemma substring_append_l (a b : string) :
  String.substring 0 (String.length a) (a +:+ b) = a.
Proof.
  induction a as [|x a IH].
  - rewrite append_nil_l. by destruct b.
  - rewrite append_cons. simpl. by rewrite IH.
Qed.

(** ** The matcher against the declarative reading of a pattern *)

Module RegexFacts.
Import Regex.

Section Search.
Context {R : Type}.
Implicit Types k : @Cont R.

Lemma starGreedy_None a s cap k :
  starGreedy a s cap k = None <-> (forall s', reps a s s' -> k s' cap = None).
Proof.
  induction s as [|c s IH]; simpl.
  - split.
    + intros H s' Hr. inversion Hr; subst. exact H.
    + intros H. apply H. constructor.
  - destruct (accepts a c) eqn:Ha.
    + destruct (starGreedy a s cap k) eqn:Hs.
      * split; [discriminate|].
        intros H. assert (Some r = None) as Hc; [|discriminate].
        apply IH. intros s' Hr. apply H. by constructor.
      * split.
        -- intros Hk s' Hr. inversion Hr; subst; [exact Hk|].
           destruct IH as [IH _]. by apply IH.
        -- intros H. apply H. constructor.
    + split.
      * intros Hk s' Hr. inversion Hr; subst; [exact Hk|congruence].
      * intros H. apply H. constructor.
Qed.

Lemma starLazy_None a s cap k :
  starLazy a s cap k = None <-> (forall s', reps a s s' -> k s' cap = None).
Proof.
  induction s as [|c s IH]; simpl.
  - destruct (k "" cap) eqn:Hk.
    + split; [discriminate|]. intros H. rewrite <- Hk. apply H. constructor.
    + split; [|done]. intros _ s' Hr. by inversion Hr; subst.
  - destruct (k (String c s) cap) eqn:Hk.
    + split; [discriminate|]. intros H. rewrite <- Hk. apply H. constructor.
    + destruct (accepts a c) eqn:Ha.
      * rewrite IH. split.
        -- intros H s' Hr. inversion Hr; subst; [done|]. by apply H.
        -- intros H s' Hr. apply H. by constructor.
      * split; [|done]. intros _ s' Hr. inversion Hr; subst; [done|congruence].
Qed.

(** The search fails exactly when no reading of the pattern lets the rest
    of the match succeed. *)
Lemma run_None r : forall s cap k,
  run r s cap k = None <-> (forall s' cap', derives r s cap s' cap' -> k s' cap' = None).
Proof.
  induction r as [|a|r1 IH1 r2 IH2|r IH|a|a|r IH|]; intros s cap k; simpl.
  - split.
    + intros H s' cap' Hd. by inversion Hd; subst.
    + intros H. apply H. constructor.
  - destruct s as [|c s].
    + split; [|done]. intros _ s' cap' Hd. inversion Hd.
    + destruct (accepts a c) eqn:Ha.
      * split.
        -- intros H s' cap' Hd. by inversion Hd; subst.
        -- intros H. apply H. by constructor.
      * split; [|done]. intros _ s' cap' Hd. inversion Hd; subst. congruence.
  - rewrite IH1. split.
    + intros H s' cap' Hd. inversion Hd; subst. eapply IH2; eauto.
    + intros H s1 cap1 Hd1. apply IH2. intros s2 cap2 Hd2. apply H.
      econstructor; eauto.
  - destruct (run r s cap k) eqn:Hr.
    + split; [discriminate|]. intros H.
      assert (Some r0 = None) as Hc; [|discriminate].
      rewrite <- Hr. apply IH. intros s' cap' Hd. apply H. by constructor.
    + split.
      * intros Hk s' cap' Hd. inversion Hd; subst; [|done]. eapply IH; eauto.
      * intros H. apply H. apply d_opt_none.
  - destruct s as [|c s].
    + split; [|done]. intros _ s' cap' Hd. inversion Hd.
    + destruct (accepts a c) eqn:Ha.
      * rewrite starGreedy_None. split.
        -- intros H s' cap' Hd. inversion Hd; subst. by apply H.
        -- intros H s' Hr. apply H. by constructor.
      * split; [|done]. intros _ s' cap' Hd. inversion Hd; subst. congruence.
  - destruct s as [|c s].
    + split; [|done]. intros _ s' cap' Hd. inversion Hd.
    + destruct (accepts a c) eqn:Ha.
      * rewrite starLazy_None. split.
        -- intros H s' cap' Hd. inversion Hd; subst. by apply H.
        -- intros H s' Hr. apply H. by constructor.
      * split; [|done]. intros _ s' cap' Hd. inversion Hd; subst. congruence.
  - rewrite IH. split.
    + intros H s' cap' Hd. inversion Hd; subst. exact (H _ _ ltac:(eassumption)).
    + intros H s1 cap1 Hd. apply H. by econstructor.
  - destruct s as [|c s].
    + split.
      * intros H s' cap' Hd. by inversion Hd; subst.
      * intros H. apply H. constructor.
    + split; [|done]. intros _ s' cap' Hd. inversion Hd.
Qed.

Lemma starGreedy_Some a s cap k x :
  starGreedy a s cap k = Some x -> exists s', reps a s s' /\ k s' cap = Some x.
Proof.
  induction s as [|c s IH]; simpl.
  - intros H. exists "". split; [constructor|done].
  - destruct (accepts a c) eqn:Ha.
    + destruct (starGreedy a s cap k) eqn:Hs.
      * intros [= ->]. destruct (IH eq_refl) as (s' & Hr & Hk).
        exists s'. split; [by constructor|done].
      * intros H. exists (String c s). split; [constructor|done].
    + intros H. exists (String c s). split; [constructor|done].
Qed.

Lemma starLazy_Some a s cap k x :
  starLazy a s cap k = Some x -> exists s', reps a s s' /\ k s' cap = Some x.
Proof.
  induction s as [|c s IH]; simpl.
  - destruct (k "" cap) eqn:Hk; [|done].
    intros [= ->]. exists "". split; [constructor|done].
  - destruct (k (String c s) cap) eqn:Hk.
    + intros [= ->]. exists (String c s). split; [constructor|done].
    + destruct (accepts a c) eqn:Ha; [|done].
      intros H. destruct (IH H) as (s' & Hr & Hk').
      exists s'. split; [by constructor|done].
Qed.

(** What the search finds is a reading of the pattern. *)
Lemma run_Some r : forall s cap k x,
  run r s cap k = Some x ->
  exists s' cap', derives r s cap s' cap' /\ k s' cap' = Some x.
Proof.
  induction r as [|a|r1 IH1 r2 IH2|r IH|a|a|r IH|]; intros s cap k x; simpl.
  - intros H. exists s, cap. split; [constructor|done].
  - destruct s as [|c s]; [done|].
    destruct (accepts a c) eqn:Ha; [|done].
    intros H. exists s, cap. split; [by constructor|done].
  - intros H. apply IH1 in H as (s1 & cap1 & Hd1 & H).
    apply IH2 in H as (s2 & cap2 & Hd2 & H).
    exists s2, cap2. split; [econstructor; eauto|done].
  - destruct (run r s cap k) eqn:Hr.
    + intros [= ->]. apply IH in Hr as (s' & cap' & Hd & Hk).
      exists s', cap'. split; [by apply d_opt_some|done].
    + intros H. exists s, cap. split; [apply d_opt_none|done].
  - destruct s as [|c s]; [done|].
    destruct (accepts a c) eqn:Ha; [|done].
    intros H. apply starGreedy_Some in H as (s' & Hr & Hk).
    exists s', cap. split; [by constructor|done].
  - destruct s as [|c s]; [done|].
    destruct (accepts a c) eqn:Ha; [|done].
    intros H. apply starLazy_Some in H as (s' & Hr & Hk).
    exists s', cap. split; [by constructor|done].
  - intros H. apply IH in H as (s1 & cap1 & Hd & Hk).
    exists s1, (Some (consumed s s1)). split; [by econstructor|done].
  - destruct s as [|c s]; [|done].
    intros H. exists "", cap. split; [constructor|done].
Qed.

End Search.

Lemma exec_None r s :
  exec r s = None <->
  (forall pre t s' cap', s = pre +:+ t -> ~ derives r t None s' cap').
Proof.
  induction s as [|c s IH]; simpl.
  - destruct (run r "" None (fun _ cap => Some cap)) eqn:Hr.
    + split; [discriminate|]. intros H.
      assert (Some o = None) as Hc; [|discriminate].
      rewrite <- Hr. apply run_None. intros s' cap' Hd. exfalso.
      eapply (H "" ""); eauto.
    + split; [|done]. intros _ pre t s' cap' Heq Hd.
      destruct pre; [|discriminate]. rewrite append_nil_l in Heq. subst t.
      eapply run_None in Hr; eauto. discriminate.
  - destruct (run r (String c s) None (fun _ cap => Some cap)) eqn:Hr.
    + split; [discriminate|]. intros H.
      assert (Some o = None) as Hc; [|discriminate].
      rewrite <- Hr. apply run_None. intros s' cap' Hd. exfalso.
      eapply (H ""); eauto.
    + rewrite IH. split.
      * intros H pre t s' cap' Heq Hd.
        destruct pre as [|c' pre];
          [rewrite append_nil_l in Heq|rewrite append_cons in Heq].
        -- subst t. eapply run_None in Hr; eauto. discriminate.
        -- injection Heq as -> ->. eapply H; eauto.
      * intros H pre t s' cap' Heq Hd. subst s.
        eapply (H (String c pre)); eauto.
Qed.

Lemma exec_Some r s m :
  exec r s = Some m ->
  exists pre t s', s = pre +:+ t /\ derives r t None s' m.
Proof.
  induction s as [|c s IH]; simpl.
  - destruct (run r "" None (fun _ cap => Some cap)) eqn:Hr; [|done].
    intros [= ->]. apply run_Some in Hr as (s' & cap' & Hd & [= ->]).
    by exists "", "", s'.
  - destruct (run r (String c s) None (fun _ cap => Some cap)) eqn:Hr.
    + intros [= ->]. apply run_Some in Hr as (s' & cap' & Hd & [= ->]).
      by exists "", (String c s), s'.
    + intros H. apply IH in H as (pre & t & s' & -> & Hd).
      by exists (String c pre), t, s'.
Qed.

(** *** Reading each construct *)

Lemma derives_eps s cap s' cap' :
  derives Eps s cap s' cap' <-> s' = s /\ cap' = cap.
Proof.
  split; [intros H; by inversion H|intros [-> ->]; constructor].
Qed.

Lemma derives_one a s cap s' cap' :
  derives (One a) s cap s' cap' <->
  exists c, s = String c s' /\ accepts a c = true /\ cap' = cap.
Proof.
  split.
  - intros H. inversion H; subst. eauto.
  - intros (c & -> & Hc & ->). by constructor.
Qed.

Lemma derives_chr d s cap s' cap' :
  derives (One (Chr d)) s cap s' cap' <-> s = String d s' /\ cap' = cap.
Proof.
  rewrite derives_one. simpl. split.
  - intros (c & -> & Hc & ->). by apply bool_decide_eq_true in Hc as ->.
  - intros [-> ->]. exists d. by rewrite bool_decide_eq_true.
Qed.

Lemma derives_seq r1 r2 s cap s' cap' :
  derives (Seq r1 r2) s cap s' cap' <->
  exists s1 cap1, derives r1 s cap s1 cap1 /\ derives r2 s1 cap1 s' cap'.
Proof.
  split.
  - intros H. inversion H; subst. eauto.
  - intros (s1 & cap1 & H1 & H2). econstructor; eauto.
Qed.

Lemma derives_opt r s cap s' cap' :
  derives (Opt r) s cap s' cap' <-> derives r s cap s' cap' \/ (s' = s /\ cap' = cap).
Proof.
  split.
  - intros H. inversion H; subst; auto.
  - intros [H | [-> ->]]; [by apply d_opt_some|apply d_opt_none].
Qed.

Lemma derives_group r s cap s' cap' :
  derives (Group r) s cap s' cap' <->
  (exists cap1, derives r s cap s' cap1) /\ cap' = Some (consumed s s').
Proof.
  split.
  - intros H. inversion H; subst. eauto.
  - intros [[cap1 H] ->]. by econstructor.
Qed.

Lemma derives_end s cap s' cap' :
  derives EndOfInput s cap s' cap' <-> s = "" /\ s' = "" /\ cap' = cap.
Proof.
  split; [intros H; by inversion H|intros (-> & -> & ->); constructor].
Qed.

Lemma derives_lit w : forall s cap s' cap',
  derives (lit w) s cap s' cap' <-> s = w +:+ s' /\ cap' = cap.
Proof.
  induction w as [|c w IH]; intros s cap s' cap'; simpl.
  - rewrite derives_eps, append_nil_l. split; intros [-> ->]; done.
  - rewrite derives_seq, append_cons. split.
    + intros (s1 & cap1 & H1 & H2).
      apply derives_chr in H1 as [-> ->]. apply IH in H2 as [-> ->]. done.
    + intros [-> ->]. exists (w +:+ s'), cap. split.
      * by apply derives_chr.
      * by apply IH.
Qed.

Lemma reps_spec a s s' :
  reps a s s' <-> exists w, s = w +:+ s' /\ Str.allChars (accepts a) w = true.
Proof.
  split.
  - induction 1 as [s|c s s' Hc _ (w & -> & Hw)].
    + by exists "".
    + exists (String c w). split; [done|]. simpl. by rewrite Hc, Hw.
  - intros (w & -> & Hw). induction w as [|c w IH]; simpl in *.
    + constructor.
    + apply andb_true_iff in Hw as [Hc Hw]. rewrite append_cons. constructor; auto.
Qed.

Lemma derives_plus a s cap s' cap' :
  derives (Plus a) s cap s' cap' <->
  exists w, s = w +:+ s' /\ w <> "" /\ Str.allChars (accepts a) w = true /\ cap' = cap.
Proof.
  split.
  - intros H. inversion H as [| | | | |a0 c s0 s0' cap0 Hc Hr| | |]; subst.
    apply reps_spec in Hr as (w & -> & Hw).
    exists (String c w). simpl. repeat split; try done.
    by apply andb_true_iff.
  - intros (w & -> & Hne & Hw & ->). destruct w as [|c w]; [done|].
    simpl in Hw. apply andb_true_iff in Hw as [Hc Hw].
    rewrite append_cons. constructor; [done|]. apply reps_spec. eauto.
Qed.

Lemma derives_pluslazy a s cap s' cap' :
  derives (PlusLazy a) s cap s' cap' <->
  exists w, s = w +:+ s' /\ w <> "" /\ Str.allChars (accepts a) w = true /\ cap' = cap.
Proof.
  split.
  - intros H. inversion H as [| | | | | |a0 c s0 s0' cap0 Hc Hr| |]; subst.
    apply reps_spec in Hr as (w & -> & Hw).
    exists (String c w). simpl. repeat split; try done.
    by apply andb_true_iff.
  - intros (w & -> & Hne & Hw & ->). destruct w as [|c w]; [done|].
    simpl in Hw. apply andb_true_iff in Hw as [Hc Hw].
    rewrite append_cons. constructor; [done|]. apply reps_spec. eauto.
Qed.

Lemma consumed_append (w rest : string) : consumed (w +:+ rest) rest = w.
Proof.
  unfold consumed. rewrite length_append.
  replace (String.length w + String.length rest - String.length rest)
    with (String.length w) by lia.
  apply substring_append_l.
Qed.

End RegexFacts.

(** ** src/utils/git.ts: [parseGitRemoteUrl] *)

Module GitFacts.
Import Regex RegexFacts GitUrl.

Lemma accepts_noSlash w : Str.allChars (accepts (NoneOf ["/"%char])) w = noSlash w.
Proof.
  unfold noSlash. induction w as [|c w IH]; [done|]. simpl. rewrite IH. f_equal.
  f_equal. apply bool_decide_ext. apply list_elem_of_singleton.
Qed.

Lemma derives_ownerRepo s cap s' cap' :
  derives ownerRepo s cap s' cap' <->
  exists path, s = path +:+ s' /\ ownerRepoShape path /\ cap' = Some (consumed s s').
Proof.
  unfold ownerRepo. rewrite derives_group. split.
  - intros [[cap1 H] ->].
    apply derives_seq in H as (s1 & c1 & Ha & Hb).
    apply derives_plus in Ha as (owner & -> & Ho & Hoa & ->).
    apply derives_seq in Hb as (s2 & c2 & Hb & Hc).
    apply derives_chr in Hb as [-> ->].
    apply derives_pluslazy in Hc as (repo & -> & Hr & Hra & ->).
    rewrite accepts_noSlash in Hoa, Hra.
    exists (owner +:+ "/" +:+ repo). split; [|split; [|done]].
    + by rewrite !append_assoc.
    + exists owner, repo. done.
  - intros (path & -> & (owner & repo & -> & Ho & Hr & Hoa & Hra) & ->).
    rewrite <- accepts_noSlash in Hoa, Hra.
    split; [|done]. exists cap.
    apply derives_seq. exists ("/" +:+ repo +:+ s'), cap. split.
    + apply derives_plus. exists owner. rewrite !append_assoc. eauto.
    + apply derives_seq. exists (repo +:+ s'), cap. split.
      * by apply derives_chr.
      * apply derives_pluslazy. exists repo. eauto.
Qed.

Lemma derives_gitSuffix s cap s' cap' :
  derives gitSuffix s cap s' cap' <->
  (s = "" \/ s = ".git") /\ s' = "" /\ cap' = cap.
Proof.
  unfold gitSuffix. rewrite derives_seq. split.
  - intros (s1 & c1 & Ha & Hb).
    apply derives_end in Hb as (-> & -> & ->).
    apply derives_opt in Ha as [Ha | [<- ->]].
    + apply derives_lit in Ha as [-> ->]. rewrite append_nil_r. auto.
    + auto.
  - intros ([-> | ->] & -> & ->); exists "", cap.
    + split; [apply derives_opt; by right|by apply derives_end].
    + split; [apply derives_opt; left; by apply derives_lit|by apply derives_end].
Qed.

Lemma derives_httpsRe t cap s' cap' :
  derives httpsRe t cap s' cap' <->
  (exists scheme path suffix, t = scheme +:+ "://github.com/" +:+ path +:+ suffix /\
    (scheme = "http" \/ scheme = "https") /\ (suffix = "" \/ suffix = ".git") /\
    ownerRepoShape path /\ cap' = Some path) /\ s' = "".
Proof.
  unfold httpsRe. split.
  - intros H.
    apply derives_seq in H as (s1 & c1 & Ha & H).
    apply derives_lit in Ha as [-> ->].
    apply derives_seq in H as (s2 & c2 & Hb & H).
    apply derives_seq in H as (s3 & c3 & Hc & H).
    apply derives_lit in Hc as [-> ->].
    apply derives_seq in H as (s4 & c4 & Hd & H).
    apply derives_ownerRepo in Hd as (path & -> & Hp & ->).
    apply derives_gitSuffix in H as (Hs & -> & ->).
    rewrite consumed_append. split; [|done].
    apply derives_opt in Hb as [Hb | [<- ->]].
    + apply derives_chr in Hb as [-> ->].
      exists "https", path, s4. auto.
    + exists "http", path, s4. auto.
  - intros [(scheme & path & suffix & -> & Hsch & Hs & Hp & ->) ->].
    apply derives_seq.
    exists ((if bool_decide (scheme = "http") then "" else "s")
              +:+ "://github.com/" +:+ path +:+ suffix), cap.
    split. { apply derives_lit. by destruct Hsch as [-> | ->]. }
    apply derives_seq. exists ("://github.com/" +:+ path +:+ suffix), cap.
    split.
    { apply derives_opt. destruct Hsch as [-> | ->]; simpl; [by right|].
      left. by apply derives_chr. }
    apply derives_seq. exists (path +:+ suffix), cap.
    split. { by apply derives_lit. }
    apply derives_seq. exists suffix, (Some path).
    split.
    { apply derives_ownerRepo. exists path. by rewrite consumed_append. }
    by apply derives_gitSuffix.
Qed.

Lemma derives_sshRe t cap s' cap' :
  derives sshRe t cap s' cap' <->
  (exists path suffix, t = "git@github.com:" +:+ path +:+ suffix /\
    (suffix = "" \/ suffix = ".git") /\
    ownerRepoShape path /\ cap' = Some path) /\ s' = "".
Proof.
  unfold sshRe. split.
  - intros H.
    apply derives_seq in H as (s1 & c1 & Ha & H).
    apply derives_lit in Ha as [-> ->].
    apply derives_seq in H as (s4 & c4 & Hd & H).
    apply derives_ownerRepo in Hd as (path & -> & Hp & ->).
    apply derives_gitSuffix in H as (Hs & -> & ->).
    rewrite consumed_append. split; [|done].
    exists path, s4. auto.
  - intros [(path & suffix & -> & Hs & Hp & ->) ->].
    apply derives_seq. exists (path +:+ suffix), cap.
    split. { by apply derives_lit. }
    apply derives_seq. exists suffix, (Some path).
    split.
    { apply derives_ownerRepo. exists path. by rewrite consumed_append. }
    by apply derives_gitSuffix.
Qed.

(** The HTTPS pattern finds no match exactly on the URLs that do not end
    in its form. *)
Lemma exec_httpsRe_None url : exec httpsRe url = None <-> ~ httpsTail url.
Proof.
  rewrite exec_None. split.
  - intros H (path & pre & scheme & suffix & -> & Hsch & Hs & Hp).
    eapply (H pre (scheme +:+ "://github.com/" +:+ path +:+ suffix) "" (Some path)); [done|].
    apply derives_httpsRe. split; [|done]. exists scheme, path, suffix. done.
  - intros H pre t s' cap' -> Hd. apply H.
    apply derives_httpsRe in Hd as [(scheme & path & suffix & -> & Hsch & Hs & Hp & ->) ->].
    exists path, pre, scheme, suffix. done.
Qed.

Lemma exec_sshRe_None url : exec sshRe url = None <-> ~ sshTail url.
Proof.
  rewrite exec_None. split.
  - intros H (path & pre & suffix & -> & Hs & Hp).
    eapply (H pre ("git@github.com:" +:+ path +:+ suffix) "" (Some path)); [done|].
    apply derives_sshRe. split; [|done]. exists path, suffix. done.
  - intros H pre t s' cap' -> Hd. apply H.
    apply derives_sshRe in Hd as [(path & suffix & -> & Hs & Hp & ->) ->].
    exists path, pre, suffix. done.
Qed.

(** The parser answers [null] exactly on the URLs that end in neither form. *)
Lemma parseGitRemoteUrl_None url :
  parseGitRemoteUrl url = None <-> ~ httpsTail url /\ ~ sshTail url.
Proof.
  unfold parseGitRemoteUrl. rewrite <- exec_httpsRe_None, <- exec_sshRe_None.
  destruct (exec httpsRe url) as [m|] eqn:Hh.
  - apply exec_Some in Hh as (pre & t & s' & -> & Hd).
    apply derives_httpsRe in Hd as [(scheme & path & suffix & -> & _ & _ & _ & ->) ->].
    split; [done|]. by intros [? _].
  - destruct (exec sshRe url) as [m|] eqn:Hs.
    + apply exec_Some in Hs as (pre & t & s' & -> & Hd).
      apply derives_sshRe in Hd as [(path & suffix & -> & _ & _ & ->) ->].
      split; [done|]. by intros [_ ?].
    + done.
Qed.

(** What the parser returns is the [owner/repo] part of the form the URL
    ends in. *)
Lemma parseGitRemoteUrl_Some url path :
  parseGitRemoteUrl url = Some path -> httpsTailOf url path \/ sshTailOf url path.
Proof.
  unfold parseGitRemoteUrl.
  destruct (exec httpsRe url) as [m|] eqn:Hh.
  - intros ->. apply exec_Some in Hh as (pre & t & s' & -> & Hd).
    apply derives_httpsRe in Hd as [(scheme & p & suffix & -> & ? & ? & ? & [= <-]) ->].
    left. by exists pre, scheme, suffix.
  - destruct (exec sshRe url) as [m|] eqn:Hs; [|done].
    intros ->. apply exec_Some in Hs as (pre & t & s' & -> & Hd).
    apply derives_sshRe in Hd as [(p & suffix & -> & ? & ? & [= <-]) ->].
    right. by exists pre, suffix.
Qed.

Lemma tailOf_ownerRepoShape url path :
  httpsTailOf url path \/ sshTailOf url path -> ownerRepoShape path.
Proof.
  by intros [(pre & scheme & suffix & _ & _ & _ & H) | (pre & suffix & _ & _ & H)].
Qed.

(** A URL of one of the two shapes ends in the form of its pattern. *)
Lemma httpsShape_tail url : httpsShape url -> httpsTail url.
Proof.
  intros (path & suffix & -> & Hs & Hp). exists path, "", "https", suffix. auto.
Qed.

Lemma sshShape_tail url : sshShape url -> sshTail url.
Proof.
  intros (path & suffix & -> & Hs & Hp). exists path, "", suffix. auto.
Qed.

(** C9, as the claim states it, fails: a URL of neither shape that ends in
    a GitHub URL is parsed to a repository and not to [null]. *)
Lemma url_of_another_shape_is_parsed :
  ~ httpsShape "https://gitlab.com/mirrors/https://github.com/acme/widgets" /\
  ~ sshShape "https://gitlab.com/mirrors/https://github.com/acme/widgets" /\
  parseGitRemoteUrl "https://gitlab.com/mirrors/https://github.com/acme/widgets"
    = Some "acme/widgets".
Proof.
  split; [|split].
  - intros (path & suffix & H & _). discriminate H.
  - intros (path & suffix & H & _). discriminate H.
  - vm_compute. reflexivity.
Qed.

(** C9. The git-remote-URL parser maps [https://github.com/acme/widgets.git],
    [https://github.com/acme/widgets] and [git@github.com:acme/widgets.git]
    to [acme/widgets].  It is a total function, and its value is the
    absence marker [None] exactly on the URLs that do not end in the HTTPS
    or the SSH form: a URL of one of the two shapes is never mapped to
    [None], and neither is a URL of another shape that ends in such a
    form. *)
Theorem parseGitRemoteUrl_examples_and_absence :
  parseGitRemoteUrl "https://github.com/acme/widgets.git" = Some "acme/widgets" /\
  parseGitRemoteUrl "https://github.com/acme/widgets" = Some "acme/widgets" /\
  parseGitRemoteUrl "git@github.com:acme/widgets.git" = Some "acme/widgets" /\
  (forall url, parseGitRemoteUrl url = None <-> ~ httpsTail url /\ ~ sshTail url) /\
  (forall url, httpsShape url \/ sshShape url -> parseGitRemoteUrl url <> None).
Proof.
  do 3 (split; [vm_compute; reflexivity|]).
  split; [apply parseGitRemoteUrl_None|].
  intros url Hshape [Hh Hs]%parseGitRemoteUrl_None.
  destruct Hshape as [H%httpsShape_tail | H%sshShape_tail]; done.
Qed.

Lemma parseGitRemoteUrl_absence_witness :
  ~ httpsTail "https://gitlab.com/acme/widgets.git" /\
  ~ sshTail "https://gitlab.com/acme/widgets.git" /\
  parseGitRemoteUrl "https://gitlab.com/acme/widgets.git" = None.
Proof.
  assert (~ httpsTail "https://gitlab.com/acme/widgets.git") as Hh.
  { apply exec_httpsRe_None. vm_compute. reflexivity. }
  assert (~ sshTail "https://gitlab.com/acme/widgets.git") as Hs.
  { apply exec_sshRe_None. vm_compute. reflexivity. }
  split; [exact Hh|]. split; [exact Hs|].
  apply (proj1 (proj2 (proj2 (proj2 parseGitRemoteUrl_examples_and_absence)))).
  by split.
Defined.

End GitFacts.

(** ** Running programs: one equation per construct *)

Module RunFacts.
Import Js Types Effects Observe.
Section WithRuntime.
Context {rt : Runtime}.

Lemma interp_bind {A B} (env : Env) (p : IO A) (f : A -> IO B) : forall log,
  interp env log (io_bind p f)
  = interp env (snd (interp env log p)) (f (fst (interp env log p))).
Proof.
  induction p as [a|X e k IH]; intros log; simpl; [done|]. apply IH.
Qed.

(** Running a program only adds to the history. *)
Lemma interp_extends {A} (env : Env) (p : IO A) : forall log,
  exists added, snd (interp env log p) = (log ++ added)%list.
Proof.
  induction p as [a|X e k IH]; intros log; simpl.
  - exists []. by rewrite app_nil_r.
  - destruct (IH (env log X e) (log ++ [Ev e (env log X e)])%list) as [added ->].
    exists (Ev e (env log X e) :: added). by rewrite <- app_assoc.
Qed.

Lemma runM_extends {S A} env log (m : M S A) (s : S) :
  exists added, logOf (runM env log m s) = (log ++ added)%list.
Proof. apply interp_extends. Qed.

Lemma runM_ret {S A} env log (a : A) (s : S) :
  runM env log (ret a) s = ((Resolved a, s), log).
Proof. reflexivity. Qed.

Lemma runM_throw {S A} env log (e : Thrown) (s : S) :
  runM env log (throw (A := A) e) s = ((Rejected e, s), log).
Proof. reflexivity. Qed.

Lemma runM_get {S} env log (s : S) :
  runM env log get s = ((Resolved s, s), log).
Proof. reflexivity. Qed.

Lemma runM_modify {S} env log (f : S -> S) (s : S) :
  runM env log (modify f) s = ((Resolved tt, f s), log).
Proof. reflexivity. Qed.

Lemma runM_perform {S X} env log (e : Eff X) (s : S) :
  runM env log (perform e) s
  = ((Resolved (env log X e), s), (log ++ [Ev e (env log X e)])%list).
Proof. reflexivity. Qed.

Lemma runM_bind {S A B} env log (m : M S A) (f : A -> M S B) (s : S) :
  runM env log (bind m f) s
  = match runM env log m s with
    | ((Resolved a, s'), log') => runM env log' (f a) s'
    | ((Rejected e, s'), log') => ((Rejected e, s'), log')
    end.
Proof.
  unfold runM, bind. rewrite interp_bind.
  by destruct (interp env log (m s)) as [[[a|e] s'] log'].
Qed.

Lemma runM_try_catch {S A} env log (m : M S A) (h : Thrown -> M S A) (s : S) :
  runM env log (try_catch m h) s
  = match runM env log m s with
    | ((Resolved a, s'), log') => ((Resolved a, s'), log')
    | ((Rejected e, s'), log') => runM env log' (h e) s'
    end.
Proof.
  unfold runM, try_catch. rewrite interp_bind.
  by destruct (interp env log (m s)) as [[[a|e] s'] log'].
Qed.

Lemma runM_try_finally {S A} env log (m : M S A) (fin : M S unit) (s : S) :
  runM env log (try_finally m fin) s
  = match runM env log m s with
    | ((o, s'), log') =>
        match runM env log' fin s' with
        | ((Resolved _, s''), log'') => ((o, s''), log'')
        | ((Rejected e, s''), log'') => ((Rejected e, s''), log'')
        end
    end.
Proof.
  unfold runM, try_finally. rewrite interp_bind.
  destruct (interp env log (m s)) as [[o s'] log']. simpl.
  rewrite interp_bind.
  by destruct (interp env log' (fin s')) as [[[u|e] s''] log''].
Qed.

Lemma runM_await {S X} env log (e : Eff (Rejection + X)) (s : S) :
  runM env log (await e) s
  = ((match env log _ e with
      | inl r => Rejected (thrownOf r)
      | inr x => Resolved x
      end, s), (log ++ [Ev e (env log _ e)])%list).
Proof.
  unfold await. rewrite runM_bind, runM_perform.
  by destruct (env log _ e) as [[msg|]|x].
Qed.

End WithRuntime.
End RunFacts.

(** ** src/api/client.ts: the backend proxy *)

Module ApiFacts.
Import Js Types Effects Observe RunFacts.
Section WithRuntime.
Context {rt : Runtime}.

(** One call of [request] is one [fetch], and its outcome is read off the
    answer. *)
Lemma runM_request env log T method path body (this : Api.TaskApiClient) :
  runM env log (Api.request T method path body) this
  = let req := sentRequest this method path body in
    let answer := env log _ (Fetch T req) in
    ((roundTrip answer, this), (log ++ [Ev (Fetch T req) answer])%list).
Proof.
  unfold Api.request. rewrite runM_bind, runM_get, runM_try_catch, runM_bind, runM_await.
  fold (sentRequest this method path body). cbv zeta.
  destruct (env log _ (Fetch T (sentRequest this method path body))) as [r|response]; simpl.
  - by destruct r.
  - unfold ok. destruct ((200 <=? status response)%Z && (status response <=? 299)%Z); simpl.
    + destruct (jsonAs response) as [r|data]; simpl; [by destruct r|done].
    + unfold responseError, backendCode, errorField, errorData, Api.member.
      destruct (default (JObj []) (jsonAsRecord response)) as [| | | | | |o]; try done;
        simpl; try (by destruct (truthy _)).
      unfold Js.or. rewrite runM_bind, runM_bind, runM_ret. cbv beta iota.
      destruct (truthy (getProp o "message")) eqn:Hm.
      * rewrite runM_ret. cbv beta iota. rewrite runM_bind, runM_ret.
        cbv beta iota. rewrite ?Hm. reflexivity.
      * rewrite runM_bind, runM_ret. cbv beta iota. rewrite runM_ret. cbv beta iota.
        rewrite runM_bind, runM_ret. cbv beta iota. rewrite ?Hm. reflexivity.
Qed.







(** Without a project scope, [listTasks] and [listSpecs] fail on the spot. *)
Lemma runM_listTasks_unscoped env log filters (this : Api.TaskApiClient) :
  truthyStr (Api.projectId this) = false ->
  runM env log (Api.listTasks filters) this = ((Rejected Api.projectIdRequired, this), log).
Proof.
  intros H. unfold Api.listTasks. rewrite runM_bind, runM_get. by rewrite H.
Qed.

Lemma runM_listSpecs_unscoped env log (this : Api.TaskApiClient) :
  truthyStr (Api.projectId this) = false ->
  runM env log Api.listSpecs this = ((Rejected Api.projectIdRequired, this), log).
Proof.
  intros H. unfold Api.listSpecs. rewrite runM_bind, runM_get. by rewrite H.
Qed.


(** C8. [getProjectByRepo] makes the round trip of [request] and converts
    exactly the project-not-found failure into the absence marker: when
    the round trip fails with that kind the operation resolves to [null],
    every other failure is rethrown as it is, and a project found is
    returned. *)
Theorem getProjectByRepo_suppresses_only_project_not_found env log repoFullName
    (this : Api.TaskApiClient) :
  let inner :=
    runM env log
      (Api.request GetProjectByRepoResponse "GET"
         ("/projects/by-repo?repo=" +:+ encodeURIComponent repoFullName) None) this in
  let result := runM env log (Api.getProjectByRepo repoFullName) this in
  stateOf result = stateOf inner /\ logOf result = logOf inner /\
  (failureKind (outcomeOf inner) = Some PROJECT_NOT_FOUND ->
     outcomeOf result = Resolved None) /\
  (forall e, outcomeOf inner = Rejected e ->
     failureKind (outcomeOf inner) <> Some PROJECT_NOT_FOUND ->
     outcomeOf result = Rejected e) /\
  (forall project, outcomeOf inner = Resolved project ->
     outcomeOf result = Resolved (Some project)).
Proof.
  cbv zeta. unfold Api.getProjectByRepo. rewrite runM_try_catch, runM_bind.
  destruct (runM env log (Api.request _ _ _ _) this) as [[[project|e] this'] log'];
    unfold stateOf, logOf, outcomeOf; simpl.
  - repeat split; try done. by intros ? [= ->].
  - destruct e as [[msg c st]| | |]; simpl; try (repeat split; try done; by intros ? [= ->]).
    destruct c; simpl; repeat split; try done; by intros ? [= ->].
Qed.

End WithRuntime.


Lemma getProjectByRepo_witness :
  outcomeOf
    (runM (Scenario.world (fun T => Scenario.errorResponse T 404
                                      (Some [("code", JStr "PROJECT_NOT_FOUND")])) Scenario.quiet)
       [] (Api.getProjectByRepo (rt := Scenario.runtime) "acme/widgets")
       (Scenario.client None))
  = Resolved None.
Proof.
  pose proof (getProjectByRepo_suppresses_only_project_not_found (rt := Scenario.runtime)
    (Scenario.world (fun T => Scenario.errorResponse T 404
                                (Some [("code", JStr "PROJECT_NOT_FOUND")])) Scenario.quiet)
    [] "acme/widgets" (Scenario.client None)) as H.
  cbv zeta in H. destruct H as (_ & _ & H & _).
  apply H. vm_compute. reflexivity.
Defined.

End ApiFacts.

(** ** src/tools/list-tasks.ts and list-specs.ts: the project scope *)

Module ScopeFacts.
Import Js Types Effects Observe RunFacts ApiFacts Tools.
Section WithRuntime.
Context {rt : Runtime}.

Lemma runM_setProjectId env log p (this : Api.TaskApiClient) :
  runM env log (Api.setProjectId p) this = ((Resolved tt, scoped this (Some p)), log).
Proof. reflexivity. Qed.

Lemma runM_getProjectId env log (this : Api.TaskApiClient) :
  runM env log Api.getProjectId this = ((Resolved (Api.projectId this), this), log).
Proof. reflexivity. Qed.

Lemma runM_listTasks_scoped env log status0 specId0 (this : Api.TaskApiClient) p :
  Api.projectId this = Some p -> Str.nonEmpty p = true ->
  runM env log (Api.listTasks (Some {| filters_status := Some status0;
                                       filters_specId := specId0 |})) this
  = runM env log (Api.request ListTasksResponse "GET" (tasksPath p status0 specId0) None) this.
Proof.
  intros Hp Hne. unfold Api.listTasks. rewrite runM_bind, runM_get.
  rewrite Hp. simpl. rewrite Hne. simpl. reflexivity.
Qed.

Lemma runM_listSpecs_scoped env log (this : Api.TaskApiClient) p :
  Api.projectId this = Some p -> Str.nonEmpty p = true ->
  runM env log Api.listSpecs this
  = runM env log (Api.request ListSpecsResponse "GET" (specsPath p) None) this.
Proof.
  intros Hp Hne. unfold Api.listSpecs. rewrite runM_bind, runM_get.
  rewrite Hp. simpl. rewrite Hne. simpl. reflexivity.
Qed.

(** [handleListTasks] with an explicit project: one request for the tasks of
    that project, made by the client scoped to it, and then the scope the
    two restoring statements leave. *)
Lemma runM_handleListTasks_explicit env log (input : ListTasks.ListTasksInput) B
    (this : Api.TaskApiClient) :
  ListTasks.projectId input = Some B -> Str.nonEmpty B = true ->
  runM env log (ListTasks.handleListTasks input) this
  = let original := Api.projectId this in
    let req := sentRequest (scoped this (Some B)) "GET"
                 (tasksPath B (ListTasks.status input) (ListTasks.specId input)) None in
    let answer := env log _ (Fetch ListTasksResponse req) in
    ((match roundTrip answer with
      | Resolved tasks => Resolved (ListTasks.render input None false tasks)
      | Rejected e => Rejected e
      end,
      scoped this
        (match roundTrip answer with
         | Resolved _ => if truthyStr original then original else Some ""
         | Rejected _ => if truthyStr original then original else Some B
         end)),
     (log ++ [Ev (Fetch ListTasksResponse req) answer])%list).
Proof.
  intros HB Hne. assert (truthyStr (Some B) = true) as Ht by exact Hne.
  unfold ListTasks.handleListTasks, detectFromWorkingDir.
  rewrite HB, Ht. simpl negb. simpl andb. cbv iota.
  rewrite runM_bind, runM_ret. cbv beta iota. rewrite Ht. simpl negb. cbv iota.
  rewrite runM_bind, runM_ret. cbv beta iota. rewrite Ht. simpl negb. cbv iota.
  rewrite runM_bind, runM_getProjectId. rewrite runM_bind, runM_setProjectId.
  rewrite runM_try_finally, runM_bind.
  rewrite (runM_listTasks_scoped _ _ _ _ _ B); [|done|done].
  rewrite runM_request. cbv zeta. simpl Api.interpolate.
  destruct (roundTrip _) as [tasks|e].
  - rewrite runM_bind, runM_setProjectId, runM_ret.
    destruct (Api.projectId this) as [a|] eqn:Ha; simpl; [|reflexivity].
    destruct (Str.nonEmpty a) eqn:Hna; simpl; [reflexivity|].
    unfold Str.nonEmpty in Hna.
    apply negb_false_iff, bool_decide_eq_true in Hna as ->. reflexivity.
  - destruct (Api.projectId this) as [a|] eqn:Ha; simpl; [|reflexivity].
    destruct (Str.nonEmpty a) eqn:Hna; reflexivity.
Qed.

Lemma runM_handleListSpecs_explicit env log (input : ListSpecs.ListSpecsInput) B
    (this : Api.TaskApiClient) :
  ListSpecs.projectId input = Some B -> Str.nonEmpty B = true ->
  runM env log (ListSpecs.handleListSpecs input) this
  = let original := Api.projectId this in
    let req := sentRequest (scoped this (Some B)) "GET" (specsPath B) None in
    let answer := env log _ (Fetch ListSpecsResponse req) in
    ((match roundTrip answer with
      | Resolved specs => Resolved (ListSpecs.render input None false specs)
      | Rejected e => Rejected e
      end,
      scoped this
        (match roundTrip answer with
         | Resolved _ => if truthyStr original then original else Some ""
         | Rejected _ => if truthyStr original then original else Some B
         end)),
     (log ++ [Ev (Fetch ListSpecsResponse req) answer])%list).
Proof.
  intros HB Hne. assert (truthyStr (Some B) = true) as Ht by exact Hne.
  unfold ListSpecs.handleListSpecs, detectFromWorkingDir.
  rewrite HB, Ht. simpl negb. simpl andb. cbv iota.
  rewrite runM_bind, runM_ret. cbv beta iota. rewrite Ht. simpl negb. cbv iota.
  rewrite runM_bind, runM_ret. cbv beta iota. rewrite Ht. simpl negb. cbv iota.
  rewrite runM_bind, runM_getProjectId. rewrite runM_bind, runM_setProjectId.
  rewrite runM_try_finally, runM_bind.
  rewrite (runM_listSpecs_scoped _ _ _ B); [|done|done].
  rewrite runM_request. cbv zeta. simpl Api.interpolate.
  destruct (roundTrip _) as [specs|e].
  - rewrite runM_bind, runM_setProjectId, runM_ret.
    destruct (Api.projectId this) as [a|] eqn:Ha; simpl; [|reflexivity].
    destruct (Str.nonEmpty a) eqn:Hna; simpl; [reflexivity|].
    unfold Str.nonEmpty in Hna.
    apply negb_false_iff, bool_decide_eq_true in Hna as ->. reflexivity.
  - destruct (Api.projectId this) as [a|] eqn:Ha; simpl; [|reflexivity].
    destruct (Str.nonEmpty a) eqn:Hna; reflexivity.
Qed.

Lemma scoped_same (this : Api.TaskApiClient) : scoped this (Api.projectId this) = this.
Proof. by destruct this. Qed.

(** A scope that was set (and not empty) is back after the call, whether the
    backend call went through or failed. *)
Lemma scope_restored_when_set env log (inputT : ListTasks.ListTasksInput)
    (inputS : ListSpecs.ListSpecsInput) B (this : Api.TaskApiClient) :
  ListTasks.projectId inputT = Some B -> ListSpecs.projectId inputS = Some B ->
  Str.nonEmpty B = true -> truthyStr (Api.projectId this) = true ->
  stateOf (runM env log (ListTasks.handleListTasks inputT) this) = this /\
  stateOf (runM env log (ListSpecs.handleListSpecs inputS) this) = this.
Proof.
  intros HT HS Hne Ht.
  rewrite (runM_handleListTasks_explicit _ _ _ B), (runM_handleListSpecs_explicit _ _ _ B);
    try done.
  cbv zeta. unfold stateOf. simpl. rewrite Ht.
  split; destruct (roundTrip _); apply scoped_same.
Qed.

(** C1. An invocation of list-tasks or list-specs with an explicit projectId
    overwrites the scope for the backend call (the one request is made by
    the client scoped to that project) and restores a previous scope that
    was set.  The restoration is not unconditional: when the previous scope
    was unset or empty and the backend call fails, the [finally] block skips
    the restoring statement and the explicit project stays in the scope. *)
Theorem explicit_project_stays_in_scope_after_failure env log
    (inputT : ListTasks.ListTasksInput) (inputS : ListSpecs.ListSpecsInput) B
    (this : Api.TaskApiClient) :
  ListTasks.projectId inputT = Some B -> ListSpecs.projectId inputS = Some B ->
  Str.nonEmpty B = true -> truthyStr (Api.projectId this) = false ->
  let tasksRun := runM env log (ListTasks.handleListTasks inputT) this in
  let specsRun := runM env log (ListSpecs.handleListSpecs inputS) this in
  (forall e, outcomeOf tasksRun = Rejected e -> Api.projectId (stateOf tasksRun) = Some B) /\
  (forall e, outcomeOf specsRun = Rejected e -> Api.projectId (stateOf specsRun) = Some B).
Proof.
  intros HT HS Hne Ht. cbv zeta.
  rewrite (runM_handleListTasks_explicit _ _ _ B), (runM_handleListSpecs_explicit _ _ _ B);
    try done.
  cbv zeta. unfold stateOf, outcomeOf. simpl. rewrite Ht.
  split; intros e; destruct (roundTrip _); try discriminate; reflexivity.
Qed.

(** C10. On a session whose scope is unset, a list-tasks or list-specs
    invocation with an explicit projectId makes one request in the scope of
    that project; when the backend answers it with data, the invocation
    succeeds with the rendered listing and leaves the scope equal to the
    empty string, and it succeeds in no other way.  A client whose scope is
    the empty string is treated by [listTasks] and [listSpecs] exactly as
    one whose scope is unset: both fail with NotConfigured and make no
    call. *)
Theorem unset_scope_is_empty_after_success env log
    (inputT : ListTasks.ListTasksInput) (inputS : ListSpecs.ListSpecsInput) B
    (this : Api.TaskApiClient) :
  ListTasks.projectId inputT = Some B -> ListSpecs.projectId inputS = Some B ->
  Str.nonEmpty B = true -> Api.projectId this = None ->
  let tasksRun := runM env log (ListTasks.handleListTasks inputT) this in
  let specsRun := runM env log (ListSpecs.handleListSpecs inputS) this in
  let tasksAnswer :=
    env log _ (Fetch ListTasksResponse
                 (sentRequest (scoped this (Some B)) "GET"
                    (tasksPath B (ListTasks.status inputT) (ListTasks.specId inputT)) None)) in
  let specsAnswer :=
    env log _ (Fetch ListSpecsResponse
                 (sentRequest (scoped this (Some B)) "GET" (specsPath B) None)) in
  (forall tasks, roundTrip tasksAnswer = Resolved tasks ->
     outcomeOf tasksRun = Resolved (ListTasks.render inputT None false tasks) /\
     Api.projectId (stateOf tasksRun) = Some "") /\
  (forall specs, roundTrip specsAnswer = Resolved specs ->
     outcomeOf specsRun = Resolved (ListSpecs.render inputS None false specs) /\
     Api.projectId (stateOf specsRun) = Some "") /\
  (forall text, outcomeOf tasksRun = Resolved text ->
     (exists tasks, roundTrip tasksAnswer = Resolved tasks) /\
     Api.projectId (stateOf tasksRun) = Some "") /\
  (forall text, outcomeOf specsRun = Resolved text ->
     (exists specs, roundTrip specsAnswer = Resolved specs) /\
     Api.projectId (stateOf specsRun) = Some "") /\
  (forall env' log' filters (c : Api.TaskApiClient),
     Api.projectId c = Some "" \/ Api.projectId c = None ->
     runM env' log' (Api.listTasks filters) c = ((Rejected Api.projectIdRequired, c), log') /\
     runM env' log' Api.listSpecs c = ((Rejected Api.projectIdRequired, c), log')) /\
  failureKind (Rejected (A := unit) Api.projectIdRequired) = Some NOT_CONFIGURED.
Proof.
  intros HT HS Hne Hnone. cbv zeta.
  rewrite (runM_handleListTasks_explicit _ _ _ B), (runM_handleListSpecs_explicit _ _ _ B);
    try done.
  cbv zeta. unfold stateOf, outcomeOf. simpl. rewrite Hnone. simpl.
  split; [|split; [|split; [|split; [|split]]]].
  - by intros tasks ->.
  - by intros specs ->.
  - intros text. destruct (roundTrip _) as [tasks|]; [|discriminate]. eauto.
  - intros text. destruct (roundTrip _) as [specs|]; [|discriminate]. eauto.
  - intros env' log' filters c Hc.
    assert (truthyStr (Api.projectId c) = false) as Hf by (by destruct Hc as [-> | ->]).
    split; [by apply runM_listTasks_unscoped|by apply runM_listSpecs_unscoped].
  - reflexivity.
Qed.

End WithRuntime.

(** A session scoped to project A, an explicit project B, a backend that
    answers 500: the scope is A again afterwards. *)
Example scope_restored_after_failure :
  stateOf (runM (Scenario.world (fun T => Scenario.errorResponse T 500 None) Scenario.quiet) []
    (ListTasks.handleListTasks (rt := Scenario.runtime)
       {| ListTasks.projectId := Some Scenario.projectB; ListTasks.workingDir := None;
          ListTasks.status := "pending"; ListTasks.specId := None |})
    (Scenario.client (Some Scenario.projectA)))
  = Scenario.client (Some Scenario.projectA).
Proof. vm_compute. reflexivity. Qed.

Lemma explicit_project_stays_in_scope_witness :
  Api.projectId
    (stateOf (runM (Scenario.world (fun T => Scenario.errorResponse T 500 None) Scenario.quiet) []
       (ListTasks.handleListTasks (rt := Scenario.runtime)
          {| ListTasks.projectId := Some Scenario.projectB; ListTasks.workingDir := None;
             ListTasks.status := "pending"; ListTasks.specId := None |})
       (Scenario.client None)))
  = Some Scenario.projectB.
Proof.
  pose proof (explicit_project_stays_in_scope_after_failure (rt := Scenario.runtime)
    (Scenario.world (fun T => Scenario.errorResponse T 500 None) Scenario.quiet) []
    {| ListTasks.projectId := Some Scenario.projectB; ListTasks.workingDir := None;
       ListTasks.status := "pending"; ListTasks.specId := None |}
    {| ListSpecs.projectId := Some Scenario.projectB; ListSpecs.workingDir := None;
       ListSpecs.includeCompleted := false |}
    Scenario.projectB (Scenario.client None) eq_refl eq_refl eq_refl eq_refl) as H.
  cbv zeta in H. destruct H as [H _].
  eapply H. vm_compute. reflexivity.
Defined.

Lemma unset_scope_is_empty_witness :
  let world := Scenario.world Scenario.emptyResponse Scenario.quiet in
  let inputT :=
    {| ListTasks.projectId := Some Scenario.projectB; ListTasks.workingDir := None;
       ListTasks.status := "pending"; ListTasks.specId := None |} in
  let inputS :=
    {| ListSpecs.projectId := Some Scenario.projectB; ListSpecs.workingDir := None;
       ListSpecs.includeCompleted := false |} in
  let tasksRun :=
    runM world [] (ListTasks.handleListTasks (rt := Scenario.runtime) inputT)
      (Scenario.client None) in
  let specsRun :=
    runM world [] (ListSpecs.handleListSpecs (rt := Scenario.runtime) inputS)
      (Scenario.client None) in
  (outcomeOf tasksRun
     = Resolved (ListTasks.render (rt := Scenario.runtime) inputT None false []) /\
   Api.projectId (stateOf tasksRun) = Some "") /\
  (outcomeOf specsRun
     = Resolved (ListSpecs.render (rt := Scenario.runtime) inputS None false []) /\
   Api.projectId (stateOf specsRun) = Some "").
Proof.
  cbv zeta.
  pose proof (unset_scope_is_empty_after_success (rt := Scenario.runtime)
    (Scenario.world Scenario.emptyResponse Scenario.quiet) []
    {| ListTasks.projectId := Some Scenario.projectB; ListTasks.workingDir := None;
       ListTasks.status := "pending"; ListTasks.specId := None |}
    {| ListSpecs.projectId := Some Scenario.projectB; ListSpecs.workingDir := None;
       ListSpecs.includeCompleted := false |}
    Scenario.projectB (Scenario.client None) eq_refl eq_refl eq_refl eq_refl) as H.
  cbv zeta in H. destruct H as (HT & HS & _).
  split; [exact (HT [] eq_refl)|exact (HS [] eq_refl)].
Defined.

End ScopeFacts.

(** ** src/server.ts: the dispatcher *)

Module DispatchFacts.
Import Js Types Effects Observe RunFacts Zod Tools Server.
Section WithRuntime.
Context {rt : Runtime}.

(** *** Issues carry the path of the field they are about *)

Lemma checkString_path path s c i :
  i ∈ checkString path s c -> issue_path i = path.
Proof.
  destruct c as [msg|n msg]; simpl.
  - destruct (isUuid s); [by intros ?%not_elem_of_nil|].
    by intros ->%list_elem_of_singleton.
  - destruct (String.length s <? n)%nat; [|by intros ?%not_elem_of_nil].
    by intros ->%list_elem_of_singleton.
Qed.

Lemma checkNumber_path path x c i :
  i ∈ checkNumber path x c -> issue_path i = path.
Proof.
  destruct c as [b|b]; simpl.
  - destruct (number_leb _ _); [by intros ?%not_elem_of_nil|].
    by intros ->%list_elem_of_singleton.
  - destruct (number_leb _ _); [by intros ?%not_elem_of_nil|].
    by intros ->%list_elem_of_singleton.
Qed.

Lemma elem_of_concat_map {A B} (f : A -> list B) (l : list A) (y : B) :
  y ∈ List.concat (List.map f l) <-> exists x, x ∈ l /\ y ∈ f x.
Proof.
  induction l as [|a l IH]; simpl.
  - split; [by intros ?%not_elem_of_nil|]. by intros (x & ?%not_elem_of_nil & _).
  - rewrite elem_of_app, IH. split.
    + intros [H | (x & Hx & Hy)].
      * exists a. split; [by left|done].
      * exists x. split; [by right|done].
    + intros (x & Hx & Hy). apply elem_of_cons in Hx as [-> | Hx]; [by left|].
      right. by exists x.
Qed.

Lemma parseElements_path parse path :
  (forall p v i, i ∈ fst (parse p v) -> exists rest, issue_path i = (p ++ rest)%list) ->
  forall l n i, i ∈ fst (parseElements parse path n l) ->
  exists rest, issue_path i = (path ++ rest)%list.
Proof.
  intros Hparse. induction l as [|x l IH]; intros n i; simpl.
  - by intros ?%not_elem_of_nil.
  - destruct (parse (path ++ [PIndex n])%list x) as [issues y] eqn:Hx.
    destruct (parseElements parse path (Datatypes.S n) l) as [issues' ys] eqn:Hl.
    simpl. rewrite elem_of_app. intros [Hi | Hi].
    + destruct (Hparse (path ++ [PIndex n])%list x i) as [rest Hrest].
      { by rewrite Hx. }
      exists ([PIndex n] ++ rest)%list. by rewrite Hrest, <- app_assoc.
    + apply (IH (Datatypes.S n)). by rewrite Hl.
Qed.

Lemma parseType_path t : forall path v i,
  i ∈ fst (parseType t path v) -> exists rest, issue_path i = (path ++ rest)%list.
Proof.
  assert (forall path (i : ZodIssue) kind,
            i ∈ [issue path None kind] -> exists rest, issue_path i = (path ++ rest)%list)
    as Hone.
  { intros path i kind ->%list_elem_of_singleton. exists []. by rewrite app_nil_r. }
  induction t as [checks|checks| |options|element IH minLength|inner IH|inner IH value];
    intros path v i; simpl.
  - destruct v; simpl; try apply Hone.
    intros (c & _ & Hi)%elem_of_concat_map. exists []. rewrite app_nil_r.
    by eapply checkString_path.
  - destruct v; simpl; try apply Hone.
    intros (c & _ & Hi)%elem_of_concat_map. exists []. rewrite app_nil_r.
    by eapply checkNumber_path.
  - destruct v; simpl; try apply Hone. by intros ?%not_elem_of_nil.
  - destruct v; simpl; try apply Hone.
    case_bool_decide; simpl; [by intros ?%not_elem_of_nil|apply Hone].
  - destruct v; simpl; try apply Hone.
    destruct (parseElements (parseType element) path 0 elements) as [issues ys] eqn:He.
    simpl. rewrite elem_of_app. intros [Hi | Hi].
    + destruct minLength as [[n msg]|]; [|by apply not_elem_of_nil in Hi].
      destruct (List.length elements <? n)%nat; [|by apply not_elem_of_nil in Hi].
      apply list_elem_of_singleton in Hi as ->. exists []. by rewrite app_nil_r.
    + apply (parseElements_path (parseType element) path IH elements 0).
      by rewrite He.
  - destruct v; simpl; try apply IH. by intros ?%not_elem_of_nil.
  - destruct v; simpl; apply IH.
Qed.

(** The issues of a failed parse are those of the fields, field by field. *)
Lemma parse_issues schema args issues :
  Zod.parse schema args = inl issues ->
  issues = List.concat (List.map (fieldIssues args) schema) /\ issues <> [].
Proof.
  unfold Zod.parse.
  destruct (List.concat (List.map (fieldIssues args) schema)) as [|i l]; [done|].
  by intros [= <-].
Qed.

(** *** The dispatcher *)

Lemma runM_handleToolCall_invalid env log name schema args issues
    (this : Api.TaskApiClient) :
  contractOf name = Some schema -> Zod.parse schema args = inl issues ->
  runM env log (handleToolCall name args) this = ((Rejected (ThrownZod issues), this), log).
Proof.
  unfold contractOf, handleToolCall. intros Hc Hp.
  repeat (case_bool_decide; [injection Hc as <-; unfold parseThen; by rewrite Hp|]).
  discriminate.
Qed.

Lemma runM_handleToolCall_unknown env log name args (this : Api.TaskApiClient) :
  name ∉ toolNames ->
  runM env log (handleToolCall name args) this
  = ((Rejected (ThrownError ("Unknown tool: " +:+ name)), this), log).
Proof.
  unfold toolNames, handleToolCall. intros Hn.
  repeat (case_bool_decide; [exfalso; apply Hn; subst name; set_solver|]).
  reflexivity.
Qed.

Lemma join_hasLine sep (l : list string) x :
  x ∈ l -> hasLine (Str.join sep l) x.
Proof.
  induction l as [|h l IH]; [by intros ?%not_elem_of_nil|].
  intros [-> | Hx]%elem_of_cons.
  - destruct l as [|y l]; simpl.
    + exists "", "". by rewrite append_nil_l, append_nil_r.
    + exists "", (sep +:+ Str.join sep (y :: l)). by rewrite append_nil_l.
  - destruct (IH Hx) as (before & after & Heq).
    destruct l as [|y l]; [by apply not_elem_of_nil in Hx|].
    change (Str.join sep (h :: y :: l)) with (h +:+ sep +:+ Str.join sep (y :: l)).
    rewrite Heq. exists (h +:+ sep +:+ before), after. by rewrite !append_assoc.
Qed.

(** C3. When the arguments of a tool invocation fail the input contract of
    the named operation, the dispatcher throws the [ZodError] before any
    handler runs: the tool call returns the validation text with [isError]
    set, the history of calls and the client are unchanged (no backend call,
    no effect on the proxy), and the failure enumerates each violated
    field: every issue of every field of the contract has a line of its own
    in the text, under a path that starts with the name of the field. *)
Theorem invalid_arguments_stop_at_the_dispatcher env log name schema arguments issues
    (this : Api.TaskApiClient) :
  contractOf name = Some schema ->
  Zod.parse schema (default [] arguments) = inl issues ->
  runM env log (handleToolCall name (default [] arguments)) this
    = ((Rejected (ThrownZod issues), this), log) /\
  runM env log (callToolHandler name arguments) this
    = ((Resolved {| text := formatError (ThrownZod issues); isError := true |}, this), log) /\
  issues <> [] /\
  (forall field i, field ∈ schema -> i ∈ fieldIssues (default [] arguments) field ->
     (exists rest, issue_path i = PKey (fst field) :: rest) /\
     hasLine (formatError (ThrownZod issues)) (issueLine i)).
Proof.
  intros Hc Hp.
  pose proof (runM_handleToolCall_invalid env log _ _ _ _ this Hc Hp) as Hrun.
  split; [exact Hrun|]. split; [|split].
  - unfold callToolHandler. rewrite runM_try_catch, runM_bind, Hrun. reflexivity.
  - by apply parse_issues in Hp as [_ ?].
  - intros field i Hf Hi. apply parse_issues in Hp as [-> _]. split.
    + unfold fieldIssues in Hi. apply parseType_path in Hi as [rest ->]. by exists rest.
    + assert (i ∈ List.concat (List.map (fieldIssues (default [] arguments)) schema)) as Hin.
      { apply elem_of_concat_map. by exists field. }
      destruct (join_hasLine Str.nl (List.map issueLine
                  (List.concat (List.map (fieldIssues (default [] arguments)) schema)))
                  (issueLine i)) as (before & after & Heq).
      { apply list_elem_of_In, in_map, list_elem_of_In, Hin. }
      exists ("Validation error:" +:+ Str.nl +:+ before), after.
      simpl. rewrite Heq. by rewrite !append_assoc.
Qed.

(** C4, as the code has it.  A tool invocation whose name is not one of the
    seven registered operations makes the dispatcher throw a plain [Error]
    that carries no failure kind; the tool call returns the text
    [Error: Unknown tool: <name>] with [isError] set, and neither a handler
    nor the backend is called: the history of calls and the client are
    unchanged. *)
Theorem unknown_tool_is_a_plain_error env log name arguments (this : Api.TaskApiClient) :
  name ∉ toolNames ->
  runM env log (handleToolCall name (default [] arguments)) this
    = ((Rejected (ThrownError ("Unknown tool: " +:+ name)), this), log) /\
  failureKind (Rejected (A := string) (ThrownError ("Unknown tool: " +:+ name))) = None /\
  runM env log (callToolHandler name arguments) this
    = ((Resolved {| text := "Error: Unknown tool: " +:+ name; isError := true |}, this), log).
Proof.
  intros Hn.
  pose proof (runM_handleToolCall_unknown env log name (default [] arguments) this Hn) as Hrun.
  split; [exact Hrun|]. split; [reflexivity|].
  unfold callToolHandler. rewrite runM_try_catch, runM_bind, Hrun. reflexivity.
Qed.

End WithRuntime.

Lemma invalid_arguments_witness :
  runM (Scenario.world Scenario.emptyResponse Scenario.quiet) []
    (callToolHandler (rt := Scenario.runtime) "start-task" (Some [("taskId", JStr "42")]))
    (Scenario.client None)
  = ((Resolved {| text := "Validation error:" +:+ Str.nl +:+ "- taskId: Task ID must be a valid UUID";
                  isError := true |},
      Scenario.client None), []).
Proof.
  exact (proj1 (proj2 (invalid_arguments_stop_at_the_dispatcher (rt := Scenario.runtime)
    (Scenario.world Scenario.emptyResponse Scenario.quiet) [] "start-task"
    StartTask.startTaskSchema (Some [("taskId", JStr "42")])
    [{| issue_path := [PKey "taskId"]; issue_message := "Task ID must be a valid UUID" |}]
    (Scenario.client None) eq_refl eq_refl))).
Defined.

Lemma unknown_tool_witness :
  runM (Scenario.world Scenario.emptyResponse Scenario.quiet) []
    (callToolHandler (rt := Scenario.runtime) "frobnicate" None) (Scenario.client None)
  = ((Resolved {| text := "Error: Unknown tool: frobnicate"; isError := true |},
      Scenario.client None), []).
Proof.
  refine (proj2 (proj2 (unknown_tool_is_a_plain_error (rt := Scenario.runtime)
    (Scenario.world Scenario.emptyResponse Scenario.quiet) [] "frobnicate" None
    (Scenario.client None) _))).
  unfold toolNames. intros H. repeat (apply elem_of_cons in H as [H | H]; [discriminate|]).
  by apply not_elem_of_nil in H.
Defined.

(** C4, as the claim states it, fails: the name [frobnicate] is not
    registered, the error the dispatcher throws for it has no failure kind,
    and the text rendered for it is tagged with no kind at all. *)
Lemma unknown_tool_is_not_tagged :
  ("frobnicate" ∉ toolNames) /\
  failureKind (outcomeOf
    (runM (Scenario.world Scenario.emptyResponse Scenario.quiet) []
       (handleToolCall (rt := Scenario.runtime) "frobnicate" []) (Scenario.client None)))
  = None /\
  outcomeOf
    (runM (Scenario.world Scenario.emptyResponse Scenario.quiet) []
       (callToolHandler (rt := Scenario.runtime) "frobnicate" None) (Scenario.client None))
  = Resolved {| text := "Error: Unknown tool: frobnicate"; isError := true |} /\
  (forall kind, ~ taggedWith kind "Error: Unknown tool: frobnicate").
Proof.
  split; [|split; [|split]].
  - unfold toolNames. intros H.
    repeat (apply elem_of_cons in H as [H | H]; [discriminate|]).
    by apply not_elem_of_nil in H.
  - vm_compute. reflexivity.
  - vm_compute. reflexivity.
  - intros kind [msg H]. rewrite !append_cons in H. discriminate.
Qed.

End DispatchFacts.

(** ** src/server.ts: the routes of the multiplexed transport *)

Module RouteFacts.
Import Js Types Effects Observe RunFacts Props Tools Server.
Section WithRuntime.
Context {rt : Runtime}.

Implicit Types (this : MCPServer) (res : Res).

Lemma extractApiKey_none (req : InboundRequest) :
  match authorization (in_headers req) with
  | Some h => Str.startsWith h "Bearer " = false
  | None => True
  end ->
  x_api_key (in_headers req) = HeaderAbsent ->
  extractApiKey req = None.
Proof.
  unfold extractApiKey. intros Ha Hk. rewrite Hk.
  destruct (authorization (in_headers req)) as [h|]; [by rewrite Ha|done].
Qed.

(** Without a usable key the message is answered 401 on the spot. *)
Lemma runM_postMcp_unauthorized env log req this res :
  truthyStr (extractApiKey req) = false ->
  runM env log (postMcp req) (this, res)
  = ((Resolved tt, (this, SentJson 401 unauthorizedBody)), log).
Proof.
  intros H. unfold postMcp. rewrite runM_try_catch. cbv zeta. rewrite H. reflexivity.
Qed.

(** C2. An inbound message on the message-submission endpoint that carries
    neither a Bearer authorization header nor the API-key header is answered
    401 immediately: the server's state is the one it had (no session
    created, no entry added to the session map, no client allocated) and the
    history of calls is unchanged (no call into the SDK, hence no dispatch,
    and no call to the backend). *)
Theorem post_without_credentials_is_rejected env log req this res :
  match authorization (in_headers req) with
  | Some h => Str.startsWith h "Bearer " = false
  | None => True
  end ->
  x_api_key (in_headers req) = HeaderAbsent ->
  runM env log (postMcp req) (this, res)
  = ((Resolved tt, (this, SentJson 401 unauthorizedBody)), log).
Proof.
  intros Ha Hk. apply runM_postMcp_unauthorized.
  by rewrite (extractApiKey_none req Ha Hk).
Qed.

(** *** The session registry *)

Lemma runM_setSessions env log f this res :
  runM env log (setSessions f) (this, res)
  = ((Resolved tt,
      ({| sessions := f (sessions this); defaultApiUrl := defaultApiUrl this;
          clients := clients this; nextHandle := nextHandle this |}, res)), log).
Proof. reflexivity. Qed.

(** [onsessioninitialized] registers the session under the new identifier. *)
Lemma runM_onSessionInitialized env log sessionData newSessionId this res :
  runM env log (runCallback sessionData (OnSessionInitialized newSessionId)) (this, res)
  = ((Resolved tt,
      ({| sessions := <[newSessionId := sessionData]> (sessions this);
          defaultApiUrl := defaultApiUrl this;
          clients := clients this; nextHandle := nextHandle this |}, res)), log).
Proof. reflexivity. Qed.

(** The route that destroys a session, when the session is not there. *)
Lemma runM_deleteMcp_absent env log req this res :
  lookupSession this (mcp_session_id (in_headers req)) = None ->
  runM env log (deleteMcp req) (this, res) = ((Resolved tt, (this, SentEmpty 204)), log).
Proof.
  intros H. unfold deleteMcp. cbv zeta.
  rewrite runM_bind. unfold getServer at 1. rewrite runM_bind, runM_get, runM_ret.
  cbn [fst]. rewrite H. rewrite runM_bind, runM_ret. reflexivity.
Qed.

(** When the route that destroys a session answers, the session is gone. *)
Lemma runM_deleteMcp_resolved env log req this res :
  outcomeOf (runM env log (deleteMcp req) (this, res)) = Resolved tt ->
  lookupSession (fst (stateOf (runM env log (deleteMcp req) (this, res))))
    (mcp_session_id (in_headers req)) = None /\
  snd (stateOf (runM env log (deleteMcp req) (this, res))) = SentEmpty 204.
Proof.
  destruct (lookupSession this (mcp_session_id (in_headers req))) as [sd|] eqn:Hl.
  - remember (runM env log (deleteMcp req) (this, res)) as r eqn:Hr.
    unfold deleteMcp in Hr. cbv zeta in Hr.
    rewrite runM_bind in Hr. unfold getServer in Hr.
    rewrite runM_bind, runM_get, runM_ret in Hr.
    cbn [fst] in Hr. rewrite Hl in Hr. rewrite !runM_bind in Hr.
    destruct (runM env log (sdkCall sd (TransportClose (transport sd))) (this, res))
      as [[[[]|e] [this1 res1]] log1]; [|subst r; unfold outcomeOf; simpl; intros H; discriminate H].
    cbv beta iota in Hr. rewrite runM_bind in Hr.
    destruct (runM env log1 (sdkCall sd (ServerClose (server sd))) (this1, res1))
      as [[[[]|e] [this2 res2]] log2]; [|subst r; unfold outcomeOf; simpl; intros H; discriminate H].
    cbv beta iota in Hr. rewrite runM_setSessions in Hr. subst r. intros _.
    unfold stateOf, lookupSession. simpl.
    destruct (mcp_session_id (in_headers req)) as [id|]; [|done]. simpl.
    split; [apply lookup_delete_eq|done].
  - rewrite (runM_deleteMcp_absent _ _ _ _ _ Hl). by intros _.
Qed.

(** C6. Destroying a session is idempotent: when the identifier is absent
    from the registry (or the header is missing) the route calls nothing,
    changes nothing and answers 204; so after a first destruction that
    answered, destroying the same identifier again raises no error, leaves
    the server as it is and answers the same 204. *)
Theorem destroy_is_idempotent env log env' req this res res' :
  (lookupSession this (mcp_session_id (in_headers req)) = None ->
   runM env log (deleteMcp req) (this, res) = ((Resolved tt, (this, SentEmpty 204)), log)) /\
  (let first := runM env log (deleteMcp req) (this, res) in
   outcomeOf first = Resolved tt ->
   snd (stateOf first) = SentEmpty 204 /\
   runM env' (logOf first) (deleteMcp req) (fst (stateOf first), res')
   = ((Resolved tt, (fst (stateOf first), SentEmpty 204)), logOf first)).
Proof.
  split; [apply runM_deleteMcp_absent|].
  cbv zeta. intros H. apply runM_deleteMcp_resolved in H as [Hl Hr].
  split; [exact Hr|]. by apply runM_deleteMcp_absent.
Qed.

Lemma runM_newObject env log this res :
  runM env log newObject (this, res)
  = ((Resolved (nextHandle this),
      ({| sessions := sessions this; defaultApiUrl := defaultApiUrl this;
          clients := clients this; nextHandle := Datatypes.S (nextHandle this) |}, res)), log).
Proof. reflexivity. Qed.

Lemma runM_newClient env log config this res :
  runM env log (newClient config) (this, res)
  = ((Resolved (nextHandle this),
      ({| sessions := sessions this; defaultApiUrl := defaultApiUrl this;
          clients := <[nextHandle this := Api.newTaskApiClient config]> (clients this);
          nextHandle := Datatypes.S (nextHandle this) |}, res)), log).
Proof. reflexivity. Qed.

(** A message with a usable key and no registered session makes the route
    create the three objects of a session, connect them and hand the
    message to the new transport; when the SDK initializes the session
    under [id] while it serves the message, the registry maps [id] to that
    session when the route is done. *)
Lemma runM_postMcp_initialize (env : Env) log req this id reply :
  let apiKey := extractApiKey req in
  let client := nextHandle this in
  let server0 := Datatypes.S (nextHandle this) in
  let transport0 := Datatypes.S (Datatypes.S (nextHandle this)) in
  truthyStr apiKey = true ->
  (if truthyStr (mcp_session_id (in_headers req))
   then lookupSession this (mcp_session_id (in_headers req)) else None) = None ->
  env log _ (ServerConnect server0 transport0) = None ->
  env (log ++ [Ev (ServerConnect server0 transport0) None])%list _
      (TransportHandleRequest transport0 req) = reply ->
  callbacks reply = [OnSessionInitialized id] ->
  fst (stateOf (runM env log (postMcp req) (this, NotSent)))
  = {| sessions := <[id := {| transport := transport0; apiClient := client;
                              server := server0 |}]> (sessions this);
       defaultApiUrl := defaultApiUrl this;
       clients := <[client := {| Api.apiUrl := defaultApiUrl this;
                                 Api.apiKey := Api.interpolate apiKey;
                                 Api.projectId := None |}]> (clients this);
       nextHandle := Datatypes.S (Datatypes.S (Datatypes.S (nextHandle this))) |}.
Proof.
  cbv zeta. intros Hkey Hnew Hconnect Hreply Hcbs.
  unfold postMcp. rewrite runM_try_catch. cbv zeta. rewrite Hkey. simpl negb. cbv iota.
  rewrite runM_bind. unfold getServer at 1. rewrite runM_bind, runM_get, runM_ret.
  cbn [fst]. rewrite Hnew. rewrite runM_bind.
  rewrite runM_bind, runM_newClient. rewrite runM_bind, runM_newObject.
  rewrite runM_bind, runM_newObject. cbn [nextHandle].
  rewrite runM_bind, runM_perform, Hconnect, runM_ret.
  unfold sdkCall. rewrite runM_bind, runM_perform. cbn [transport]. rewrite Hreply.
  rewrite runM_bind. rewrite Hcbs.
  destruct (headersSent reply); destruct (rejection reply) as [r|]; reflexivity.
Qed.

(** The callbacks of the server resolve, the handler of a tool call apart. *)
Lemma runCallback_resolves (env : Env) log sessionData cb this res :
  noToolCall cb = true ->
  outcomeOf (runM env log (runCallback sessionData cb) (this, res)) = Resolved tt.
Proof.
  destruct cb as [newSessionId| | |name arguments]; intros Hcb; [done| | |done].
  - cbn [runCallback]. rewrite runM_bind, runM_perform. cbv beta iota.
    by destruct (truthyStr _).
  - cbn [runCallback]. rewrite runM_perform. unfold outcomeOf. cbn [fst].
    by destruct (env log unit _).
Qed.

Lemma runCallbacks_resolves (env : Env) sessionData cbs : forall log this res,
  forallb noToolCall cbs = true ->
  outcomeOf (runM env log (runCallbacks sessionData cbs) (this, res)) = Resolved tt.
Proof.
  induction cbs as [|cb cbs IH]; intros log this res Hcbs; [done|].
  apply andb_true_iff in Hcbs as [Hcb Hcbs]. cbn [runCallbacks]. rewrite runM_bind.
  pose proof (runCallback_resolves env log sessionData cb this res Hcb) as Hrun.
  destruct (runM env log (runCallback sessionData cb) (this, res))
    as [[[[]|e] [this' res']] log']; [|done].
  by apply IH.
Qed.

(** A call into the SDK that is not rejected and runs no tool resolves; the
    call is the first thing it adds to the history. *)
Lemma sdkCall_resolves (env : Env) log sessionData (e : Eff SdkReply) this res :
  rejection (env log _ e) = None ->
  forallb noToolCall (callbacks (env log _ e)) = true ->
  let result := runM env log (sdkCall sessionData e) (this, res) in
  outcomeOf result = Resolved tt /\
  exists added, logOf result = (log ++ Ev e (env log _ e) :: added)%list.
Proof.
  intros Hrejection Hcbs. cbv zeta. unfold sdkCall.
  rewrite runM_bind, runM_perform. cbv beta iota. rewrite Hrejection.
  set (reply := env log _ e) in *. set (log1 := (log ++ [Ev e reply])%list).
  rewrite runM_bind.
  assert (exists res1,
    runM env log1 (if headersSent reply
                   then modify (fun s : MCPServer * Res => (fst s, SentByTransport))
                   else ret tt) (this, res)
    = ((Resolved tt, (this, res1)), log1)) as [res1 ->].
  { destruct (headersSent reply); by eexists. }
  cbv beta iota. rewrite runM_bind.
  pose proof (runCallbacks_resolves env sessionData _ log1 this res1 Hcbs) as Hrun.
  destruct (runM_extends env log1 (runCallbacks sessionData (callbacks reply)) (this, res1))
    as [added Hadded].
  destruct (runM env log1 (runCallbacks sessionData (callbacks reply)) (this, res1))
    as [[[[]|err] s'] log']; [|done].
  rewrite runM_ret. split; [done|]. exists added.
  unfold logOf in *. cbn [snd] in *. subst log' log1. by rewrite <- app_assoc.
Qed.

(** The route that destroys a session, on a registered session, in a world
    where closing does not fail: both objects are closed, the session
    leaves the registry and the answer is 204. *)
Lemma runM_deleteMcp_registered (env : Env) log req id sessionData this res :
  mcp_session_id (in_headers req) = Some id ->
  sessions this !! id = Some sessionData ->
  closesCleanly env ->
  let result := runM env log (deleteMcp req) (this, res) in
  outcomeOf result = Resolved tt /\
  snd (stateOf result) = SentEmpty 204 /\
  sessions (fst (stateOf result)) !! id = None /\
  exists r1 between r2 rest,
    logOf result
    = (log ++ Ev (TransportClose (transport sessionData)) r1
           :: between ++ Ev (ServerClose (server sessionData)) r2 :: rest)%list.
Proof.
  intros Hid Hsession Hclean. cbv zeta.
  remember (runM env log (deleteMcp req) (this, res)) as result eqn:Hresult.
  unfold deleteMcp in Hresult. cbv zeta in Hresult.
  rewrite runM_bind in Hresult. unfold getServer in Hresult.
  rewrite runM_bind, runM_get, runM_ret in Hresult. cbn [fst] in Hresult.
  rewrite Hid in Hresult. unfold lookupSession in Hresult.
  cbn [mbind option_bind] in Hresult. rewrite Hsession in Hresult.
  rewrite !runM_bind in Hresult.
  destruct (Hclean log (transport sessionData)) as (Hr1 & Hc1 & _ & _).
  destruct (sdkCall_resolves env log sessionData (TransportClose (transport sessionData))
              this res Hr1 Hc1) as [Hrun1 [between Hlog1]].
  destruct (runM env log (sdkCall sessionData (TransportClose (transport sessionData)))
              (this, res)) as [[[[]|err] [this1 res1]] log1]; [|done].
  unfold logOf in Hlog1. cbn [snd] in Hlog1. cbv beta iota in Hresult.
  rewrite runM_bind in Hresult.
  destruct (Hclean log1 (server sessionData)) as (_ & _ & Hr2 & Hc2).
  destruct (sdkCall_resolves env log1 sessionData (ServerClose (server sessionData))
              this1 res1 Hr2 Hc2) as [Hrun2 [rest Hlog2]].
  destruct (runM env log1 (sdkCall sessionData (ServerClose (server sessionData)))
              (this1, res1)) as [[[[]|err] [this2 res2]] log2]; [|done].
  unfold logOf in Hlog2. cbn [snd] in Hlog2. cbv beta iota in Hresult.
  rewrite runM_setSessions in Hresult. cbv beta iota in Hresult.
  subst result. unfold outcomeOf, stateOf, logOf. cbn.
  split; [done|]. split; [done|]. split; [apply lookup_delete_eq|].
  eexists _, between, _, rest. rewrite Hlog2, Hlog1. by rewrite <- app_assoc.
Qed.

(** C5. When a new session is initialized, [onsessioninitialized] registers
    it under the identifier the SDK produced, so an immediate lookup of that
    identifier returns that very session record (its transport, client and
    server instance); this holds of the callback on any session, and of the
    whole route when the SDK initializes the session it just created, whose
    client is bound to the key of the request.  The route that destroys
    that session closes its transport and its server instance, removes it
    and answers 204, in every world where closing does not fail: the lookup
    then returns absent.  In any world, once that route has answered, the
    lookup returns absent. *)
Theorem created_session_is_found_until_destroyed (env env' : Env) log log' req destroyReq
    this res res' sessionData id reply :
  let apiKey := extractApiKey req in
  let client := nextHandle this in
  let server0 := Datatypes.S (nextHandle this) in
  let transport0 := Datatypes.S (Datatypes.S (nextHandle this)) in
  let created := fst (stateOf (runM env log (postMcp req) (this, NotSent))) in
  let destroyed := runM env' log' (deleteMcp destroyReq) (created, res') in
  lookupSession
    (fst (stateOf (runM env log (runCallback sessionData (OnSessionInitialized id)) (this, res))))
    (Some id) = Some sessionData /\
  (truthyStr apiKey = true ->
   (if truthyStr (mcp_session_id (in_headers req))
    then lookupSession this (mcp_session_id (in_headers req)) else None) = None ->
   env log _ (ServerConnect server0 transport0) = None ->
   env (log ++ [Ev (ServerConnect server0 transport0) None])%list _
       (TransportHandleRequest transport0 req) = reply ->
   callbacks reply = [OnSessionInitialized id] ->
   lookupSession created (Some id)
     = Some {| transport := transport0; apiClient := client; server := server0 |} /\
   clients created !! client
     = Some {| Api.apiUrl := defaultApiUrl this; Api.apiKey := Api.interpolate apiKey;
               Api.projectId := None |} /\
   (mcp_session_id (in_headers destroyReq) = Some id ->
    closesCleanly env' ->
    outcomeOf destroyed = Resolved tt /\
    snd (stateOf destroyed) = SentEmpty 204 /\
    lookupSession (fst (stateOf destroyed)) (Some id) = None /\
    exists r1 between r2 rest,
      logOf destroyed
      = (log' ++ Ev (TransportClose transport0) r1
              :: between ++ Ev (ServerClose server0) r2 :: rest)%list) /\
   (mcp_session_id (in_headers destroyReq) = Some id ->
    outcomeOf destroyed = Resolved tt ->
    lookupSession (fst (stateOf destroyed)) (Some id) = None)).
Proof.
  cbv zeta. split.
  - rewrite runM_onSessionInitialized. unfold stateOf, lookupSession. simpl.
    apply lookup_insert_eq.
  - intros Hkey Hnew Hconnect Hreply Hcbs.
    rewrite (runM_postMcp_initialize env log req this id reply Hkey Hnew Hconnect Hreply Hcbs).
    unfold lookupSession. simpl. split; [apply lookup_insert_eq|].
    split; [apply lookup_insert_eq|]. split.
    + intros Hid Hclean.
      exact (runM_deleteMcp_registered env' log' destroyReq id
               {| transport := Datatypes.S (Datatypes.S (nextHandle this));
                  apiClient := nextHandle this;
                  server := Datatypes.S (nextHandle this) |} _ res' Hid
               (lookup_insert_eq _ _ _) Hclean).
    + intros Hid Hres. apply runM_deleteMcp_resolved in Hres as [Hl _].
      by rewrite Hid in Hl.
Qed.

End WithRuntime.

Lemma post_without_credentials_witness :
  runM (Scenario.world Scenario.emptyResponse Scenario.quiet) []
    (postMcp (rt := Scenario.runtime) (Scenario.inbound (Some "Basic abc") HeaderAbsent None))
    (Scenario.emptyServer, NotSent)
  = ((Resolved tt, (Scenario.emptyServer, SentJson 401 unauthorizedBody)), []).
Proof.
  exact (post_without_credentials_is_rejected (rt := Scenario.runtime)
    (Scenario.world Scenario.emptyResponse Scenario.quiet) []
    (Scenario.inbound (Some "Basic abc") HeaderAbsent None)
    Scenario.emptyServer NotSent eq_refl eq_refl).
Defined.

Lemma created_session_witness :
  let post := Scenario.inbound (Some "Bearer key-1") HeaderAbsent None in
  let delete := Scenario.inbound None HeaderAbsent (Some "session-1") in
  let created :=
    fst (stateOf
      (runM (Scenario.world Scenario.emptyResponse Scenario.initializing) []
         (postMcp (rt := Scenario.runtime) post) (Scenario.emptyServer, NotSent))) in
  let destroyed :=
    runM (Scenario.world Scenario.emptyResponse Scenario.quiet) []
      (deleteMcp (rt := Scenario.runtime) delete) (created, NotSent) in
  lookupSession created (Some "session-1")
    = Some {| transport := 2; apiClient := 0; server := 1 |} /\
  outcomeOf destroyed = Resolved tt /\
  snd (stateOf destroyed) = SentEmpty 204 /\
  lookupSession (fst (stateOf destroyed)) (Some "session-1") = None.
Proof.
  cbv zeta.
  assert (closesCleanly (Scenario.world Scenario.emptyResponse Scenario.quiet)) as Hclean.
  { intros log h. repeat split; reflexivity. }
  destruct (proj2 (created_session_is_found_until_destroyed (rt := Scenario.runtime)
    (Scenario.world Scenario.emptyResponse Scenario.initializing)
    (Scenario.world Scenario.emptyResponse Scenario.quiet) [] []
    (Scenario.inbound (Some "Bearer key-1") HeaderAbsent None)
    (Scenario.inbound None HeaderAbsent (Some "session-1"))
    Scenario.emptyServer NotSent NotSent
    {| transport := 2; apiClient := 0; server := 1 |} "session-1" Scenario.initializing)
    eq_refl eq_refl eq_refl eq_refl eq_refl) as (Hfound & _ & Hgone & _).
  destruct (Hgone eq_refl Hclean) as (Hresolved & Hsent & Habsent & _).
  split; [exact Hfound|]. split; [exact Hresolved|]. split; [exact Hsent|exact Habsent].
Defined.

Lemma destroy_is_idempotent_witness :
  runM (Scenario.world Scenario.emptyResponse Scenario.quiet) []
    (deleteMcp (rt := Scenario.runtime) (Scenario.inbound None HeaderAbsent (Some "session-1")))
    (Scenario.emptyServer, NotSent)
  = ((Resolved tt, (Scenario.emptyServer, SentEmpty 204)), []).
Proof.
  exact (proj1 (destroy_is_idempotent (rt := Scenario.runtime)
    (Scenario.world Scenario.emptyResponse Scenario.quiet) []
    (Scenario.world Scenario.emptyResponse Scenario.quiet)
    (Scenario.inbound None HeaderAbsent (Some "session-1"))
    Scenario.emptyServer NotSent NotSent) eq_refl).
Defined.

End RouteFacts.

(** ** src/utils/git.ts: which match the parser takes *)

Module ParserFacts.
Import Regex RegexFacts GitUrl GitFacts Props.

Section Search.
Context {R : Type}.

Lemma run_lit w : forall s cap (k : Cont (R := R)),
  run (lit w) (w +:+ s) cap k = k s cap.
Proof.
  induction w as [|c w IH]; intros s cap k; [done|].
  rewrite append_cons. cbn [lit run accepts].
  rewrite bool_decide_eq_true_2 by done. apply IH.
Qed.

(** The greedy class reads up to the first character it does not accept
    when the rest of the pattern matches from there. *)
Lemma starGreedy_through a w s cap (k : Cont (R := R)) x :
  Str.allChars (accepts a) w = true ->
  (forall c s', s = String c s' -> accepts a c = false) ->
  k s cap = Some x ->
  starGreedy a (w +:+ s) cap k = Some x.
Proof.
  intros Hw Hs Hk. induction w as [|c w IH].
  - rewrite append_nil_l. destruct s as [|d s']; [done|].
    cbn [starGreedy]. by rewrite (Hs d s' eq_refl).
  - simpl in Hw. apply andb_true_iff in Hw as [Hc Hw].
    rewrite append_cons. cbn [starGreedy]. by rewrite Hc, IH.
Qed.

(** The lazy class stops at the first position from which the rest of the
    pattern matches. *)
Lemma starLazy_first a w s cap (k : Cont (R := R)) x :
  Str.allChars (accepts a) w = true ->
  (forall w1 w2, w = w1 +:+ w2 -> w2 <> "" -> k (w2 +:+ s) cap = None) ->
  k s cap = Some x ->
  starLazy a (w +:+ s) cap k = Some x.
Proof.
  intros Hw Hskip Hk. induction w as [|c w IH].
  - rewrite append_nil_l. destruct s; cbn [starLazy]; by rewrite Hk.
  - simpl in Hw. apply andb_true_iff in Hw as [Hc Hw].
    rewrite append_cons. cbn [starLazy].
    rewrite <- append_cons, (Hskip "" (String c w)) by done.
    rewrite Hc. apply IH; [done|].
    intros w1 w2 -> Hne. by apply (Hskip (String c w1) w2).
Qed.

End Search.

Lemma exec_here r s m :
  run r s None (fun _ cap => Some cap) = Some m -> exec r s = Some m.
Proof. intros H. destruct s; cbn [exec]; by rewrite H. Qed.

(** [(?:\.git)?$] matches the empty rest and the rest [.git], nothing else. *)
Lemma run_gitSuffix s cap :
  run gitSuffix s cap (fun _ c => Some c)
  = if bool_decide (s = "" \/ s = ".git") then Some cap else None.
Proof.
  case_bool_decide as Hs.
  - destruct Hs as [-> | ->]; reflexivity.
  - apply run_None. intros s' cap' Hd.
    apply derives_gitSuffix in Hd as (Hd & _). done.
Qed.

Lemma append_eq_nil (a b : string) : a +:+ b = "" -> a = "" /\ b = "".
Proof. destruct a; [by rewrite append_nil_l|by rewrite append_cons]. Qed.

Lemma append_inv_r (a b c : string) : a +:+ c = b +:+ c -> a = b.
Proof.
  intros H. assert (String.length a = String.length b) as Hl.
  { apply (f_equal String.length) in H. rewrite !length_append in H. lia. }
  revert b H Hl. induction a as [|x a IH]; intros [|y b] H Hl; try done.
  rewrite !append_cons in H. injection H as -> H. f_equal. apply IH; [done|].
  simpl in Hl. lia.
Qed.

(** [owner/repo] followed by [.git], or by nothing when [repo] does not
    itself end in [.git]: the group captures [owner/repo]. *)
Lemma run_ownerRepo_canonical owner repo suffix cap :
  owner <> "" -> repo <> "" -> noSlash owner = true -> noSlash repo = true ->
  suffix = ".git" \/ (suffix = "" /\ forall stem, stem <> "" -> repo <> stem +:+ ".git") ->
  run (Seq ownerRepo gitSuffix) (owner +:+ "/" +:+ repo +:+ suffix) cap (fun _ c => Some c)
  = Some (Some (owner +:+ "/" +:+ repo)).
Proof.
  intros Ho Hr Hos Hrs Hsuffix.
  rewrite <- accepts_noSlash in Hos, Hrs.
  destruct owner as [|c owner]; [done|]. destruct repo as [|d repo]; [done|].
  cbn [Str.allChars] in Hos, Hrs.
  apply andb_true_iff in Hos as [Hc Hos]. apply andb_true_iff in Hrs as [Hd Hrs].
  set (s := String c owner +:+ "/" +:+ String d repo +:+ suffix).
  unfold ownerRepo. cbn [run]. subst s. rewrite append_cons. rewrite Hc.
  apply starGreedy_through; [done| |].
  { intros c0 s' H. rewrite append_cons in H. by injection H as <- _. }
  cbv beta. rewrite !append_cons, append_nil_l. cbv beta iota. rewrite Hd.
  change (accepts (Chr "/") "/") with true. cbv iota.
  apply starLazy_first; [done| |].
  - intros w1 w2 -> Hne. rewrite run_gitSuffix. rewrite bool_decide_eq_false_2; [done|].
    intros [H | H].
    + apply append_eq_nil in H as [? _]. done.
    + destruct Hsuffix as [-> | [-> Hstem]].
      * apply (append_inv_r w2 "" ".git") in H. done.
      * rewrite append_nil_r in H. subst w2.
        by apply (Hstem (String d w1)).
  - rewrite run_gitSuffix.
    rewrite bool_decide_eq_true_2 by (destruct Hsuffix as [-> | [-> _]]; auto).
    do 2 f_equal.
    replace (String c (owner +:+ String "/" (String d (repo +:+ suffix))))
      with ((String c owner +:+ "/" +:+ String d repo) +:+ suffix)
      by (by rewrite !append_assoc).
    apply consumed_append.
Qed.

Lemma run_httpsRe_canonical (secure : bool) t x :
  run (Seq ownerRepo gitSuffix) t None (fun _ c => Some c) = Some x ->
  run httpsRe ("http" +:+ (if secure then "s" else "") +:+ "://github.com/" +:+ t) None
    (fun _ c => Some c) = Some x.
Proof.
  set (rest := Seq ownerRepo gitSuffix). intros H.
  unfold httpsRe. fold rest. cbn [run]. rewrite run_lit. cbv beta.
  destruct secure.
  - rewrite append_cons, append_nil_l. cbv beta iota.
    change (accepts (Chr "s") "s") with true. cbv iota.
    by rewrite run_lit, H.
  - rewrite append_nil_l. change ("://github.com/" +:+ t) with (String ":" ("//github.com/" +:+ t)).
    cbv beta iota. change (accepts (Chr "s") ":") with false. cbv iota.
    change (String ":" ("//github.com/" +:+ t)) with ("://github.com/" +:+ t).
    by rewrite run_lit.
Qed.

Lemma run_sshRe_canonical t x :
  run (Seq ownerRepo gitSuffix) t None (fun _ c => Some c) = Some x ->
  run sshRe ("git@github.com:" +:+ t) None (fun _ c => Some c) = Some x.
Proof.
  set (rest := Seq ownerRepo gitSuffix). intros H.
  unfold sshRe. fold rest. cbn [run]. by rewrite run_lit.
Qed.

Lemma count_append c (a b : string) : count c (a +:+ b) = count c a + count c b.
Proof.
  induction a as [|d a IH]; [done|]. rewrite append_cons. simpl. rewrite IH. lia.
Qed.

Lemma noSlash_count w : noSlash w = true -> count "/" w = 0.
Proof.
  unfold noSlash. induction w as [|c w IH]; [done|]. simpl.
  intros [Hc Hw]%andb_true_iff. rewrite (IH Hw).
  apply negb_true_iff, bool_decide_eq_false in Hc. by rewrite bool_decide_eq_false_2.
Qed.

(** A URL that ends in the HTTPS form holds at least four slashes. *)
Lemma httpsTail_count url : httpsTail url -> 4 <= count "/" url.
Proof.
  intros (path & pre & scheme & suffix & -> & _ & _ & owner & repo & -> & _).
  rewrite !count_append. simpl. lia.
Qed.

(** X1. The canonical remote URLs of a GitHub repository parse to its
    [owner/repo], whatever the owner and the repository are called: one
    trailing [.git] is dropped, and a URL without it is read whole unless
    the repository name itself ends in [.git]. *)
Theorem canonical_url_parses_to_owner_repo owner repo prefix :
  owner <> "" -> repo <> "" -> noSlash owner = true -> noSlash repo = true ->
  prefix ∈ ["https://github.com/"; "http://github.com/"; "git@github.com:"] ->
  parseGitRemoteUrl (prefix +:+ owner +:+ "/" +:+ repo +:+ ".git")
    = Some (owner +:+ "/" +:+ repo) /\
  ((forall stem, stem <> "" -> repo <> stem +:+ ".git") ->
   parseGitRemoteUrl (prefix +:+ owner +:+ "/" +:+ repo) = Some (owner +:+ "/" +:+ repo)).
Proof.
  intros Ho Hr Hos Hrs Hprefix.
  assert (forall suffix,
    suffix = ".git" \/ (suffix = "" /\ forall stem, stem <> "" -> repo <> stem +:+ ".git") ->
    parseGitRemoteUrl (prefix +:+ owner +:+ "/" +:+ repo +:+ suffix)
      = Some (owner +:+ "/" +:+ repo)) as Hparse.
  { intros suffix Hsuffix.
    pose proof (run_ownerRepo_canonical owner repo suffix None Ho Hr Hos Hrs Hsuffix) as Hrun.
    unfold parseGitRemoteUrl.
    apply elem_of_cons in Hprefix as [-> | Hprefix].
    { assert (exec httpsRe ("https://github.com/" +:+ owner +:+ "/" +:+ repo +:+ suffix)
              = Some (Some (owner +:+ "/" +:+ repo))) as ->; [|done].
      exact (exec_here _ _ _ (run_httpsRe_canonical true _ _ Hrun)). }
    apply elem_of_cons in Hprefix as [-> | Hprefix].
    { assert (exec httpsRe ("http://github.com/" +:+ owner +:+ "/" +:+ repo +:+ suffix)
              = Some (Some (owner +:+ "/" +:+ repo))) as ->; [|done].
      exact (exec_here _ _ _ (run_httpsRe_canonical false _ _ Hrun)). }
    apply list_elem_of_singleton in Hprefix as ->.
    assert (exec httpsRe ("git@github.com:" +:+ owner +:+ "/" +:+ repo +:+ suffix) = None)
      as ->.
    { apply exec_httpsRe_None. intros Hshape%httpsTail_count.
      rewrite !count_append, (noSlash_count owner), (noSlash_count repo) in Hshape by done.
      destruct Hsuffix as [-> | [-> _]]; simpl in Hshape; lia. }
    by rewrite (exec_here _ _ _ (run_sshRe_canonical _ _ Hrun)). }
  split.
  - apply Hparse. by left.
  - intros Hstem. specialize (Hparse "" (or_intror (conj eq_refl Hstem))).
    by rewrite append_nil_r in Hparse.
Qed.

Lemma canonical_url_witness :
  parseGitRemoteUrl "git@github.com:acme/widgets.js.git" = Some "acme/widgets.js" /\
  parseGitRemoteUrl "git@github.com:acme/widgets.js" = Some "acme/widgets.js".
Proof.
  assert ("git@github.com:" ∈ ["https://github.com/"; "http://github.com/"; "git@github.com:"])
    as Hprefix by (apply list_elem_of_In; simpl; auto).
  destruct (canonical_url_parses_to_owner_repo "acme" "widgets.js" "git@github.com:"
              ltac:(done) ltac:(done) eq_refl eq_refl Hprefix) as [Hgit Hplain].
  split; [exact Hgit|]. apply Hplain.
  intros stem _ H.
  do 10 (destruct stem as [|? stem]; [by cbv in H|rewrite append_cons in H; injection H as _ H]).
  by destruct stem.
Defined.

(** X2. The parser is sound and complete for the URLs that end in a GitHub
    form.  What it returns is read off the URL: the URL is some text, then
    [http://github.com/] or [https://github.com/] (or [git@github.com:]),
    then the returned [owner/repo] (both names non-empty, no slash in
    either), then nothing or [.git], and there it ends.  Every URL that ends
    so is parsed to such a part of it, and the HTTPS form is tried first. *)
Theorem parseGitRemoteUrl_sound_and_complete url :
  (forall path, parseGitRemoteUrl url = Some path ->
     ownerRepoShape path /\
     ((exists pre scheme suffix,
         url = pre +:+ scheme +:+ "://github.com/" +:+ path +:+ suffix /\
         (scheme = "http" \/ scheme = "https") /\ (suffix = "" \/ suffix = ".git")) \/
      (exists pre suffix,
         url = pre +:+ "git@github.com:" +:+ path +:+ suffix /\
         (suffix = "" \/ suffix = ".git")))) /\
  (httpsTail url \/ sshTail url ->
     exists path, parseGitRemoteUrl url = Some path /\
       (httpsTailOf url path \/ sshTailOf url path) /\
       (httpsTail url -> httpsTailOf url path)).
Proof.
  split.
  - intros path Hp. apply parseGitRemoteUrl_Some in Hp as Htail.
    split; [by apply (tailOf_ownerRepoShape url)|].
    destruct Htail as [(pre & scheme & suffix & ? & ? & ? & _) | (pre & suffix & ? & ? & _)];
      [left|right]; eauto 10.
  - intros Htail. destruct (parseGitRemoteUrl url) as [path|] eqn:Hp.
    + exists path. split; [done|]. split; [by apply parseGitRemoteUrl_Some|].
      intros Hh. revert Hp. unfold parseGitRemoteUrl.
      destruct (exec httpsRe url) as [m|] eqn:Hm.
      * intros ->. apply exec_Some in Hm as (pre & t & s' & -> & Hd).
        apply derives_httpsRe in Hd as [(scheme & p & suffix & -> & ? & ? & ? & [= <-]) ->].
        by exists pre, scheme, suffix.
      * by apply exec_httpsRe_None in Hm.
    + apply parseGitRemoteUrl_None in Hp as [Hh Hs]. by destruct Htail.
Qed.

End ParserFacts.

(** ** src/utils/git.ts: reading the config file *)

Module GitConfigFacts.
Import Js Types Effects Observe RunFacts Git GitFacts.

(** Outside the origin section nothing is returned. *)
Lemma scanLines_skip before rest :
  (forall line, line ∈ before -> Str.trim line <> originHeader) ->
  scanLines (before ++ rest)%list false = scanLines rest false.
Proof.
  induction before as [|line before IH]; intros Hbefore; [done|].
  cbn [app scanLines]. cbv zeta.
  rewrite (bool_decide_eq_false_2 (Str.trim line = originHeader))
    by (apply Hbefore; left).
  rewrite andb_false_l.
  rewrite IH by (intros l Hl; apply Hbefore; by right).
  by destruct (Str.startsWith _ _).
Qed.

(** Inside the origin section, lines that open no section and set no url
    are passed over. *)
Lemma scanLines_body body rest :
  (forall line, line ∈ body ->
     Str.startsWith (Str.trim line) "[" = false /\
     Str.startsWith (Str.trim line) "url = " = false) ->
  scanLines (body ++ rest)%list true = scanLines rest true.
Proof.
  induction body as [|line body IH]; intros Hbody; [done|].
  cbn [app scanLines]. cbv zeta.
  destruct (Hbody line) as [-> ->]; [left|].
  rewrite andb_false_r. apply IH. intros l Hl. apply Hbody. by right.
Qed.

Lemma startsWith_url_not_section t :
  Str.startsWith t "url = " = true -> Str.startsWith t "[" = false.
Proof.
  unfold Str.startsWith. destruct t as [|c t]; [done|]. cbn [String.prefix].
  destruct (Ascii.ascii_dec "u" c) as [<-|]; [|done].
  by destruct (Ascii.ascii_dec "[" "u").
Qed.

(** X3. A url that is not in the [[remote "origin"]] section is never
    returned: when no line of the config file is that header, the scan finds
    nothing, whatever url lines other sections hold. *)
Theorem url_outside_origin_is_ignored lines :
  (forall line, line ∈ lines -> Str.trim line <> originHeader) ->
  scanLines lines false = None.
Proof.
  intros H. rewrite <- (app_nil_r lines). by rewrite scanLines_skip.
Qed.

(** X4. When the first origin section holds a url line, the scan returns
    that line without the [url = ] key and trimmed: the sections before it
    are passed over, so are the lines of the section that set other keys,
    and what follows the url line plays no part. *)
Theorem first_url_of_origin_is_returned before header body urlLine after :
  (forall line, line ∈ before -> Str.trim line <> originHeader) ->
  Str.trim header = originHeader ->
  (forall line, line ∈ body ->
     Str.startsWith (Str.trim line) "[" = false /\
     Str.startsWith (Str.trim line) "url = " = false) ->
  Str.startsWith (Str.trim urlLine) "url = " = true ->
  scanLines (before ++ header :: body ++ urlLine :: after)%list false
  = Some (Str.trim (Str.sliceFrom 6 (Str.trim urlLine))).
Proof.
  intros Hbefore Hheader Hbody Hurl.
  rewrite scanLines_skip by done.
  cbn [scanLines]. cbv zeta. rewrite Hheader.
  change (Str.startsWith originHeader "[") with true. cbv iota.
  rewrite bool_decide_eq_true_2 by done.
  rewrite scanLines_body by done.
  cbn [scanLines]. cbv zeta.
  by rewrite (startsWith_url_not_section _ Hurl), Hurl.
Qed.

Section WithRuntime.
Context {rt : Runtime} {S : Type}.

Lemma runM_getGitRemoteUrl (env : Env) log workingDir (s : S) :
  let path := path_join [workingDir; ".git"; "config"] in
  let answer := env log _ (ReadFile path) in
  runM env log (getGitRemoteUrl workingDir) s
  = ((Resolved match answer with
               | inl _ => None
               | inr configContent => scanLines (Str.split "010"%char configContent) false
               end, s),
     (log ++ [Ev (ReadFile path) answer])%list).
Proof.
  cbv zeta. unfold getGitRemoteUrl.
  rewrite runM_try_catch, runM_bind, runM_await.
  by destruct (env log _ _) as [[msg|]|content].
Qed.

Lemma runM_getGitHubRepoFromWorkingDir (env : Env) log workingDir (s : S) :
  let path := path_join [workingDir; ".git"; "config"] in
  let answer := env log _ (ReadFile path) in
  runM env log (getGitHubRepoFromWorkingDir workingDir) s
  = ((Resolved match answer with
               | inl _ => None
               | inr configContent =>
                   match scanLines (Str.split "010"%char configContent) false with
                   | Some url => if Str.nonEmpty url then parseGitRemoteUrl url else None
                   | None => None
                   end
               end, s),
     (log ++ [Ev (ReadFile path) answer])%list).
Proof.
  cbv zeta. unfold getGitHubRepoFromWorkingDir.
  rewrite runM_bind, runM_getGitRemoteUrl. cbv zeta.
  destruct (env log _ _) as [r|content]; [done|].
  destruct (scanLines _ _) as [url|]; [|done].
  by destruct (Str.nonEmpty url).
Qed.

(** X5. Detecting the repository of a working directory never fails: it
    reads the one file [<workingDir>/.git/config], makes no other call,
    leaves the state alone and resolves; to nothing when the file cannot be
    read, and otherwise to nothing or to an [owner/repo] with both names
    non-empty. *)
Theorem git_detection_never_rejects (env : Env) log workingDir (s : S) :
  let path := path_join [workingDir; ".git"; "config"] in
  let answer := env log _ (ReadFile path) in
  exists repo,
    runM env log (getGitHubRepoFromWorkingDir workingDir) s
      = ((Resolved repo, s), (log ++ [Ev (ReadFile path) answer])%list) /\
    (forall r, answer = inl r -> repo = None) /\
    (forall name, repo = Some name -> ownerRepoShape name).
Proof.
  cbv zeta. eexists. split; [apply runM_getGitHubRepoFromWorkingDir|]. cbv zeta.
  split.
  - by intros r ->.
  - intros name. destruct (env log _ _) as [r|content]; [done|].
    destruct (scanLines _ _) as [url|]; [|done].
    destruct (Str.nonEmpty url); [|done].
    intros H. by apply parseGitRemoteUrl_Some, tailOf_ownerRepoShape in H.
Qed.

End WithRuntime.

(** A config file whose only url belongs to the remote [upstream]. *)
Lemma url_outside_origin_witness :
  scanLines [ "[remote " +:+ Str.dquote +:+ "upstream" +:+ Str.dquote +:+ "]";
              "  url = git@github.com:other/fork.git" ] false = None.
Proof.
  apply url_outside_origin_is_ignored.
  intros line Hin. apply list_elem_of_In in Hin. simpl in Hin.
  destruct Hin as [<- | [<- | []]]; by vm_compute.
Defined.

(** A config file with a [core] section, the remote [upstream] and then the
    remote [origin], whose url comes after its fetch line. *)
Lemma first_url_of_origin_witness :
  scanLines
    ([ "[core]";
       "  bare = false";
       "[remote " +:+ Str.dquote +:+ "upstream" +:+ Str.dquote +:+ "]";
       "  url = git@github.com:other/fork.git" ] ++
     ("[remote " +:+ Str.dquote +:+ "origin" +:+ Str.dquote +:+ "]") ::
     [ "  fetch = +refs/heads/*:refs/remotes/origin/*" ] ++
     "  url = https://github.com/acme/widgets.git  " ::
     [ "[branch " +:+ Str.dquote +:+ "main" +:+ Str.dquote +:+ "]";
       "  url = ignored" ])%list false
  = Some "https://github.com/acme/widgets.git".
Proof.
  apply (first_url_of_origin_is_returned
           [ "[core]"; "  bare = false";
             "[remote " +:+ Str.dquote +:+ "upstream" +:+ Str.dquote +:+ "]";
             "  url = git@github.com:other/fork.git" ]
           ("[remote " +:+ Str.dquote +:+ "origin" +:+ Str.dquote +:+ "]")
           [ "  fetch = +refs/heads/*:refs/remotes/origin/*" ]
           "  url = https://github.com/acme/widgets.git  ").
  - intros line Hin. apply list_elem_of_In in Hin. simpl in Hin.
    destruct Hin as [<- | [<- | [<- | [<- | []]]]]; by vm_compute.
  - reflexivity.
  - intros line Hin. apply list_elem_of_In in Hin. simpl in Hin.
    destruct Hin as [<- | []]. by vm_compute.
  - reflexivity.
Defined.

End GitConfigFacts.

(** ** src/config.ts *)

Module ConfigFacts.
Import Js Types Configuration Props.

Lemma stripTrailingSlash_cons c s :
  s <> "" -> stripTrailingSlash (String c s) = String c (stripTrailingSlash s).
Proof. by destruct s. Qed.

(** One trailing slash goes, and nothing else changes. *)
Lemma stripTrailingSlash_cases s :
  s = stripTrailingSlash s +:+ "/" \/ (stripTrailingSlash s = s /\ ~ endsWith s "/").
Proof.
  induction s as [|c s IH].
  - right. split; [done|]. by intros [[|? ?] ?].
  - destruct s as [|d s].
    + cbn [stripTrailingSlash]. case_bool_decide as Hc; [subst c; by left|].
      right. split; [done|]. intros [[|x [|? ?]] Hstem]; [|done|done].
      by injection Hstem as ->.
    + rewrite stripTrailingSlash_cons by done.
      destruct IH as [IH | [IH Hends]].
      * left. by rewrite append_cons, <- IH.
      * right. rewrite IH. split; [done|].
        intros [[|x stem] Hstem]; [done|].
        rewrite append_cons in Hstem. injection Hstem as _ Hstem.
        apply Hends. by exists stem.
Qed.

Lemma stripTrailingSlash_empty s : stripTrailingSlash s = "" <-> s = "" \/ s = "/".
Proof.
  split; [|by intros [-> | ->]].
  destruct s as [|c s]; [by left|]. destruct s as [|d s].
  - cbn [stripTrailingSlash]. case_bool_decide as Hc; [|done]. subst c. by right.
  - by rewrite stripTrailingSlash_cons.
Qed.

(** The URL [loadConfig] starts from: the variable, or the default when the
    variable is unset or empty. *)
Lemma loadConfig_inr env config :
  loadConfig env = inr config ->
  exists url,
    (env "SPECMANAGER_API_URL" = Some url \/
     truthyStr (env "SPECMANAGER_API_URL") = false /\ url = "https://api.specmanager.ai/") /\
    url <> "" /\
    Api.config_apiUrl config = stripTrailingSlash url /\
    truthyStr (env "SPECMANAGER_API_KEY") = true /\
    env "SPECMANAGER_API_KEY" = Some (Api.config_apiKey config) /\
    Api.config_projectId config = env "SPECMANAGER_PROJECT_ID".
Proof.
  unfold loadConfig.
  set (url := if truthyStr (env "SPECMANAGER_API_URL")
              then Api.interpolate (env "SPECMANAGER_API_URL")
              else "https://api.specmanager.ai/").
  assert (Str.nonEmpty url = true) as Hne.
  { subst url. destruct (env "SPECMANAGER_API_URL") as [u|]; [|done].
    cbn [truthyStr Api.interpolate default]. by destruct (Str.nonEmpty u) eqn:Hu. }
  rewrite Hne. cbn [negb].
  destruct (truthyStr (env "SPECMANAGER_API_KEY")) eqn:Hkey; [|done].
  cbn [negb]. intros [= <-]. exists url. cbn.
  split; [|split; [|split; [done|split; [done|split; [|done]]]]].
  - subst url. destruct (env "SPECMANAGER_API_URL") as [u|]; [|by right].
    cbn [truthyStr Api.interpolate default]. destruct (Str.nonEmpty u); [by left|by right].
  - intros Hempty. by rewrite Hempty in Hne.
  - by destruct (env "SPECMANAGER_API_KEY").
Qed.

(** X6. Loading the configuration fails exactly when the API key is unset or
    empty, and then with [NOT_CONFIGURED] and the message about the key: the
    URL has a default, so the test on it never fires.  A loaded
    configuration carries the key and the project of the environment, and
    the URL without one trailing slash. *)
Theorem loadConfig_fails_only_without_the_key env :
  (truthyStr (env "SPECMANAGER_API_KEY") = false <->
   loadConfig env
   = inl (notConfigured "SPECMANAGER_API_KEY environment variable is required")) /\
  (forall e, loadConfig env = inl e ->
     e = notConfigured "SPECMANAGER_API_KEY environment variable is required") /\
  (forall config, loadConfig env = inr config ->
     env "SPECMANAGER_API_KEY" = Some (Api.config_apiKey config) /\
     Api.config_projectId config = env "SPECMANAGER_PROJECT_ID" /\
     exists url,
       (env "SPECMANAGER_API_URL" = Some url \/
        truthyStr (env "SPECMANAGER_API_URL") = false /\ url = "https://api.specmanager.ai/") /\
       (url = Api.config_apiUrl config +:+ "/" \/
        url = Api.config_apiUrl config /\ ~ endsWith url "/")).
Proof.
  assert (forall e, loadConfig env = inl e ->
            truthyStr (env "SPECMANAGER_API_KEY") = false /\
            e = notConfigured "SPECMANAGER_API_KEY environment variable is required") as Hinl.
  { unfold loadConfig. intros e.
    assert (Str.nonEmpty (if truthyStr (env "SPECMANAGER_API_URL")
                          then Api.interpolate (env "SPECMANAGER_API_URL")
                          else "https://api.specmanager.ai/") = true) as ->.
    { destruct (env "SPECMANAGER_API_URL") as [url|]; [|done].
      cbn [truthyStr Api.interpolate default]. by destruct (Str.nonEmpty url) eqn:Hne. }
    cbn [negb]. destruct (truthyStr (env "SPECMANAGER_API_KEY")); [done|].
    by intros [= <-]. }
  split; [|split].
  - split.
    + intros Hkey. destruct (loadConfig env) as [e|config] eqn:Hload.
      * by destruct (Hinl e eq_refl) as [_ ->].
      * apply loadConfig_inr in Hload as (? & _ & _ & _ & Htrue & _). congruence.
    + intros Hload. by destruct (Hinl _ Hload).
  - intros e Hload. by destruct (Hinl e Hload).
  - intros config (url & Hurl & Hne & Hstrip & _ & Hkey & Hproject)%loadConfig_inr.
    split; [done|]. split; [done|]. exists url. split; [done|].
    rewrite Hstrip.
    destruct (stripTrailingSlash_cases url) as [Hslash | [-> Hends]]; [by left|by right].
Qed.

(** X7. A loaded configuration passes [validateConfig] unless the URL
    variable is the single slash: removing the trailing slash then leaves
    an empty URL, which [loadConfig] returns all the same. *)
Theorem loaded_config_is_valid_unless_url_is_a_slash env config :
  loadConfig env = inr config ->
  (validateConfig (asPartial config) = false <-> env "SPECMANAGER_API_URL" = Some "/").
Proof.
  intros (url & Hurl & Hne & Hstrip & Htrue & Hkey & _)%loadConfig_inr.
  unfold validateConfig, asPartial. cbn [partial_apiUrl partial_apiKey].
  rewrite Hkey in Htrue. rewrite Htrue, andb_true_r.
  cbn [truthyStr]. unfold Str.nonEmpty. rewrite negb_false_iff, bool_decide_eq_true.
  rewrite Hstrip, stripTrailingSlash_empty.
  split.
  - intros [-> | ->]; [done|]. destruct Hurl as [Hurl | [_ Hurl]]; [done|discriminate Hurl].
  - intros Hslash. right. destruct Hurl as [Hurl | [Hfalse _]]; [congruence|].
    by rewrite Hslash in Hfalse.
Qed.

Lemma loaded_config_witness :
  validateConfig
    (asPartial {| Api.config_apiUrl := ""; Api.config_apiKey := "key-1";
                  Api.config_projectId := None |}) = false.
Proof.
  apply (loaded_config_is_valid_unless_url_is_a_slash
           (fun name => if bool_decide (name = "SPECMANAGER_API_URL") then Some "/"
                        else if bool_decide (name = "SPECMANAGER_API_KEY") then Some "key-1"
                        else None)
           {| Api.config_apiUrl := ""; Api.config_apiKey := "key-1";
              Api.config_projectId := None |});
    reflexivity.
Defined.

End ConfigFacts.

(** ** What a program leaves of the state it runs on *)

Module KeepFacts.
Import Js Types Effects Observe RunFacts ApiFacts Props.

Section Closure.
Context {rt : Runtime} {S : Type} (R : S -> S -> Prop).
Hypothesis R_refl : forall s, R s s.
Hypothesis R_trans : forall a b c, R a b -> R b c -> R a c.

Lemma preserves_ret {A} (a : A) : preserves R (ret a).
Proof. intros env log s. apply R_refl. Qed.

Lemma preserves_throw {A} e : preserves R (throw (A := A) e).
Proof. intros env log s. apply R_refl. Qed.

Lemma preserves_get : preserves R get.
Proof. intros env log s. apply R_refl. Qed.

Lemma preserves_perform {X} (e : Eff X) : preserves R (perform e).
Proof. intros env log s. apply R_refl. Qed.

Lemma preserves_modify (f : S -> S) : (forall s, R s (f s)) -> preserves R (modify f).
Proof. intros Hf env log s. apply Hf. Qed.

Lemma preserves_bind {A B} (m : M S A) (f : A -> M S B) :
  preserves R m -> (forall a, preserves R (f a)) -> preserves R (bind m f).
Proof.
  intros Hm Hf env log s. rewrite runM_bind. specialize (Hm env log s).
  destruct (runM env log m s) as [[[a|e] s'] log']; unfold stateOf in *; cbn in *.
  - eapply R_trans; [exact Hm|apply Hf].
  - exact Hm.
Qed.

Lemma preserves_await {X} (e : Eff (Rejection + X)) : preserves R (await e).
Proof. intros env log s. rewrite runM_await. apply R_refl. Qed.

Lemma preserves_try_catch {A} (m : M S A) (h : Thrown -> M S A) :
  preserves R m -> (forall e, preserves R (h e)) -> preserves R (try_catch m h).
Proof.
  intros Hm Hh env log s. rewrite runM_try_catch. specialize (Hm env log s).
  destruct (runM env log m s) as [[[a|e] s'] log']; unfold stateOf in *; cbn in *.
  - exact Hm.
  - eapply R_trans; [exact Hm|apply Hh].
Qed.

Lemma preserves_try_finally {A} (m : M S A) (fin : M S unit) :
  preserves R m -> preserves R fin -> preserves R (try_finally m fin).
Proof.
  intros Hm Hfin env log s. rewrite runM_try_finally. specialize (Hm env log s).
  destruct (runM env log m s) as [[o s'] log']. specialize (Hfin env log' s').
  destruct (runM env log' fin s') as [[[[]|e] s''] log'']; unfold stateOf in *; cbn in *;
    eapply R_trans; eauto.
Qed.

End Closure.

(** One step of a proof that a program preserves a relation. *)
Ltac keep_step refl trans :=
  first
    [ apply (preserves_ret _ refl)
    | apply (preserves_throw _ refl)
    | apply (preserves_get _ refl)
    | apply (preserves_perform _ refl)
    | apply (preserves_await _ refl)
    | apply (preserves_bind _ trans); [|intros ?]
    | apply (preserves_try_catch _ trans); [|intros ?]
    | apply (preserves_try_finally _ trans)
    | match goal with
      | |- preserves _ (match ?x with _ => _ end) => destruct x
      end ].

(** The same for the calls a program makes. *)
Section Calls.
Context {rt : Runtime} {S : Type} (P : Event -> Prop).

Lemma emits_nothing {A} (m : M S A) :
  (forall env log s, logOf (runM env log m s) = log) -> emits P m.
Proof. intros Hm env log s. exists []. by rewrite Hm, app_nil_r. Qed.

Lemma emits_ret {A} (a : A) : emits (S := S) P (ret a).
Proof. by apply emits_nothing. Qed.

Lemma emits_throw {A} e : emits (S := S) P (throw (A := A) e).
Proof. by apply emits_nothing. Qed.

Lemma emits_get : emits (S := S) P get.
Proof. by apply emits_nothing. Qed.

Lemma emits_modify (f : S -> S) : emits P (modify f).
Proof. by apply emits_nothing. Qed.

Lemma emits_perform {X} (e : Eff X) :
  (forall x, P (Ev e x)) -> emits (S := S) P (perform e).
Proof.
  intros He env log s. rewrite runM_perform. exists [Ev e (env log X e)].
  split; [done|]. by constructor.
Qed.

Lemma emits_await {X} (e : Eff (Rejection + X)) :
  (forall x, P (Ev e x)) -> emits (S := S) P (await e).
Proof.
  intros He env log s. rewrite runM_await. exists [Ev e (env log _ e)].
  split; [done|]. by constructor.
Qed.

Lemma emits_bind {A B} (m : M S A) (f : A -> M S B) :
  emits P m -> (forall a, emits P (f a)) -> emits P (bind m f).
Proof.
  intros Hm Hf env log s. rewrite runM_bind.
  destruct (Hm env log s) as (added & Hlog & Hadded).
  destruct (runM env log m s) as [[[a|e] s'] log']; unfold logOf in Hlog; cbn [snd] in Hlog;
    subst log'.
  - destruct (Hf a env (log ++ added)%list s') as (more & Hlog & Hmore).
    exists (added ++ more)%list. rewrite app_assoc. split; [exact Hlog|by apply Forall_app].
  - by exists added.
Qed.

Lemma emits_try_catch {A} (m : M S A) (h : Thrown -> M S A) :
  emits P m -> (forall e, emits P (h e)) -> emits P (try_catch m h).
Proof.
  intros Hm Hh env log s. rewrite runM_try_catch.
  destruct (Hm env log s) as (added & Hlog & Hadded).
  destruct (runM env log m s) as [[[a|e] s'] log']; unfold logOf in Hlog; cbn [snd] in Hlog;
    subst log'.
  - by exists added.
  - destruct (Hh e env (log ++ added)%list s') as (more & Hlog & Hmore).
    exists (added ++ more)%list. rewrite app_assoc. split; [exact Hlog|by apply Forall_app].
Qed.

Lemma emits_try_finally {A} (m : M S A) (fin : M S unit) :
  emits P m -> emits P fin -> emits P (try_finally m fin).
Proof.
  intros Hm Hfin env log s. rewrite runM_try_finally.
  destruct (Hm env log s) as (added & Hlog & Hadded).
  destruct (runM env log m s) as [[o s'] log']; unfold logOf in Hlog; cbn [snd] in Hlog;
    subst log'.
  destruct (Hfin env (log ++ added)%list s') as (more & Hlog & Hmore).
  destruct (runM env (log ++ added)%list fin s') as [[[[]|e] s''] log''];
    unfold logOf in Hlog; cbn [snd] in Hlog; subst log'';
    exists (added ++ more)%list; rewrite app_assoc; (split; [done|]); by apply Forall_app.
Qed.

End Calls.

(** One step of a proof that a program makes only calls that satisfy the
    property; [side] shows that a call satisfies it. *)
Ltac emit_step side :=
  first
    [ apply emits_ret
    | apply emits_throw
    | apply emits_get
    | apply emits_modify
    | apply emits_perform; side
    | apply emits_await; side
    | apply emits_bind; [|intros ?]
    | apply emits_try_catch; [|intros ?]
    | apply emits_try_finally
    | match goal with
      | |- emits _ (match ?x with _ => _ end) => destruct x
      end ].

Section Programs.
Context {rt : Runtime}.

Lemma preserves_weaken {S A} (R : S -> S -> Prop) (m : M S A) :
  (forall s, R s s) -> preserves eq m -> preserves R m.
Proof. intros Hrefl Hm env log s. rewrite <- (Hm env log s). apply Hrefl. Qed.

End Programs.

End KeepFacts.

(** ** src/tools/list-tasks.ts and list-specs.ts: every path of the handlers *)

Module ListingFacts.
Import Js Types Effects Observe RunFacts ApiFacts ScopeFacts GitConfigFacts Props Tools.
Section WithRuntime.
Context {rt : Runtime}.

Lemma runM_getProjectByRepo (env : Env) log repoFullName (this : Api.TaskApiClient) :
  runM env log (Api.getProjectByRepo repoFullName) this
  = let req := sentRequest this "GET"
                 ("/projects/by-repo?repo=" +:+ encodeURIComponent repoFullName) None in
    let answer := env log _ (Fetch GetProjectByRepoResponse req) in
    ((match roundTrip answer with
      | Resolved project => Resolved (Some project)
      | Rejected (ThrownMCP e) =>
          match code e with
          | PROJECT_NOT_FOUND => Resolved None
          | _ => Rejected (ThrownMCP e)
          end
      | Rejected e => Rejected e
      end, this),
     (log ++ [Ev (Fetch GetProjectByRepoResponse req) answer])%list).
Proof.
  cbv zeta. unfold Api.getProjectByRepo.
  rewrite runM_try_catch, runM_bind, runM_request. cbv zeta.
  destruct (roundTrip _) as [project|[e| | |]]; try done.
  by destruct (code e).
Qed.

(** The detection block is skipped when a project is given or no working
    directory is. *)
Lemma runM_detect_skipped (env : Env) log p wd (this : Api.TaskApiClient) :
  truthyStr p = true \/ truthyStr wd = false ->
  runM env log (detectFromWorkingDir p wd) this
  = ((Resolved (Detected p None false), this), log).
Proof.
  intros H. unfold detectFromWorkingDir.
  by destruct H as [-> | ->]; [|rewrite andb_false_r].
Qed.

Lemma runM_detect_from (env : Env) log p wd (this : Api.TaskApiClient) :
  truthyStr p = false -> truthyStr wd = true ->
  runM env log (detectFromWorkingDir p wd) this
  = match runM env log (Git.getGitHubRepoFromWorkingDir (Api.interpolate wd)) this with
    | ((Resolved repo, s), log1) =>
        if truthyStr repo then
          match runM env log1 (Api.getProjectByRepo (Api.interpolate repo)) s with
          | ((Resolved (Some project), s'), log2) =>
              ((Resolved (Detected (Some (project_id project)) (Some (project_name project))
                            true), s'), log2)
          | ((Resolved None, s'), log2) =>
              ((Resolved (Return (noProjectForRepo (Api.interpolate repo))), s'), log2)
          | ((Rejected e, s'), log2) => ((Rejected e, s'), log2)
          end
        else ((Resolved (Return (noRepoDetected (Api.interpolate wd))), s), log1)
    | ((Rejected e, s), log1) => ((Rejected e, s), log1)
    end.
Proof.
  intros Hp Hwd. unfold detectFromWorkingDir. rewrite Hp, Hwd. cbn [negb andb].
  rewrite runM_bind.
  destruct (runM env log (Git.getGitHubRepoFromWorkingDir _) this) as [[[repo|e] s] log1];
    [|done].
  destruct (truthyStr repo); [|reflexivity].
  rewrite runM_bind.
  by destruct (runM env log1 (Api.getProjectByRepo _) s) as [[[[project|]|e] s'] log2].
Qed.

(** The detection block leaves the client as it found it. *)
Lemma detect_keeps_client (env : Env) log p wd (this : Api.TaskApiClient) :
  stateOf (runM env log (detectFromWorkingDir p wd) this) = this.
Proof.
  destruct (truthyStr p) eqn:Hp; [by rewrite runM_detect_skipped by auto|].
  destruct (truthyStr wd) eqn:Hwd; [|by rewrite runM_detect_skipped by auto].
  rewrite runM_detect_from, runM_getGitHubRepoFromWorkingDir by done. cbv zeta.
  clear Hp Hwd. destruct (truthyStr _); [|reflexivity].
  rewrite runM_getProjectByRepo. cbv zeta.
  destruct (roundTrip _) as [project|[e| | |]]; try reflexivity.
  destruct (code e); reflexivity.
Qed.

(** A truthy [string | undefined] read as a string. *)
Lemma truthyStr_Some p :
  truthyStr p = true -> exists x, p = Some x /\ Str.nonEmpty x = true.
Proof. destruct p as [x|]; [|done]. intros H. by exists x. Qed.

(** [handleListTasks] once the detection block is over. *)
Lemma runM_handleListTasks (env : Env) log (input : ListTasks.ListTasksInput)
    (this : Api.TaskApiClient) :
  runM env log (ListTasks.handleListTasks input) this
  = match runM env log (detectFromWorkingDir (ListTasks.projectId input)
                          (ListTasks.workingDir input)) this with
    | ((Rejected e, s), log') => ((Rejected e, s), log')
    | ((Resolved (Return text), s), log') => ((Resolved text, s), log')
    | ((Resolved (Detected p projectName detectedFromRepo), s), log') =>
        let original := Api.projectId s in
        let chosen := if truthyStr p then p else original in
        if truthyStr chosen then
          let req := sentRequest (scoped s chosen) "GET"
                       (tasksPath (Api.interpolate chosen) (ListTasks.status input)
                          (ListTasks.specId input)) None in
          let answer := env log' _ (Fetch ListTasksResponse req) in
          ((match roundTrip answer with
            | Resolved tasks =>
                Resolved (ListTasks.render input projectName detectedFromRepo tasks)
            | Rejected e => Rejected e
            end,
            scoped s
              (match roundTrip answer with
               | Resolved _ => if truthyStr original then original else Some ""
               | Rejected _ => if truthyStr original then original else chosen
               end)),
           (log' ++ [Ev (Fetch ListTasksResponse req) answer])%list)
        else ((Resolved noProjectSpecified, s), log')
    end.
Proof.
  unfold ListTasks.handleListTasks. rewrite runM_bind.
  destruct (runM env log (detectFromWorkingDir _ _) this) as [[[[text|p n b]|e] s] log'];
    [done| |done].
  cbv zeta. rewrite runM_bind.
  assert (runM env log'
            (if negb (truthyStr p) then Api.getProjectId else ret p) s
          = ((Resolved (if truthyStr p then p else Api.projectId s), s), log')) as ->.
  { by destruct (truthyStr p). }
  set (chosen := if truthyStr p then p else Api.projectId s).
  destruct (truthyStr chosen) eqn:Hchosen; cbn [negb]; [|done].
  destruct (truthyStr_Some _ Hchosen) as (x & Hx & Hne). rewrite Hx.
  rewrite runM_bind, runM_getProjectId. rewrite runM_bind, runM_setProjectId.
  rewrite runM_try_finally, runM_bind.
  rewrite (runM_listTasks_scoped _ _ _ _ _ x); [|done|done].
  rewrite runM_request. cbn [Api.interpolate default].
  destruct (roundTrip _) as [tasks|e].
  - rewrite runM_bind, runM_setProjectId, runM_ret.
    destruct (Api.projectId s) as [a|] eqn:Ha; simpl; [|reflexivity].
    destruct (Str.nonEmpty a) eqn:Hna; simpl; [reflexivity|].
    unfold Str.nonEmpty in Hna.
    apply negb_false_iff, bool_decide_eq_true in Hna as ->. reflexivity.
  - destruct (Api.projectId s) as [a|] eqn:Ha; simpl; [|reflexivity].
    destruct (Str.nonEmpty a) eqn:Hna; reflexivity.
Qed.

(** [handleListSpecs] once the detection block is over. *)
Lemma runM_handleListSpecs (env : Env) log (input : ListSpecs.ListSpecsInput)
    (this : Api.TaskApiClient) :
  runM env log (ListSpecs.handleListSpecs input) this
  = match runM env log (detectFromWorkingDir (ListSpecs.projectId input)
                          (ListSpecs.workingDir input)) this with
    | ((Rejected e, s), log') => ((Rejected e, s), log')
    | ((Resolved (Return text), s), log') => ((Resolved text, s), log')
    | ((Resolved (Detected p projectName detectedFromRepo), s), log') =>
        let original := Api.projectId s in
        let chosen := if truthyStr p then p else original in
        if truthyStr chosen then
          let req := sentRequest (scoped s chosen) "GET"
                       (specsPath (Api.interpolate chosen)) None in
          let answer := env log' _ (Fetch ListSpecsResponse req) in
          ((match roundTrip answer with
            | Resolved specs =>
                Resolved (ListSpecs.render input projectName detectedFromRepo specs)
            | Rejected e => Rejected e
            end,
            scoped s
              (match roundTrip answer with
               | Resolved _ => if truthyStr original then original else Some ""
               | Rejected _ => if truthyStr original then original else chosen
               end)),
           (log' ++ [Ev (Fetch ListSpecsResponse req) answer])%list)
        else ((Resolved noProjectSpecified, s), log')
    end.
Proof.
  unfold ListSpecs.handleListSpecs. rewrite runM_bind.
  destruct (runM env log (detectFromWorkingDir _ _) this) as [[[[text|p n b]|e] s] log'];
    [done| |done].
  cbv zeta. rewrite runM_bind.
  assert (runM env log'
            (if negb (truthyStr p) then Api.getProjectId else ret p) s
          = ((Resolved (if truthyStr p then p else Api.projectId s), s), log')) as ->.
  { by destruct (truthyStr p). }
  set (chosen := if truthyStr p then p else Api.projectId s).
  destruct (truthyStr chosen) eqn:Hchosen; cbn [negb]; [|done].
  destruct (truthyStr_Some _ Hchosen) as (x & Hx & Hne). rewrite Hx.
  rewrite runM_bind, runM_getProjectId. rewrite runM_bind, runM_setProjectId.
  rewrite runM_try_finally, runM_bind.
  rewrite (runM_listSpecs_scoped _ _ _ x); [|done|done].
  rewrite runM_request. cbn [Api.interpolate default].
  destruct (roundTrip _) as [specs|e].
  - rewrite runM_bind, runM_setProjectId, runM_ret.
    destruct (Api.projectId s) as [a|] eqn:Ha; simpl; [|reflexivity].
    destruct (Str.nonEmpty a) eqn:Hna; simpl; [reflexivity|].
    unfold Str.nonEmpty in Hna.
    apply negb_false_iff, bool_decide_eq_true in Hna as ->. reflexivity.
  - destruct (Api.projectId s) as [a|] eqn:Ha; simpl; [|reflexivity].
    destruct (Str.nonEmpty a) eqn:Hna; reflexivity.
Qed.

Lemma fetches_app (l1 l2 : list Event) : fetches (l1 ++ l2)%list = (fetches l1 ++ fetches l2)%list.
Proof. apply flat_map_app. Qed.

(** What the detection finds is a repository name, hence not empty. *)
Lemma detected_repo_nonEmpty (env : Env) log wd repo (this : Api.TaskApiClient) :
  outcomeOf (runM env log (Git.getGitHubRepoFromWorkingDir wd) this) = Resolved (Some repo) ->
  Str.nonEmpty repo = true.
Proof.
  rewrite runM_getGitHubRepoFromWorkingDir. cbv zeta. unfold outcomeOf. cbn [fst].
  destruct (env log _ _) as [r|content]; [done|].
  destruct (Git.scanLines _ _) as [url|]; [|done].
  destruct (Str.nonEmpty url); [|done].
  intros [= H]. apply GitFacts.parseGitRemoteUrl_Some, GitFacts.tailOf_ownerRepoShape in H
    as (owner & r & -> & Ho & _).
  by destruct owner.
Qed.

(** X8. A session scope that is set survives every invocation of
    list-tasks and list-specs: whatever the input (explicit project,
    detection from a working directory, or neither) and whatever the
    backend and the file system answer, the client is afterwards as it was
    before. *)
Theorem scope_survives_every_listing (env : Env) log
    (inputT : ListTasks.ListTasksInput) (inputS : ListSpecs.ListSpecsInput)
    (this : Api.TaskApiClient) :
  truthyStr (Api.projectId this) = true ->
  stateOf (runM env log (ListTasks.handleListTasks inputT) this) = this /\
  stateOf (runM env log (ListSpecs.handleListSpecs inputS) this) = this.
Proof.
  intros Ht. split.
  - rewrite runM_handleListTasks.
    pose proof (detect_keeps_client env log (ListTasks.projectId inputT)
                  (ListTasks.workingDir inputT) this) as Hkeep.
    destruct (runM env log (detectFromWorkingDir _ _) this) as [[[[text|p n b]|e] s] log'];
      unfold stateOf in *; cbn [fst snd] in *; subst s; [done| |done].
    cbv zeta. rewrite Ht.
    destruct (truthyStr (if truthyStr p then p else Api.projectId this)); [|done].
    cbn [fst snd]. destruct (roundTrip _); apply scoped_same.
  - rewrite runM_handleListSpecs.
    pose proof (detect_keeps_client env log (ListSpecs.projectId inputS)
                  (ListSpecs.workingDir inputS) this) as Hkeep.
    destruct (runM env log (detectFromWorkingDir _ _) this) as [[[[text|p n b]|e] s] log'];
      unfold stateOf in *; cbn [fst snd] in *; subst s; [done| |done].
    cbv zeta. rewrite Ht.
    destruct (truthyStr (if truthyStr p then p else Api.projectId this)); [|done].
    cbn [fst snd]. destruct (roundTrip _); apply scoped_same.
Qed.

(** X9. With no project in the input, no working directory and no session
    scope, list-tasks and list-specs answer with the guidance text: nothing
    is asked of the backend or of the file system and the client is left
    alone. *)
Theorem no_project_anywhere_gives_guidance (env : Env) log
    (inputT : ListTasks.ListTasksInput) (inputS : ListSpecs.ListSpecsInput)
    (this : Api.TaskApiClient) :
  truthyStr (ListTasks.projectId inputT) = false ->
  truthyStr (ListTasks.workingDir inputT) = false ->
  truthyStr (ListSpecs.projectId inputS) = false ->
  truthyStr (ListSpecs.workingDir inputS) = false ->
  truthyStr (Api.projectId this) = false ->
  runM env log (ListTasks.handleListTasks inputT) this
    = ((Resolved noProjectSpecified, this), log) /\
  runM env log (ListSpecs.handleListSpecs inputS) this
    = ((Resolved noProjectSpecified, this), log).
Proof.
  intros HpT HwT HpS HwS Hscope. split.
  - rewrite runM_handleListTasks, runM_detect_skipped by auto.
    cbv zeta. by rewrite HpT, Hscope.
  - rewrite runM_handleListSpecs, runM_detect_skipped by auto.
    cbv zeta. by rewrite HpS, Hscope.
Qed.

(** X10. With no project in the input and no working directory, the session
    scope is the project: one request is made for its tasks (its specs)
    with the client as it is, the result or the failure of that request is
    the result of the tool, and the client is unchanged. *)
Theorem session_scope_is_the_fallback (env : Env) log
    (inputT : ListTasks.ListTasksInput) (inputS : ListSpecs.ListSpecsInput) A
    (this : Api.TaskApiClient) :
  truthyStr (ListTasks.projectId inputT) = false ->
  truthyStr (ListTasks.workingDir inputT) = false ->
  truthyStr (ListSpecs.projectId inputS) = false ->
  truthyStr (ListSpecs.workingDir inputS) = false ->
  Api.projectId this = Some A -> Str.nonEmpty A = true ->
  let tasksReq := sentRequest this "GET"
                    (tasksPath A (ListTasks.status inputT) (ListTasks.specId inputT)) None in
  let tasksAnswer := env log _ (Fetch ListTasksResponse tasksReq) in
  let specsReq := sentRequest this "GET" (specsPath A) None in
  let specsAnswer := env log _ (Fetch ListSpecsResponse specsReq) in
  runM env log (ListTasks.handleListTasks inputT) this
    = ((match roundTrip tasksAnswer with
        | Resolved tasks => Resolved (ListTasks.render inputT None false tasks)
        | Rejected e => Rejected e
        end, this),
       (log ++ [Ev (Fetch ListTasksResponse tasksReq) tasksAnswer])%list) /\
  runM env log (ListSpecs.handleListSpecs inputS) this
    = ((match roundTrip specsAnswer with
        | Resolved specs => Resolved (ListSpecs.render inputS None false specs)
        | Rejected e => Rejected e
        end, this),
       (log ++ [Ev (Fetch ListSpecsResponse specsReq) specsAnswer])%list).
Proof.
  intros HpT HwT HpS HwS Hscope Hne. cbv zeta.
  assert (truthyStr (Some A) = true) as Ht by exact Hne.
  assert (scoped this (Some A) = this) as Hsame by (rewrite <- Hscope; apply scoped_same).
  split.
  - rewrite runM_handleListTasks, runM_detect_skipped by auto.
    cbv zeta. rewrite HpT, Hscope, Ht. cbn [Api.interpolate default].
    destruct (roundTrip _); by rewrite !Hsame.
  - rewrite runM_handleListSpecs, runM_detect_skipped by auto.
    cbv zeta. rewrite HpS, Hscope, Ht. cbn [Api.interpolate default].
    destruct (roundTrip _); by rewrite !Hsame.
Qed.

(** X11. With a working directory and no project in the input, when no
    repository is detected in the directory, list-tasks and list-specs
    answer with the text that says so: the config file was read, nothing was
    asked of the backend, and the session scope is not used as a fallback. *)
Theorem undetected_repository_gives_guidance (env : Env) log
    (inputT : ListTasks.ListTasksInput) (inputS : ListSpecs.ListSpecsInput) wd
    (this : Api.TaskApiClient) :
  truthyStr (ListTasks.projectId inputT) = false -> ListTasks.workingDir inputT = Some wd ->
  truthyStr (ListSpecs.projectId inputS) = false -> ListSpecs.workingDir inputS = Some wd ->
  Str.nonEmpty wd = true ->
  let detection := runM env log (Git.getGitHubRepoFromWorkingDir wd) this in
  outcomeOf detection = Resolved None ->
  runM env log (ListTasks.handleListTasks inputT) this
    = ((Resolved (noRepoDetected wd), this), logOf detection) /\
  runM env log (ListSpecs.handleListSpecs inputS) this
    = ((Resolved (noRepoDetected wd), this), logOf detection) /\
  fetches (logOf detection) = fetches log.
Proof.
  intros HpT HwT HpS HwS Hne. cbv zeta. intros Hnone.
  assert (truthyStr (Some wd) = true) as Ht by exact Hne.
  assert (runM env log (Git.getGitHubRepoFromWorkingDir wd) this
          = ((Resolved None, this),
             logOf (runM env log (Git.getGitHubRepoFromWorkingDir wd) this))) as Hrun.
  { revert Hnone. rewrite runM_getGitHubRepoFromWorkingDir. cbv zeta.
    unfold outcomeOf, logOf. cbn [fst snd]. by intros [= ->]. }
  split; [|split].
  - rewrite runM_handleListTasks, HwT, runM_detect_from by done.
    change (Api.interpolate (Some wd)) with wd. rewrite Hrun. reflexivity.
  - rewrite runM_handleListSpecs, HwS, runM_detect_from by done.
    change (Api.interpolate (Some wd)) with wd. rewrite Hrun. reflexivity.
  - rewrite runM_getGitHubRepoFromWorkingDir. cbv zeta. unfold logOf. cbn [snd].
    rewrite fetches_app. cbn. by rewrite app_nil_r.
Qed.

(** X12. With a working directory in which a repository is detected, a
    failed lookup of its project ends the listing: on [PROJECT_NOT_FOUND] the
    tool answers with the text that names the repository, on any other
    failure it fails with it.  The lookup is the only request made, and the
    client is unchanged. *)
Theorem failed_lookup_ends_the_listing (env : Env) log
    (inputT : ListTasks.ListTasksInput) (inputS : ListSpecs.ListSpecsInput) wd repo e
    (this : Api.TaskApiClient) :
  truthyStr (ListTasks.projectId inputT) = false -> ListTasks.workingDir inputT = Some wd ->
  truthyStr (ListSpecs.projectId inputS) = false -> ListSpecs.workingDir inputS = Some wd ->
  Str.nonEmpty wd = true ->
  let detection := runM env log (Git.getGitHubRepoFromWorkingDir wd) this in
  let lookup := sentRequest this "GET"
                  ("/projects/by-repo?repo=" +:+ encodeURIComponent repo) None in
  let answer := env (logOf detection) _ (Fetch GetProjectByRepoResponse lookup) in
  outcomeOf detection = Resolved (Some repo) ->
  roundTrip answer = Rejected e ->
  let outcome :=
    match failureKind (Rejected (A := string) e) with
    | Some PROJECT_NOT_FOUND => Resolved (noProjectForRepo repo)
    | _ => Rejected e
    end in
  let history := (logOf detection ++ [Ev (Fetch GetProjectByRepoResponse lookup) answer])%list in
  runM env log (ListTasks.handleListTasks inputT) this = ((outcome, this), history) /\
  runM env log (ListSpecs.handleListSpecs inputS) this = ((outcome, this), history).
Proof.
  intros HpT HwT HpS HwS Hne. cbv zeta. intros Hsome Hanswer.
  assert (truthyStr (Some wd) = true) as Ht by exact Hne.
  assert (truthyStr (Some repo) = true) as Hrepo by exact (detected_repo_nonEmpty _ _ _ _ _ Hsome).
  assert (runM env log (Git.getGitHubRepoFromWorkingDir wd) this
          = ((Resolved (Some repo), this),
             logOf (runM env log (Git.getGitHubRepoFromWorkingDir wd) this))) as Hrun.
  { revert Hsome. rewrite runM_getGitHubRepoFromWorkingDir. cbv zeta.
    unfold outcomeOf, logOf. cbn [fst snd]. by intros [= ->]. }
  split.
  - rewrite runM_handleListTasks, HwT, runM_detect_from by done.
    change (Api.interpolate (Some wd)) with wd. rewrite Hrun, Hrepo.
    change (Api.interpolate (Some repo)) with repo. rewrite runM_getProjectByRepo. cbv zeta.
    rewrite Hanswer. destruct e as [err| | |]; try reflexivity. cbn [failureKind].
    destruct (code err); reflexivity.
  - rewrite runM_handleListSpecs, HwS, runM_detect_from by done.
    change (Api.interpolate (Some wd)) with wd. rewrite Hrun, Hrepo.
    change (Api.interpolate (Some repo)) with repo. rewrite runM_getProjectByRepo. cbv zeta.
    rewrite Hanswer. destruct e as [err| | |]; try reflexivity. cbn [failureKind].
    destruct (code err); reflexivity.
Qed.

(** X13. With a working directory whose repository is linked to a project,
    the tasks of that project are listed: after the lookup, one request is
    made for the tasks of the project found, by the client scoped to it, and
    the text is rendered with the name of the detected project. *)
Theorem detected_project_is_listed (env : Env) log (input : ListTasks.ListTasksInput)
    wd repo project (this : Api.TaskApiClient) :
  truthyStr (ListTasks.projectId input) = false -> ListTasks.workingDir input = Some wd ->
  Str.nonEmpty wd = true ->
  let detection := runM env log (Git.getGitHubRepoFromWorkingDir wd) this in
  let lookup := sentRequest this "GET"
                  ("/projects/by-repo?repo=" +:+ encodeURIComponent repo) None in
  let found := env (logOf detection) _ (Fetch GetProjectByRepoResponse lookup) in
  outcomeOf detection = Resolved (Some repo) ->
  roundTrip found = Resolved project -> Str.nonEmpty (project_id project) = true ->
  let history := (logOf detection ++ [Ev (Fetch GetProjectByRepoResponse lookup) found])%list in
  let req := sentRequest (scoped this (Some (project_id project))) "GET"
               (tasksPath (project_id project) (ListTasks.status input)
                  (ListTasks.specId input)) None in
  let answer := env history _ (Fetch ListTasksResponse req) in
  let result := runM env log (ListTasks.handleListTasks input) this in
  outcomeOf result
    = match roundTrip answer with
      | Resolved tasks =>
          Resolved (ListTasks.render input (Some (project_name project)) true tasks)
      | Rejected e => Rejected e
      end /\
  logOf result = (history ++ [Ev (Fetch ListTasksResponse req) answer])%list /\
  sameCredential this (stateOf result).
Proof.
  intros Hp Hw Hne. cbv zeta. intros Hsome Hfound Hid.
  assert (truthyStr (Some wd) = true) as Ht by exact Hne.
  assert (truthyStr (Some repo) = true) as Hrepo by exact (detected_repo_nonEmpty _ _ _ _ _ Hsome).
  assert (truthyStr (Some (project_id project)) = true) as Hproject by exact Hid.
  assert (runM env log (Git.getGitHubRepoFromWorkingDir wd) this
          = ((Resolved (Some repo), this),
             logOf (runM env log (Git.getGitHubRepoFromWorkingDir wd) this))) as Hrun.
  { revert Hsome. rewrite runM_getGitHubRepoFromWorkingDir. cbv zeta.
    unfold outcomeOf, logOf. cbn [fst snd]. by intros [= ->]. }
  rewrite runM_handleListTasks, Hw, runM_detect_from by done.
  change (Api.interpolate (Some wd)) with wd. rewrite Hrun, Hrepo.
  change (Api.interpolate (Some repo)) with repo. rewrite runM_getProjectByRepo. cbv zeta.
  rewrite Hfound. cbv zeta. rewrite Hproject. cbv iota. rewrite Hproject. cbv iota.
  change (Api.interpolate (Some (project_id project))) with (project_id project).
  unfold outcomeOf, logOf, stateOf. cbn [fst snd].
  split; [reflexivity|]. split; [reflexivity|]. by destruct (roundTrip _), (truthyStr _).
Qed.

End WithRuntime.
(** Project B is the session scope; the input names a working directory
    whose repository is linked to project A. *)
Lemma scope_survives_witness :
  stateOf (runM (Cases.worldWith Cases.originConfig Cases.linkedBackend
                   Scenario.quiet Scenario.quiet) []
             (ListTasks.handleListTasks (rt := Scenario.runtime)
                (Cases.listTasksInput None (Some "/work/widgets")))
             (Scenario.client (Some Scenario.projectB)))
    = Scenario.client (Some Scenario.projectB) /\
  stateOf (runM (Cases.worldWith Cases.originConfig Cases.linkedBackend
                   Scenario.quiet Scenario.quiet) []
             (ListSpecs.handleListSpecs (rt := Scenario.runtime)
                (Cases.listSpecsInput None (Some "/work/widgets")))
             (Scenario.client (Some Scenario.projectB)))
    = Scenario.client (Some Scenario.projectB).
Proof.
  exact (scope_survives_every_listing (rt := Scenario.runtime)
           (Cases.worldWith Cases.originConfig Cases.linkedBackend Scenario.quiet Scenario.quiet)
           [] (Cases.listTasksInput None (Some "/work/widgets"))
           (Cases.listSpecsInput None (Some "/work/widgets"))
           (Scenario.client (Some Scenario.projectB)) eq_refl).
Defined.

Lemma no_project_anywhere_witness :
  runM (Scenario.world Scenario.emptyResponse Scenario.quiet) []
    (ListTasks.handleListTasks (rt := Scenario.runtime) (Cases.listTasksInput None None))
    (Scenario.client None)
    = ((Resolved noProjectSpecified, Scenario.client None), []) /\
  runM (Scenario.world Scenario.emptyResponse Scenario.quiet) []
    (ListSpecs.handleListSpecs (rt := Scenario.runtime) (Cases.listSpecsInput None None))
    (Scenario.client None)
    = ((Resolved noProjectSpecified, Scenario.client None), []).
Proof.
  exact (no_project_anywhere_gives_guidance (rt := Scenario.runtime)
           (Scenario.world Scenario.emptyResponse Scenario.quiet) []
           (Cases.listTasksInput None None) (Cases.listSpecsInput None None)
           (Scenario.client None) eq_refl eq_refl eq_refl eq_refl eq_refl).
Defined.

Lemma session_scope_witness :
  outcomeOf
    (runM (Scenario.world Scenario.emptyResponse Scenario.quiet) []
       (ListTasks.handleListTasks (rt := Scenario.runtime) (Cases.listTasksInput None None))
       (Scenario.client (Some Scenario.projectA)))
  = Resolved "No pending tasks found.".
Proof.
  pose proof (session_scope_is_the_fallback (rt := Scenario.runtime)
                (Scenario.world Scenario.emptyResponse Scenario.quiet) []
                (Cases.listTasksInput None None) (Cases.listSpecsInput None None)
                Scenario.projectA (Scenario.client (Some Scenario.projectA))
                eq_refl eq_refl eq_refl eq_refl eq_refl eq_refl) as [H _].
  rewrite H. reflexivity.
Defined.

Lemma undetected_repository_witness :
  outcomeOf
    (runM (Scenario.world Scenario.emptyResponse Scenario.quiet) []
       (ListTasks.handleListTasks (rt := Scenario.runtime)
          (Cases.listTasksInput None (Some "/tmp/empty")))
       (Scenario.client (Some Scenario.projectA)))
  = Resolved (noRepoDetected "/tmp/empty").
Proof.
  pose proof (undetected_repository_gives_guidance (rt := Scenario.runtime)
                (Scenario.world Scenario.emptyResponse Scenario.quiet) []
                (Cases.listTasksInput None (Some "/tmp/empty"))
                (Cases.listSpecsInput None (Some "/tmp/empty"))
                "/tmp/empty" (Scenario.client (Some Scenario.projectA))
                eq_refl eq_refl eq_refl eq_refl eq_refl eq_refl) as [H _].
  rewrite H. reflexivity.
Defined.

Lemma failed_lookup_witness :
  outcomeOf
    (runM (Cases.worldWith Cases.originConfig
             (fun T => Scenario.errorResponse T 404 (Some [("code", JStr "PROJECT_NOT_FOUND")]))
             Scenario.quiet Scenario.quiet) []
       (ListTasks.handleListTasks (rt := Scenario.runtime)
          (Cases.listTasksInput None (Some "/work/widgets")))
       (Scenario.client None))
  = Resolved (noProjectForRepo "acme/widgets").
Proof.
  pose proof (failed_lookup_ends_the_listing (rt := Scenario.runtime)
                (Cases.worldWith Cases.originConfig
                   (fun T => Scenario.errorResponse T 404
                               (Some [("code", JStr "PROJECT_NOT_FOUND")]))
                   Scenario.quiet Scenario.quiet) []
                (Cases.listTasksInput None (Some "/work/widgets"))
                (Cases.listSpecsInput None (Some "/work/widgets"))
                "/work/widgets" "acme/widgets" _ (Scenario.client None)
                eq_refl eq_refl eq_refl eq_refl eq_refl eq_refl eq_refl) as [H _].
  rewrite H. reflexivity.
Defined.

Lemma detected_project_witness :
  outcomeOf
    (runM (Cases.worldWith Cases.originConfig Cases.linkedBackend
             Scenario.quiet Scenario.quiet) []
       (ListTasks.handleListTasks (rt := Scenario.runtime)
          (Cases.listTasksInput None (Some "/work/widgets")))
       (Scenario.client None))
  = Resolved ("No pending tasks found for project " +:+ Str.dquote +:+ "Widgets"
                +:+ Str.dquote +:+ ".").
Proof.
  pose proof (detected_project_is_listed (rt := Scenario.runtime)
                (Cases.worldWith Cases.originConfig Cases.linkedBackend
                   Scenario.quiet Scenario.quiet) []
                (Cases.listTasksInput None (Some "/work/widgets"))
                "/work/widgets" "acme/widgets" Cases.widgets (Scenario.client None)
                eq_refl eq_refl eq_refl eq_refl eq_refl eq_refl) as [H _].
  rewrite H. reflexivity.
Defined.

End ListingFacts.

(** ** src/server.ts: what a tool call does to the client of its session *)

Module ToolFacts.
Import Js Types Effects Observe RunFacts ApiFacts ScopeFacts GitConfigFacts KeepFacts.
Import ListingFacts Props Zod Tools Server.
Section WithRuntime.
Context {rt : Runtime}.

Lemma sameCredential_refl (this : Api.TaskApiClient) : sameCredential this this.
Proof. done. Qed.

Lemma sameCredential_trans (a b c : Api.TaskApiClient) :
  sameCredential a b -> sameCredential b c -> sameCredential a c.
Proof. intros [? ?] [? ?]. split; congruence. Qed.

Ltac keep_eq :=
  repeat first [ keep_step (@eq_refl Api.TaskApiClient) (@eq_trans Api.TaskApiClient)
               | progress unfold Api.member ].

Lemma keeps_handleListProjects input : preserves eq (ListProjects.handleListProjects input).
Proof.
  unfold ListProjects.handleListProjects, Api.listProjects.
  keep_eq.
Qed.

Lemma keeps_handleGetTask input : preserves eq (GetTask.handleGetTask input).
Proof. unfold GetTask.handleGetTask, Api.getTask. keep_eq. Qed.

Lemma keeps_handleStartTask input : preserves eq (StartTask.handleStartTask input).
Proof. unfold StartTask.handleStartTask, Api.startTask. keep_eq. Qed.

Lemma keeps_handleCompleteTask input : preserves eq (CompleteTask.handleCompleteTask input).
Proof.
  unfold CompleteTask.handleCompleteTask, Api.completeTask. keep_eq.
Qed.

Lemma keeps_handleReportProgress input :
  preserves eq (ReportProgress.handleReportProgress input).
Proof.
  unfold ReportProgress.handleReportProgress, Api.reportProgress. keep_eq.
Qed.

Lemma keeps_credential_handleListTasks input :
  preserves sameCredential (ListTasks.handleListTasks input).
Proof.
  intros env log this. rewrite runM_handleListTasks.
  pose proof (detect_keeps_client env log (ListTasks.projectId input)
                (ListTasks.workingDir input) this) as Hkeep.
  destruct (runM env log (detectFromWorkingDir _ _) this) as [[[[text|p n b]|e] s] log'];
    unfold stateOf in *; cbn [fst snd] in *; subst s; [done| |done].
  cbv zeta. by destruct (truthyStr (if truthyStr p then p else Api.projectId this)).
Qed.

Lemma keeps_credential_handleListSpecs input :
  preserves sameCredential (ListSpecs.handleListSpecs input).
Proof.
  intros env log this. rewrite runM_handleListSpecs.
  pose proof (detect_keeps_client env log (ListSpecs.projectId input)
                (ListSpecs.workingDir input) this) as Hkeep.
  destruct (runM env log (detectFromWorkingDir _ _) this) as [[[[text|p n b]|e] s] log'];
    unfold stateOf in *; cbn [fst snd] in *; subst s; [done| |done].
  cbv zeta. by destruct (truthyStr (if truthyStr p then p else Api.projectId this)).
Qed.

Lemma keeps_parseThen {I} (R : Api.TaskApiClient -> Api.TaskApiClient -> Prop)
    schema (asInput : JsObject -> I) handler args :
  (forall s, R s s) -> (forall input, preserves R (handler input)) ->
  preserves R (parseThen schema asInput handler args).
Proof.
  intros Hrefl Hhandler. unfold parseThen.
  destruct (Zod.parse schema args); [by apply preserves_throw|apply Hhandler].
Qed.

Lemma keeps_credential_handleToolCall name args :
  preserves sameCredential (handleToolCall name args).
Proof.
  unfold handleToolCall.
  repeat case_bool_decide;
    try (apply keeps_parseThen; [done|]; intros input;
         first [ apply keeps_credential_handleListTasks
               | apply keeps_credential_handleListSpecs
               | apply preserves_weaken; [done|] ]);
    first [ apply keeps_handleListProjects | apply keeps_handleGetTask
          | apply keeps_handleStartTask | apply keeps_handleCompleteTask
          | apply keeps_handleReportProgress | by apply preserves_throw ].
Qed.

Lemma keeps_handleToolCall name args :
  name <> "list-tasks" -> name <> "list-specs" -> preserves eq (handleToolCall name args).
Proof.
  intros Htasks Hspecs. unfold handleToolCall.
  repeat case_bool_decide; try done;
    try (apply keeps_parseThen; [done|]; intros input);
    first [ apply keeps_handleListProjects | apply keeps_handleGetTask
          | apply keeps_handleStartTask | apply keeps_handleCompleteTask
          | apply keeps_handleReportProgress | by apply preserves_throw ].
Qed.

Lemma keeps_credential_callToolHandler name arguments :
  preserves sameCredential (callToolHandler name arguments).
Proof.
  unfold callToolHandler.
  apply (preserves_try_catch _ sameCredential_trans).
  - apply (preserves_bind _ sameCredential_trans);
      [apply keeps_credential_handleToolCall|intros text; by apply preserves_ret].
  - intros e. by apply preserves_ret.
Qed.

Lemma keeps_callToolHandler name arguments :
  name <> "list-tasks" -> name <> "list-specs" ->
  preserves eq (callToolHandler name arguments).
Proof.
  intros Htasks Hspecs. unfold callToolHandler.
  apply (preserves_try_catch _ (@eq_trans _)).
  - apply (preserves_bind _ (@eq_trans _));
      [by apply keeps_handleToolCall|intros text; by apply preserves_ret].
  - intros e. by apply preserves_ret.
Qed.

(** *** The calls a tool makes *)

(** A tool reads files and calls the backend: it never enters the SDK. *)
Ltac emit_plain :=
  repeat first [ emit_step ltac:(intros ?; reflexivity)
               | progress unfold Api.member, detectFromWorkingDir, Api.getProjectByRepo,
                   Api.request, Git.getGitHubRepoFromWorkingDir, Git.getGitRemoteUrl ].

Lemma emits_handleToolCall name args :
  emits (fun ev => entersSdk ev = false) (handleToolCall name args).
Proof.
  unfold handleToolCall, parseThen.
  repeat match goal with
         | |- emits _ (if ?b then _ else _) => destruct b
         | |- emits _ (match ?x with _ => _ end) => destruct x
         end.
  all: try apply emits_throw.
  - unfold ListProjects.handleListProjects, Api.listProjects. emit_plain.
  - unfold ListSpecs.handleListSpecs, Api.listSpecs. emit_plain.
  - unfold ListTasks.handleListTasks, Api.listTasks. emit_plain.
  - unfold GetTask.handleGetTask, Api.getTask. emit_plain.
  - unfold StartTask.handleStartTask, Api.startTask. emit_plain.
  - unfold CompleteTask.handleCompleteTask, Api.completeTask. emit_plain.
  - unfold ReportProgress.handleReportProgress, Api.reportProgress. emit_plain.
Qed.

Lemma emits_callToolHandler name arguments :
  emits (fun ev => entersSdk ev = false) (callToolHandler name arguments).
Proof.
  unfold callToolHandler. apply emits_try_catch.
  - apply emits_bind; [apply emits_handleToolCall|intros text; apply emits_ret].
  - intros e. apply emits_ret.
Qed.

(** X14. No tool call changes the credential of the client it runs on: the
    base URL and the API key are after the call what they were before,
    whatever the tool, the arguments and the answers of the world.  Only
    list-tasks and list-specs can change the client at all (its scope). *)
Theorem tool_call_keeps_the_credential (env : Env) log name arguments
    (this : Api.TaskApiClient) :
  let after := stateOf (runM env log (callToolHandler name arguments) this) in
  Api.apiUrl this = Api.apiUrl after /\ Api.apiKey this = Api.apiKey after /\
  (name <> "list-tasks" -> name <> "list-specs" -> this = after).
Proof.
  cbv zeta.
  destruct (keeps_credential_callToolHandler name arguments env log this) as [Hurl Hkey].
  split; [exact Hurl|]. split; [exact Hkey|].
  intros Htasks Hspecs. by apply keeps_callToolHandler.
Qed.

(** X15. A tool call never rejects: the handler registered with the SDK
    always resolves to a result, which carries the text of the tool when the
    dispatch resolved and the rendering of the error, flagged as an error,
    when the dispatch rejected.  It makes the calls of the dispatch and no
    other. *)
Theorem tool_call_never_rejects (env : Env) log name arguments (this : Api.TaskApiClient) :
  let dispatch := runM env log (handleToolCall name (default [] arguments)) this in
  let call := runM env log (callToolHandler name arguments) this in
  outcomeOf call
    = Resolved match outcomeOf dispatch with
               | Resolved text => {| text := text; isError := false |}
               | Rejected e => {| text := formatError e; isError := true |}
               end /\
  stateOf call = stateOf dispatch /\ logOf call = logOf dispatch.
Proof.
  cbv zeta. unfold callToolHandler. rewrite runM_try_catch, runM_bind.
  by destruct (runM env log (handleToolCall _ _) this) as [[[text|e] s] log'].
Qed.

Lemma mapErrorCode_range apiCode status :
  Api.mapErrorCode apiCode status <> NOT_CONFIGURED /\
  Api.mapErrorCode apiCode status <> NETWORK_ERROR.
Proof.
  unfold Api.mapErrorCode.
  repeat match goal with |- context [if ?b then _ else _] => destruct b end; done.
Qed.

(** X16. A request to the backend fails with an [MCPServerError] and nothing
    else, whatever went wrong.  The error is [NETWORK_ERROR] exactly when it
    carries no HTTP status; a status it carries is outside 200..299; the
    kind is never [NOT_CONFIGURED]; and the error is rendered tagged with
    its kind. *)
Theorem request_fails_only_with_a_server_error (env : Env) log T method path body
    (this : Api.TaskApiClient) e :
  outcomeOf (runM env log (Api.request T method path body) this) = Rejected e ->
  exists err, e = ThrownMCP err /\
    code err <> NOT_CONFIGURED /\
    (httpStatus err = None <-> code err = NETWORK_ERROR) /\
    (forall st, httpStatus err = Some st -> (st < 200 \/ 299 < st)%Z) /\
    taggedWith (errorCodeText (code err)) (formatError e).
Proof.
  rewrite runM_request. cbv zeta. unfold outcomeOf. cbn [fst].
  assert (forall r, exists err, ThrownMCP (networkError r) = ThrownMCP err /\
            code err <> NOT_CONFIGURED /\
            (httpStatus err = None <-> code err = NETWORK_ERROR) /\
            (forall st, httpStatus err = Some st -> (st < 200 \/ 299 < st)%Z) /\
            taggedWith (errorCodeText (code err)) (formatError (ThrownMCP (networkError r))))
    as Hnetwork.
  { intros r. exists (networkError r). repeat split; try done.
    by exists (message (networkError r)). }
  unfold roundTrip. destruct (env log _ _) as [r|response].
  { intros [= <-]. apply Hnetwork. }
  destruct (ok response) eqn:Hok.
  { destruct (jsonAs response) as [r|data]; [|done]. intros [= <-]. apply Hnetwork. }
  destruct (getMember (errorData response) "message") as [typeError|m].
  { intros [= <-]. apply Hnetwork. }
  intros [= <-]. exists (responseError response).
  destruct (mapErrorCode_range (Js.or (backendCode response) (JStr "API_ERROR"))
              (status response)) as [Hconfigured Hnet].
  split; [done|]. split; [done|]. split; [done|]. split.
  - intros st [= <-]. unfold ok in Hok. apply andb_false_iff in Hok as [H | H].
    + apply Z.leb_gt in H. lia.
    + apply Z.leb_gt in H. lia.
  - by exists (message (responseError response)).
Qed.



Lemma parseElements_strings path i (files : list string) :
  parseElements (parseType (ZString [])) path i (List.map JStr files)
  = ([], List.map JStr files).
Proof.
  revert i. induction files as [|f files IH]; intros i; [done|].
  cbn [List.map parseElements parseType List.concat]. by rewrite IH.
Qed.

Lemma asStrings_strings (files : list string) : asStrings (JArr (List.map JStr files)) = files.
Proof.
  unfold asStrings. induction files as [|f files IH]; [done|].
  cbn [List.map asString]. by rewrite IH.
Qed.

Lemma parse_completeTask (args : JsObject) taskId summary files implementation :
  getProp args "taskId" = JStr taskId -> isUuid taskId = true ->
  getProp args "summary" = JStr summary -> summary <> "" ->
  getProp args "filesModified" = JArr (List.map JStr files) -> files <> [] ->
  getProp args "implementation" = from_option JStr JUndefined implementation ->
  Zod.parse CompleteTask.completeTaskSchema args
  = inr [ ("taskId", JStr taskId); ("summary", JStr summary);
          ("filesModified", JArr (List.map JStr files));
          ("implementation", from_option JStr JUndefined implementation) ].
Proof.
  intros Hid Huuid Hsummary Hne Hfiles Hsome Himpl.
  unfold Zod.parse, CompleteTask.completeTaskSchema, fieldIssues, fieldValue.
  cbn [List.map List.concat fst snd app]. rewrite Hid, Hsummary, Hfiles, Himpl.
  cbn [parseType List.map List.concat checkString fst snd app].
  rewrite Huuid, parseElements_strings.
  destruct summary as [|c summary]; [done|]. destruct files as [|f files]; [done|].
  by destruct implementation.
Qed.

(** X18. complete-task, end to end: with arguments that meet the contract,
    the call makes exactly one request, [PATCH /tasks/<taskId>/complete],
    whose body is the summary, the files and the implementation notes of
    the arguments, unchanged; it resolves to the rendering of the task or of
    the failure, and the client is unchanged. *)
Theorem complete_task_sends_the_completion (env : Env) log (arguments : JsObject)
    taskId summary files implementation (this : Api.TaskApiClient) :
  getProp arguments "taskId" = JStr taskId -> isUuid taskId = true ->
  getProp arguments "summary" = JStr summary -> summary <> "" ->
  getProp arguments "filesModified" = JArr (List.map JStr files) -> files <> [] ->
  getProp arguments "implementation" = from_option JStr JUndefined implementation ->
  let input := {| CompleteTask.taskId := taskId; CompleteTask.summary := summary;
                  CompleteTask.filesModified := files;
                  CompleteTask.implementation := implementation |} in
  let completion := {| completion_summary := summary;
                       completion_filesModified := files;
                       completion_implementation := implementation |} in
  let req := sentRequest this "PATCH" ("/tasks/" +:+ taskId +:+ "/complete")
               (Some (CompletionBody completion)) in
  let answer := env log _ (Fetch CompleteTaskResponse req) in
  runM env log (callToolHandler "complete-task" (Some arguments)) this
  = ((Resolved match roundTrip answer with
               | Resolved task =>
                   {| text := CompleteTask.render input task; isError := false |}
               | Rejected e => {| text := formatError e; isError := true |}
               end, this),
     (log ++ [Ev (Fetch CompleteTaskResponse req) answer])%list).
Proof.
  intros Hid Huuid Hsummary Hne Hfiles Hsome Himpl. cbv zeta.
  unfold callToolHandler, handleToolCall. cbn [default].
  repeat (rewrite bool_decide_eq_false_2 by done). rewrite bool_decide_eq_true_2 by done.
  unfold parseThen.
  rewrite (parse_completeTask _ taskId summary files implementation) by done.
  assert (CompleteTask.asInput
            [ ("taskId", JStr taskId); ("summary", JStr summary);
              ("filesModified", JArr (List.map JStr files));
              ("implementation", from_option JStr JUndefined implementation) ]
          = {| CompleteTask.taskId := taskId; CompleteTask.summary := summary;
               CompleteTask.filesModified := files;
               CompleteTask.implementation := implementation |}) as ->.
  { unfold CompleteTask.asInput. f_equal; [apply asStrings_strings|by destruct implementation]. }
  unfold CompleteTask.handleCompleteTask, Api.completeTask.
  rewrite runM_try_catch, runM_bind, runM_bind, (runM_request env log CompleteTaskResponse).
  cbv zeta. cbn [CompleteTask.taskId CompleteTask.summary CompleteTask.filesModified
                 CompleteTask.implementation].
  by destruct (roundTrip _).
Qed.

End WithRuntime.

Lemma complete_task_witness :
  logOf
    (runM (Scenario.world Scenario.emptyResponse Scenario.quiet) []
       (callToolHandler (rt := Scenario.runtime) "complete-task"
          (Some [ ("taskId", JStr Scenario.projectA); ("summary", JStr "Done");
                  ("filesModified", JArr [JStr "src/a.ts"; JStr "src/b.ts"]) ]))
       (Scenario.client None))
  = [ Ev (Fetch CompleteTaskResponse
            (sentRequest (Scenario.client None) "PATCH"
               ("/tasks/" +:+ Scenario.projectA +:+ "/complete")
               (Some (CompletionBody
                        {| completion_summary := "Done";
                           completion_filesModified := ["src/a.ts"; "src/b.ts"];
                           completion_implementation := None |}))))
         (Scenario.emptyResponse CompleteTaskResponse) ].
Proof.
  assert ("Done" <> "") as Hsummary by done.
  assert (["src/a.ts"; "src/b.ts"] <> []) as Hfiles by done.
  exact (f_equal logOf
           (complete_task_sends_the_completion (rt := Scenario.runtime)
              (Scenario.world Scenario.emptyResponse Scenario.quiet) []
              [ ("taskId", JStr Scenario.projectA); ("summary", JStr "Done");
                ("filesModified", JArr [JStr "src/a.ts"; JStr "src/b.ts"]) ]
              Scenario.projectA "Done" ["src/a.ts"; "src/b.ts"] None (Scenario.client None)
              eq_refl eq_refl eq_refl Hsummary eq_refl Hfiles eq_refl)).
Defined.

Lemma request_failure_witness :
  taggedWith "INVALID_STATE_TRANSITION" "Error [INVALID_STATE_TRANSITION]: Task is already done".
Proof.
  destruct (request_fails_only_with_a_server_error (rt := Scenario.runtime)
              (Scenario.world
                 (fun T => Scenario.errorResponse T 409
                             (Some [("code", JStr "TASK_ALREADY_COMPLETED");
                                    ("message", JStr "Task is already done")]))
                 Scenario.quiet)
              [] StartTaskResponse "PATCH" "/tasks/t-1/start" None (Scenario.client None) _
              eq_refl) as (err & Herr & _ & _ & _ & Htag).
  injection Herr as <-. exact Htag.
Defined.


End ToolFacts.

(** ** src/server.ts: keys, failures and reuse on the routes *)

Module SessionFacts.
Import Js Types Effects Observe RunFacts KeepFacts Props Tools Server ToolFacts.
Section WithRuntime.
Context {rt : Runtime}.

Implicit Types (this : MCPServer) (res : Res).



Lemma runM_getServer (env : Env) log this res :
  runM env log getServer (this, res) = ((Resolved this, (this, res)), log).
Proof. reflexivity. Qed.

(** A call into the SDK during which no callback of the server runs. *)
Lemma runM_sdkCall_plain (env : Env) log sessionData (e : Eff SdkReply) this res :
  callbacks (env log _ e) = [] ->
  runM env log (sdkCall sessionData e) (this, res)
  = let reply := env log _ e in
    ((match rejection reply with
      | Some r => Rejected (thrownOf r)
      | None => Resolved tt
      end,
      (this, if headersSent reply then SentByTransport else res)),
     (log ++ [Ev e reply])%list).
Proof.
  intros Hcbs. cbv zeta. unfold sdkCall. rewrite runM_bind, runM_perform.
  cbv beta iota. rewrite !runM_bind, Hcbs.
  by destruct (headersSent _), (rejection _).
Qed.


(** X20. A GET for a session that is not registered, or with no session
    header, is answered 400: nothing is called, the server is unchanged. *)
Theorem get_without_session_is_refused (env : Env) log req this res :
  lookupSession this (mcp_session_id (in_headers req)) = None ->
  runM env log (getMcp req) (this, res)
  = ((Resolved tt, (this, SentJson 400 [("error", "No active session")])), log).
Proof.
  intros Hnone. unfold getMcp. rewrite runM_bind, runM_getServer. cbv beta iota.
  by rewrite Hnone.
Qed.

Lemma postMcp_resolves (env : Env) log req this res :
  outcomeOf (runM env log (postMcp req) (this, res)) = Resolved tt.
Proof.
  unfold postMcp. rewrite runM_try_catch.
  match goal with
  | |- context [runM env log ?body (this, res)] =>
      destruct (runM env log body (this, res)) as [[[[]|e] [this' res']] log']
  end; [done|].
  rewrite runM_bind, runM_perform. cbv beta iota.
  rewrite runM_bind, runM_get. cbv beta iota. cbn [snd].
  by destruct (resHeadersSent res').
Qed.

(** X21. The route that takes messages never rejects: whatever the SDK and
    the other calls do, the handler resolves.  When connecting the new
    server instance to the new transport fails, the message is answered 500
    and no session is registered: the registry is as it was, the message
    never reaches the transport, and the failure is logged.  The objects
    made for the session are referenced by no entry of the registry. *)
Theorem post_never_rejects (env : Env) log req this res r :
  let apiKey := extractApiKey req in
  let client := nextHandle this in
  let server0 := Datatypes.S (nextHandle this) in
  let transport0 := Datatypes.S (Datatypes.S (nextHandle this)) in
  outcomeOf (runM env log (postMcp req) (this, res)) = Resolved tt /\
  (truthyStr apiKey = true ->
   (if truthyStr (mcp_session_id (in_headers req))
    then lookupSession this (mcp_session_id (in_headers req)) else None) = None ->
   env log _ (ServerConnect server0 transport0) = Some r ->
   runM env log (postMcp req) (this, NotSent)
   = ((Resolved tt,
       ({| sessions := sessions this;
           defaultApiUrl := defaultApiUrl this;
           clients := <[client := {| Api.apiUrl := defaultApiUrl this;
                                     Api.apiKey := Api.interpolate apiKey;
                                     Api.projectId := None |}]> (clients this);
           nextHandle := Datatypes.S (Datatypes.S (Datatypes.S (nextHandle this))) |},
        SentJson 500 [("error", "Internal server error")])),
      (log ++ [Ev (ServerConnect server0 transport0) (Some r)]
           ++ [Ev (ConsoleError "[HTTP Transport Error]") tt])%list)).
Proof.
  cbv zeta. split; [apply postMcp_resolves|]. intros Hkey Hnew Hconnect.
  unfold postMcp. rewrite runM_try_catch. cbv zeta. rewrite Hkey. simpl negb. cbv iota.
  rewrite runM_bind, runM_getServer. cbv beta iota. rewrite Hnew. rewrite runM_bind.
  rewrite runM_bind, RouteFacts.runM_newClient. rewrite runM_bind, RouteFacts.runM_newObject.
  rewrite runM_bind, RouteFacts.runM_newObject. cbn [nextHandle].
  rewrite runM_bind, runM_perform, Hconnect, runM_throw.
  rewrite runM_bind, runM_perform. cbv beta iota.
  rewrite runM_bind, runM_get. cbv beta iota. cbn [snd resHeadersSent negb].
  destruct (env _ unit _). by rewrite <- app_assoc.
Qed.

(** *** What the callbacks of a session can do *)

Lemma nothingMade_refl (s : MCPServer * Res) : nothingMade s s.
Proof. by split. Qed.

Lemma nothingMade_trans (a b c : MCPServer * Res) :
  nothingMade a b -> nothingMade b c -> nothingMade a c.
Proof.
  intros [Hn1 Hc1] [Hn2 Hc2]. split; [congruence|].
  intros h. by rewrite Hc2, Hc1.
Qed.

Ltac keep_made := keep_step nothingMade_refl nothingMade_trans.

Lemma nothingMade_withClient {A} h (m : M Api.TaskApiClient A) :
  preserves nothingMade (withClient h m).
Proof.
  intros env log [this res]. unfold stateOf, runM, withClient. cbn [fst snd].
  destruct (clients this !! h) as [client|] eqn:Hclient; [|apply nothingMade_refl].
  rewrite interp_bind. destruct (interp env log (m client)) as [[o client'] log'].
  split; [done|]. intros h'. cbn. rewrite lookup_insert_is_Some.
  split.
  - intros [<- | [_ H]]; [by rewrite Hclient|done].
  - intros H. destruct (decide (h = h')); auto.
Qed.

Lemma emits_withClient {A} (P : Event -> Prop) h (m : M Api.TaskApiClient A) :
  emits P m -> emits P (withClient h m).
Proof.
  intros Hm env log [this res]. unfold logOf, runM, withClient. cbn [fst snd].
  destruct (clients this !! h) as [client|].
  - rewrite interp_bind. destruct (Hm env log client) as (added & Hlog & Hadded).
    unfold logOf, runM in Hlog.
    destruct (interp env log (m client)) as [[o client'] log']. by exists added.
  - exists []. by rewrite app_nil_r.
Qed.

Lemma nothingMade_setSessions f : preserves nothingMade (setSessions f).
Proof. intros env log [this res]. by split. Qed.

Lemma nothingMade_runCallback sessionData cb :
  preserves nothingMade (runCallback sessionData cb).
Proof.
  destruct cb as [newSessionId| | |name arguments]; cbn [runCallback].
  - apply nothingMade_setSessions.
  - keep_made; [keep_made|]. destruct (truthyStr _); [apply nothingMade_setSessions|keep_made].
  - keep_made.
  - keep_made; [apply nothingMade_withClient|keep_made].
Qed.

Lemma emits_runCallback sessionData cb :
  emits (fun ev => entersSdk ev = false) (runCallback sessionData cb).
Proof.
  destruct cb as [newSessionId| | |name arguments]; cbn [runCallback].
  - by apply emits_nothing.
  - apply emits_bind; [by apply emits_perform|]. intros sessionId.
    destruct (truthyStr _); by apply emits_nothing.
  - by apply emits_perform.
  - apply emits_bind; [|intros result; by apply emits_perform].
    apply emits_withClient, emits_callToolHandler.
Qed.

Lemma nothingMade_runCallbacks sessionData cbs :
  preserves nothingMade (runCallbacks sessionData cbs).
Proof.
  induction cbs as [|cb cbs IH]; cbn [runCallbacks]; [keep_made|].
  keep_made; [apply nothingMade_runCallback|apply IH].
Qed.

Lemma emits_runCallbacks sessionData cbs :
  emits (fun ev => entersSdk ev = false) (runCallbacks sessionData cbs).
Proof.
  induction cbs as [|cb cbs IH]; cbn [runCallbacks]; [apply emits_ret|].
  apply emits_bind; [apply emits_runCallback|intros _; apply IH].
Qed.

(** A call into the SDK makes no object, and what follows it in the
    history are the calls of the callbacks it ran. *)
Lemma sdkCall_makes_nothing (env : Env) log sessionData (e : Eff SdkReply) this res :
  let result := runM env log (sdkCall sessionData e) (this, res) in
  nothingMade (this, res) (stateOf result) /\
  exists later, logOf result = (log ++ Ev e (env log _ e) :: later)%list /\
    Forall (fun ev => entersSdk ev = false) later.
Proof.
  cbv zeta. unfold sdkCall. rewrite runM_bind, runM_perform. cbv beta iota.
  set (reply := env log _ e). set (log1 := (log ++ [Ev e reply])%list).
  match goal with
  | |- context [runM env log1 ?m (this, res)] => set (rest := m)
  end.
  assert (preserves nothingMade rest) as Hkeep.
  { subst rest. keep_made; [destruct (headersSent reply); [by intros ? ? []|keep_made]|].
    keep_made; [apply nothingMade_runCallbacks|]. destruct (rejection reply); keep_made. }
  assert (emits (fun ev => entersSdk ev = false) rest) as Hemits.
  { subst rest. apply emits_bind; [destruct (headersSent reply); by apply emits_nothing|].
    intros _. apply emits_bind; [apply emits_runCallbacks|].
    intros _. destruct (rejection reply); by apply emits_nothing. }
  split; [apply Hkeep|].
  destruct (Hemits env log1 (this, res)) as (later & Hlog & Hlater).
  exists later. split; [|done]. rewrite Hlog. subst log1. by rewrite <- app_assoc.
Qed.

(** X22. A message that names a registered session is handed to the
    transport of that session as it is, first of all, and the route
    resolves: no client, server instance or transport is made, nothing is
    connected and the message reaches no other transport, whatever
    callbacks the SDK runs meanwhile; the key of the message is not
    compared with the key of the session.  When no callback runs, the
    server is unchanged. *)
Theorem registered_session_is_reused (env : Env) log req id sessionData this res :
  truthyStr (extractApiKey req) = true ->
  mcp_session_id (in_headers req) = Some id -> Str.nonEmpty id = true ->
  sessions this !! id = Some sessionData ->
  let call := TransportHandleRequest (transport sessionData) req in
  let reply := env log _ call in
  let result := runM env log (postMcp req) (this, res) in
  outcomeOf result = Resolved tt /\
  nothingMade (this, res) (stateOf result) /\
  (exists later, logOf result = (log ++ Ev call reply :: later)%list /\
     Forall (fun ev => entersSdk ev = false) later) /\
  (callbacks reply = [] ->
   fst (stateOf result) = this /\
   (rejection reply = None ->
    result = ((Resolved tt, (this, if headersSent reply then SentByTransport else res)),
              (log ++ [Ev call reply])%list))).
Proof.
  intros Hkey Hid Hne Hsession. cbv zeta.
  assert (truthyStr (Some id) = true) as Ht by exact Hne.
  split; [apply postMcp_resolves|].
  remember (runM env log (postMcp req) (this, res)) as result eqn:Hresult.
  unfold postMcp in Hresult. rewrite runM_try_catch in Hresult. cbv zeta in Hresult.
  rewrite Hkey in Hresult. simpl negb in Hresult. cbv iota in Hresult.
  rewrite runM_bind, runM_getServer in Hresult. cbv beta iota in Hresult.
  rewrite Hid, Ht in Hresult. unfold lookupSession in Hresult.
  cbn [mbind option_bind] in Hresult. rewrite Hsession in Hresult.
  rewrite runM_bind, runM_ret in Hresult. cbv beta iota in Hresult.
  destruct (sdkCall_makes_nothing env log sessionData
              (TransportHandleRequest (transport sessionData) req) this res)
    as (Hmade & later & Hlog & Hlater).
  split; [|split].
  - destruct (runM env log (sdkCall _ _) (this, res)) as [[[[]|e] [this' res']] log'].
    + by subst result.
    + rewrite runM_bind, runM_perform in Hresult. cbv beta iota in Hresult.
      rewrite runM_bind, runM_get in Hresult. cbv beta iota in Hresult.
      cbn [snd] in Hresult. subst result.
      eapply nothingMade_trans; [exact Hmade|]. by destruct (resHeadersSent res').
  - destruct (runM env log (sdkCall _ _) (this, res)) as [[[[]|e] [this' res']] log'].
    + subst result. by exists later.
    + rewrite runM_bind, runM_perform in Hresult. cbv beta iota in Hresult.
      rewrite runM_bind, runM_get in Hresult. cbv beta iota in Hresult.
      cbn [snd] in Hresult. unfold logOf in Hlog. cbn [snd] in Hlog. subst result log'.
      exists (later ++ [Ev (ConsoleError "[HTTP Transport Error]") tt])%list. split.
      * destruct (resHeadersSent res'); unfold logOf; cbn [snd];
          rewrite <- app_assoc; cbn [app]; do 3 f_equal;
          by destruct (env _ unit _).
      * apply Forall_app. split; [done|]. by constructor.
  - intros Hcbs. rewrite runM_sdkCall_plain in Hresult by done. cbv zeta in Hresult.
    destruct (rejection _) as [r|]; [|by subst result].
    rewrite runM_bind, runM_perform in Hresult. cbv beta iota in Hresult.
    rewrite runM_bind, runM_get in Hresult. cbv beta iota in Hresult.
    cbn [snd] in Hresult. subst result.
    split; [|done]. by destruct (resHeadersSent _).
Qed.


(** A program of a client, run on the server. *)
Lemma runM_withClient {A} (env : Env) log h (m : M Api.TaskApiClient A) client this res :
  clients this !! h = Some client ->
  runM env log (withClient h m) (this, res)
  = let r := runM env log m client in
    ((outcomeOf r,
      ({| sessions := sessions this; defaultApiUrl := defaultApiUrl this;
          clients := <[h := stateOf r]> (clients this);
          nextHandle := nextHandle this |}, res)),
     logOf r).
Proof.
  intros Hclient. cbv zeta. unfold runM, withClient. cbn [fst snd]. rewrite Hclient.
  rewrite interp_bind. by destruct (interp env log (m client)) as [[o c] log'].
Qed.

Lemma callToolHandler_resolves (env : Env) log name arguments (client : Api.TaskApiClient) :
  exists result,
    outcomeOf (runM env log (callToolHandler name arguments) client) = Resolved result.
Proof.
  unfold callToolHandler. rewrite runM_try_catch, runM_bind.
  destruct (runM env log (handleToolCall _ _) client) as [[[text|e] s] log']; by eexists.
Qed.

(** X24. A tool call that arrives on a session runs on the client of that
    session and on nothing else: the registry, the clients of the other
    sessions and the response are as before, the client of the session
    keeps its credential, and the callback resolves after it handed a
    result to the SDK. *)
Theorem tool_call_touches_only_its_client (env : Env) log sessionData name arguments
    this res client :
  clients this !! apiClient sessionData = Some client ->
  let result := runM env log (runCallback sessionData (OnCallTool name arguments)) (this, res) in
  let after := fst (stateOf result) in
  outcomeOf result = Resolved tt /\
  sessions after = sessions this /\ nextHandle after = nextHandle this /\
  defaultApiUrl after = defaultApiUrl this /\ snd (stateOf result) = res /\
  (forall h, h <> apiClient sessionData -> clients after !! h = clients this !! h) /\
  (exists client', clients after !! apiClient sessionData = Some client' /\
     sameCredential client client').
Proof.
  intros Hclient. cbv zeta. cbn [runCallback].
  rewrite runM_bind, (runM_withClient _ _ _ _ client) by done. cbv zeta.
  destruct (callToolHandler_resolves env log name arguments client) as [result Hresult].
  pose proof (keeps_credential_callToolHandler name arguments env log client) as Hcredential.
  rewrite Hresult. rewrite runM_perform.
  unfold outcomeOf, stateOf. cbn [fst snd sessions nextHandle defaultApiUrl clients].
  split; [by destruct (env _ unit _)|]. do 4 (split; [done|]). split.
  - intros h Hh. by apply lookup_insert_ne.
  - eexists. split; [apply lookup_insert_eq|]. apply Hcredential.
Qed.

(** X25. When a transport closes, the entry under its session identifier
    leaves the registry and no other entry does; a transport that has no
    identifier yet leaves the registry as it is.  The clients are not
    touched. *)
Theorem onclose_removes_its_own_entry (env : Env) log sessionData this res :
  let answer := env log _ (TransportSessionId (transport sessionData)) in
  let result := runM env log (runCallback sessionData OnClose) (this, res) in
  let after := fst (stateOf result) in
  outcomeOf result = Resolved tt /\
  clients after = clients this /\ snd (stateOf result) = res /\
  (forall other, answer <> Some other -> sessions after !! other = sessions this !! other) /\
  (forall id, answer = Some id -> Str.nonEmpty id = true -> sessions after !! id = None).
Proof.
  cbv zeta. cbn [runCallback]. rewrite runM_bind, runM_perform. cbv beta iota.
  destruct (env log _ _) as [id|]; cbn [truthyStr]; [|by do 3 (split; [done|])].
  destruct (Str.nonEmpty id) eqn:Hne.
  - rewrite RouteFacts.runM_setSessions. unfold outcomeOf, stateOf.
    cbn [fst snd sessions clients]. do 3 (split; [done|]). split.
    + intros other Hother. apply lookup_delete_ne.
      intros Heq. apply Hother. f_equal. exact Heq.
    + intros id' [= <-] _. apply lookup_delete_eq.
  - do 3 (split; [done|]). split; [done|]. intros id' [= <-] Hid. congruence.
Qed.

End WithRuntime.

Lemma get_without_session_witness :
  runM (Scenario.world Scenario.emptyResponse Scenario.quiet) []
    (getMcp (rt := Scenario.runtime) (Scenario.inbound None HeaderAbsent (Some "session-9")))
    (Cases.oneSession, NotSent)
  = ((Resolved tt, (Cases.oneSession, SentJson 400 [("error", "No active session")])), []).
Proof.
  exact (get_without_session_is_refused (rt := Scenario.runtime)
           (Scenario.world Scenario.emptyResponse Scenario.quiet) []
           (Scenario.inbound None HeaderAbsent (Some "session-9"))
           Cases.oneSession NotSent eq_refl).
Defined.

Lemma failed_connect_witness :
  sessions (fst (stateOf
    (runM Cases.brokenSdk []
       (postMcp (rt := Scenario.runtime)
          (Scenario.inbound (Some "Bearer key-2") HeaderAbsent None))
       (Cases.oneSession, NotSent))))
  = sessions Cases.oneSession.
Proof.
  rewrite (proj2 (post_never_rejects (rt := Scenario.runtime)
                    Cases.brokenSdk [] (Scenario.inbound (Some "Bearer key-2") HeaderAbsent None)
                    Cases.oneSession NotSent (RejectError "connect failed"))
             eq_refl eq_refl eq_refl).
  reflexivity.
Defined.

Lemma registered_session_witness :
  let req := Scenario.inbound (Some "Bearer another-key") HeaderAbsent (Some "session-1") in
  let busy :=
    runM (Scenario.world Scenario.emptyResponse Cases.callingTool) []
      (postMcp (rt := Scenario.runtime) req) (Cases.oneSession, NotSent) in
  let idle :=
    runM (Scenario.world Scenario.emptyResponse Scenario.quiet) []
      (postMcp (rt := Scenario.runtime) req) (Cases.oneSession, NotSent) in
  (outcomeOf busy = Resolved tt /\
   nextHandle (fst (stateOf busy)) = 3 /\
   exists later, logOf busy = Ev (TransportHandleRequest 2 req) Cases.callingTool :: later) /\
  fst (stateOf idle) = Cases.oneSession.
Proof.
  cbv zeta. split.
  - destruct (registered_session_is_reused (rt := Scenario.runtime)
                (Scenario.world Scenario.emptyResponse Cases.callingTool) []
                (Scenario.inbound (Some "Bearer another-key") HeaderAbsent (Some "session-1"))
                "session-1" Cases.session1 Cases.oneSession NotSent
                eq_refl eq_refl eq_refl eq_refl)
      as (Hresolved & [Hhandle _] & (later & Hlog & _) & _).
    split; [exact Hresolved|]. split; [exact (eq_sym Hhandle)|].
    exists later. exact Hlog.
  - destruct (registered_session_is_reused (rt := Scenario.runtime)
                (Scenario.world Scenario.emptyResponse Scenario.quiet) []
                (Scenario.inbound (Some "Bearer another-key") HeaderAbsent (Some "session-1"))
                "session-1" Cases.session1 Cases.oneSession NotSent
                eq_refl eq_refl eq_refl eq_refl)
      as (_ & _ & _ & Hidle).
    exact (proj1 (Hidle eq_refl)).
Defined.


Lemma tool_call_witness :
  sessions (fst (stateOf
    (runM (Scenario.world Scenario.emptyResponse Scenario.quiet) []
       (runCallback (rt := Scenario.runtime) Cases.session1 (OnCallTool "list-tasks" None))
       (Cases.oneSession, NotSent))))
  = sessions Cases.oneSession.
Proof.
  exact (proj1 (proj2 (tool_call_touches_only_its_client (rt := Scenario.runtime)
                         (Scenario.world Scenario.emptyResponse Scenario.quiet) []
                         Cases.session1 "list-tasks" None Cases.oneSession NotSent
                         (Scenario.client None) eq_refl))).
Defined.

End SessionFacts.

(** ** src/tools/*.ts: what the contracts let through *)

Module ContractFacts.
Import Js Types Effects Observe Zod Tools.
Section WithRuntime.
Context {rt : Runtime}.

(** A successful parse: no field raised an issue, and the result holds the
    parsed value of each field. *)
Lemma parse_inr schema args o :
  Zod.parse schema args = inr o ->
  List.concat (List.map (fieldIssues args) schema) = [] /\
  o = List.map (fieldValue args) schema.
Proof.
  unfold Zod.parse. destruct (List.concat _) as [|i issues]; [|done]. by intros [= <-].
Qed.


(** X27. What report-progress is given once its arguments are through the
    contract: the task identifier and the message of the arguments, the
    first a UUID and the second not empty, and a percentage that is absent
    when the arguments give none and lies between 0 and 100 otherwise. *)
Theorem report_progress_contract (args o : JsObject) :
  Zod.parse ReportProgress.reportProgressSchema args = inr o ->
  let input := ReportProgress.asInput o in
  getProp args "taskId" = JStr (ReportProgress.taskId input) /\
  isUuid (ReportProgress.taskId input) = true /\
  getProp args "message" = JStr (ReportProgress.message input) /\
  ReportProgress.message input <> "" /\
  match ReportProgress.percent input with
  | Some p =>
      getProp args "percent" = JNum p /\
      number_leb (number_of_Z 0) p = true /\ number_leb p (number_of_Z 100) = true
  | None => getProp args "percent" = JUndefined
  end.
Proof.
  intros [Hissues ->]%parse_inr. cbv zeta.
  unfold ReportProgress.reportProgressSchema in *. cbn [List.map List.concat] in Hissues.
  apply app_eq_nil in Hissues as [Htask Hissues].
  apply app_eq_nil in Hissues as [Hmessage Hissues].
  apply app_eq_nil in Hissues as [Hpercent _].
  unfold fieldIssues in *. cbn [fst snd] in *.
  assert (ReportProgress.asInput
            (List.map (fieldValue args)
               [ ("taskId", ZString [Uuid (Some "Task ID must be a valid UUID")]);
                 ("message", ZString [MinLength 1 (Some "Progress message is required")]);
                 ("percent", ZOptional (ZNumber [Min 0; Max 100])) ])
          = {| ReportProgress.taskId :=
                 asString (snd (parseType (ZString [Uuid (Some "Task ID must be a valid UUID")])
                                  [PKey "taskId"] (getProp args "taskId")));
               ReportProgress.message :=
                 asString (snd (parseType
                                  (ZString [MinLength 1 (Some "Progress message is required")])
                                  [PKey "message"] (getProp args "message")));
               ReportProgress.percent :=
                 asOptNumber (snd (parseType (ZOptional (ZNumber [Min 0; Max 100]))
                                     [PKey "percent"] (getProp args "percent"))) |}) as ->
    by reflexivity.
  cbn [ReportProgress.taskId ReportProgress.message ReportProgress.percent].
  destruct (getProp args "taskId") as [| | | |taskId| |]; try done.
  destruct (getProp args "message") as [| | | |message| |]; try done.
  cbn [parseType List.map List.concat checkString checkNumber app fst snd
       asString asOptNumber] in *.
  split; [done|]. split; [by destruct (isUuid taskId)|]. split; [done|].
  split; [by destruct message|].
  destruct (getProp args "percent") as [| | |p| | |]; try done.
  cbn [parseType List.map List.concat checkNumber app fst snd asOptNumber] in *.
  split; [done|].
  destruct (number_leb (number_of_Z 0) p); [|done].
  by destruct (number_leb p (number_of_Z 100)).
Qed.

End WithRuntime.


Lemma report_progress_contract_witness :
  (0 <=? 40)%Z = true /\ (40 <=? 100)%Z = true.
Proof.
  exact (proj2 (proj2 (proj2 (proj2 (proj2 (report_progress_contract (rt := Scenario.runtime)
           [ ("taskId", JStr Scenario.projectA); ("message", JStr "Halfway");
             ("percent", JNum (rt := Scenario.runtime) 40%Z) ]
           [ ("taskId", JStr Scenario.projectA); ("message", JStr "Halfway");
             ("percent", JNum (rt := Scenario.runtime) 40%Z) ]
           eq_refl)))))).
Defined.

End ContractFacts.

(** ** src/utils/git.ts: the url that is read is not empty *)

Module TrimFacts.
Import Js Types Effects Observe RunFacts Git GitConfigFacts Props.

Lemma lastChar_cons c s : s <> "" -> lastChar (String c s) = lastChar s.
Proof. by destruct s. Qed.

Lemma lastChar_Some s : s <> "" -> exists c, lastChar s = Some c.
Proof.
  induction s as [|a s IH]; [done|]. intros _. destruct s as [|b s]; [by exists a|].
  rewrite lastChar_cons by done. by apply IH.
Qed.

Lemma lastChar_append a b : b <> "" -> lastChar (a +:+ b) = lastChar b.
Proof.
  intros Hb. induction a as [|c a IH]; [done|].
  rewrite append_cons, lastChar_cons; [done|]. by destruct a, b.
Qed.

(** What [trimEnd] leaves does not end in white space. *)
Lemma trimEnd_lastChar s c :
  lastChar (Str.trimEnd s) = Some c -> Str.isWhiteSpace c = false.
Proof.
  induction s as [|a s IH]; [done|]. cbn [Str.trimEnd]. cbv zeta.
  destruct (Str.trimEnd s) as [|b t] eqn:Ht.
  - change (Str.nonEmpty "") with false. cbn [negb]. rewrite andb_true_r.
    destruct (Str.isWhiteSpace a) eqn:Ha; [done|]. by intros [= <-].
  - change (Str.nonEmpty (String b t)) with true. cbn [negb]. rewrite andb_false_r.
    rewrite lastChar_cons by done. apply IH.
Qed.

(** A string that does not end in white space is left alone by [trimEnd]. *)
Lemma trimEnd_fixed s c :
  lastChar s = Some c -> Str.isWhiteSpace c = false -> Str.trimEnd s = s.
Proof.
  intros Hlast Hc. induction s as [|a s IH]; [done|]. cbn [Str.trimEnd]. cbv zeta.
  destruct s as [|b s].
  - injection Hlast as ->. cbn [Str.trimEnd]. by rewrite Hc.
  - rewrite lastChar_cons in Hlast by done. rewrite (IH Hlast).
    change (Str.nonEmpty (String b s)) with true. cbn [negb]. by rewrite andb_false_r.
Qed.

Lemma trimStart_lastChar s c :
  lastChar s = Some c -> Str.isWhiteSpace c = false -> lastChar (Str.trimStart s) = Some c.
Proof.
  intros Hlast Hc. induction s as [|a s IH]; [done|]. cbn [Str.trimStart].
  destruct (Str.isWhiteSpace a) eqn:Ha; [|done].
  destruct s as [|b s]; [injection Hlast as ->; congruence|].
  rewrite lastChar_cons in Hlast by done. by apply IH.
Qed.

Lemma startsWith_append s p : Str.startsWith s p = true -> exists rest, s = p +:+ rest.
Proof.
  unfold Str.startsWith. revert s. induction p as [|c p IH]; intros s; [by exists s|].
  destruct s as [|d s]; [done|]. cbn [String.prefix].
  destruct (Ascii.ascii_dec c d) as [<-|]; [|done].
  intros [rest ->]%IH. by exists rest.
Qed.

Lemma sliceFrom_append p rest : Str.sliceFrom (String.length p) (p +:+ rest) = rest.
Proof.
  unfold Str.sliceFrom. rewrite length_append.
  replace (String.length p + String.length rest - String.length p)
    with (String.length rest) by lia.
  induction p as [|c p IH].
  - rewrite append_nil_l. rewrite <- (append_nil_r rest) at 2. apply substring_append_l.
  - by rewrite append_cons.
Qed.

(** The url of a url line, once trimmed, is not empty. *)
Lemma url_of_line_nonEmpty line :
  Str.startsWith (Str.trim line) "url = " = true ->
  Str.trim (Str.sliceFrom 6 (Str.trim line)) <> "".
Proof.
  intros Hurl. destruct (startsWith_append _ _ Hurl) as [rest Hrest].
  assert (Str.trim line <> "") as Hne by (rewrite Hrest; done).
  destruct (lastChar_Some _ Hne) as [c Hc].
  assert (Str.isWhiteSpace c = false) as Hws by (by apply (trimEnd_lastChar (Str.trimStart line))).
  rewrite Hrest in Hc |- *.
  assert (rest <> "") as Hrest_ne.
  { intros ->. injection Hc as <-. done. }
  rewrite lastChar_append in Hc by done.
  pose proof (sliceFrom_append "url = " rest) as Hslice.
  change (String.length "url = ") with 6 in Hslice. rewrite Hslice. unfold Str.trim.
  pose proof (trimStart_lastChar _ _ Hc Hws) as Hstart.
  rewrite (trimEnd_fixed _ _ Hstart Hws). intros Hempty. by rewrite Hempty in Hstart.
Qed.

Lemma scanLines_nonEmpty lines : forall inOriginSection,
  scanLines lines inOriginSection <> Some "".
Proof.
  induction lines as [|line lines IH]; intros b; [done|].
  cbn [scanLines]. cbv zeta.
  destruct (Str.startsWith (Str.trim line) "[") eqn:Hsection; [apply IH|].
  destruct b; cbn [andb]; [|apply IH].
  destruct (Str.startsWith (Str.trim line) "url = ") eqn:Hurl; [|apply IH].
  intros [= Hempty]. by apply (url_of_line_nonEmpty line).
Qed.

Section WithRuntime.
Context {rt : Runtime} {S : Type}.

(** X28. The url read from a config file is never the empty string: a url
    line holds something after [url = ] once it is trimmed, so the
    emptiness test of [getGitHubRepoFromWorkingDir] fires on [null] only,
    and what is handed to the parser is the url of the origin. *)
Theorem remote_url_is_never_empty (env : Env) log workingDir (s : S) :
  (forall lines inOriginSection, scanLines lines inOriginSection <> Some "") /\
  outcomeOf (runM env log (getGitRemoteUrl workingDir) s) <> Resolved (Some "") /\
  (forall url, outcomeOf (runM env log (getGitRemoteUrl workingDir) s) = Resolved (Some url) ->
     outcomeOf (runM env log (getGitHubRepoFromWorkingDir workingDir) s)
     = Resolved (parseGitRemoteUrl url)).
Proof.
  split; [intros lines b; apply scanLines_nonEmpty|].
  rewrite runM_getGitHubRepoFromWorkingDir, runM_getGitRemoteUrl. cbv zeta.
  unfold outcomeOf. cbn [fst]. destruct (env log _ _) as [r|content]; [done|].
  split.
  - intros [= H]. by apply scanLines_nonEmpty in H.
  - intros url [= H]. rewrite H.
    destruct (Str.nonEmpty url) eqn:Hne; [done|].
    apply negb_false_iff, bool_decide_eq_true in Hne as ->.
    by apply scanLines_nonEmpty in H.
Qed.

End WithRuntime.
End TrimFacts.

(** ** src/tools/list-projects.ts *)

Module ProjectsFacts.
Import Js Types Effects Observe RunFacts ApiFacts GitConfigFacts Props Tools.
Section WithRuntime.
Context {rt : Runtime}.

(** X29. list-projects asks the backend once, for the projects, whatever the
    working directory gives: the detection reads the config file when a
    directory is named and never fails the tool, the repository is not
    looked up, and the client is unchanged.  A failure of the request is the
    failure of the tool, an empty list is answered with the hint to create
    a project, and without a working directory nothing counts as detected. *)
Theorem list_projects_asks_once (env : Env) log (input : ListProjects.ListProjectsInput)
    (this : Api.TaskApiClient) :
  let path := path_join [Api.interpolate (ListProjects.workingDir input); ".git"; "config"] in
  let detected :=
    if truthyStr (ListProjects.workingDir input)
    then (log ++ [Ev (ReadFile path) (env log _ (ReadFile path))])%list
    else log in
  let req := sentRequest this "GET" "/projects" None in
  let answer := env detected _ (Fetch ListProjectsResponse req) in
  let result := runM env log (ListProjects.handleListProjects input) this in
  stateOf result = this /\
  logOf result = (detected ++ [Ev (Fetch ListProjectsResponse req) answer])%list /\
  fetches (logOf result) = (fetches log ++ [req])%list /\
  (forall e, roundTrip answer = Rejected e -> outcomeOf result = Rejected e) /\
  (roundTrip answer = Resolved [] ->
   outcomeOf result
   = Resolved "No projects found. Create a project at specmanager.ai first.") /\
  (forall project projects, roundTrip answer = Resolved (project :: projects) ->
   exists detectedRepo,
     outcomeOf result = Resolved (ListProjects.render detectedRepo (project :: projects)) /\
     (truthyStr (ListProjects.workingDir input) = false -> detectedRepo = None)).
Proof.
  cbv zeta. unfold ListProjects.handleListProjects. rewrite runM_bind.
  assert (fetches (if truthyStr (ListProjects.workingDir input)
                   then (log ++ [Ev (ReadFile (path_join
                                      [Api.interpolate (ListProjects.workingDir input);
                                       ".git"; "config"]))
                                   (env log _ (ReadFile (path_join
                                      [Api.interpolate (ListProjects.workingDir input);
                                       ".git"; "config"])))])%list
                   else log) = fetches log) as Hsilent.
  { destruct (truthyStr _); [|done]. rewrite ListingFacts.fetches_app. cbn.
    by rewrite app_nil_r. }
  destruct (truthyStr (ListProjects.workingDir input)) eqn:Hwd.
  - rewrite runM_getGitHubRepoFromWorkingDir. cbv zeta.
    set (detectedRepo := match env log _ _ with inl _ => None | inr _ => _ end).
    rewrite runM_bind. unfold Api.listProjects.
    rewrite (runM_request env _ ListProjectsResponse). cbv zeta.
    unfold stateOf, logOf, outcomeOf.
    destruct (roundTrip _) as [[|project projects]|e];
      cbn [List.length Nat.eqb]; rewrite ?runM_ret; cbn [fst snd];
      (split; [done|]); (split; [done|]);
      (split; [by rewrite ListingFacts.fetches_app, Hsilent|]);
      (split; [by intros ? [= <-]|]); (split; [done|]); try done.
    intros p ps [= <- <-]. by exists detectedRepo.
  - rewrite runM_ret. cbv beta iota.
    rewrite runM_bind. unfold Api.listProjects.
    rewrite (runM_request env _ ListProjectsResponse). cbv zeta.
    unfold stateOf, logOf, outcomeOf.
    destruct (roundTrip _) as [[|project projects]|e];
      cbn [List.length Nat.eqb]; rewrite ?runM_ret; cbn [fst snd];
      (split; [done|]); (split; [done|]);
      (split; [by rewrite ListingFacts.fetches_app|]);
      (split; [by intros ? [= <-]|]); (split; [done|]); try done.
    intros p ps [= <- <-]. by exists None.
Qed.

End WithRuntime.
End ProjectsFacts.

(** ** src/tools/get-task.ts: the excerpts of the spec *)

Module RenderFacts.
Import Js Types Tools.

Lemma substring_whole (s : string) n :
  String.length s <= n -> String.substring 0 n s = s.
Proof.
  revert n. induction s as [|c s IH]; intros n Hn; [by destruct n|].
  destruct n as [|n]; [simpl in Hn; lia|].
  cbn [String.substring]. f_equal. apply IH. simpl in Hn. lia.
Qed.

Lemma substring_split (s : string) n :
  n <= String.length s ->
  String.length (String.substring 0 n s) = n /\
  exists rest, s = String.substring 0 n s +:+ rest.
Proof.
  revert n. induction s as [|c s IH]; intros n Hn.
  - assert (n = 0) as -> by (simpl in Hn; lia). split; [done|]. by exists "".
  - destruct n as [|n]; [split; [done|]; by exists (String c s)|].
    cbn [String.substring]. destruct (IH n) as [Hlen [rest Hrest]]; [simpl in Hn; lia|].
    split; [simpl; lia|]. exists rest. by rewrite append_cons, <- Hrest.
Qed.

(** X30. An excerpt of the requirements or the design shows at most 2000
    characters of the content: a content of up to 2000 characters is shown
    whole and unmarked, and of a longer one exactly the first 2000
    characters are shown, followed by the truncation mark. *)
Theorem excerpt_is_capped heading content :
  let shown := Str.sliceTo 2000 content in
  (String.length content <= 2000 ->
   GetTask.excerpt heading content = Str.nl +:+ heading +:+ Str.nl +:+ content) /\
  (2000 < String.length content ->
   String.length shown = 2000 /\ (exists rest, content = shown +:+ rest) /\
   GetTask.excerpt heading content
   = Str.nl +:+ heading +:+ Str.nl +:+ shown +:+ Str.nl +:+ "...(truncated)") /\
  String.length (GetTask.excerpt heading content) <= String.length heading + 2017.
Proof.
  cbv zeta. unfold GetTask.excerpt, Str.sliceTo. cbv zeta.
  destruct (Nat.ltb_spec 2000 (String.length content)) as [Hlong | Hshort].
  - destruct (substring_split content 2000) as [Hlen Hrest]; [lia|].
    split; [intros; lia|]. split; [done|].
    rewrite !length_append, Hlen. change (String.length Str.nl) with 1.
    change (String.length "...(truncated)") with 14. lia.
  - rewrite substring_whole by done. split; [by rewrite !append_nil_r|].
    split; [intros; lia|].
    rewrite !length_append. change (String.length Str.nl) with 1.
    change (String.length "") with 0. lia.
Qed.

End RenderFacts.
